(** * Desktop dashboard widget (src/src/App.tsx): a shallow embedding

    The development follows the order of the source file: the string
    primitives of the platform that the code calls, strict JSON parsing,
    [parseJsonLenient], [normalizeCityName], [mapWmoToWeather], the
    component state with its update queue and persistence effects, the
    asynchronous weather and geolocation functions over an explicit
    network, and the render branching on [moduleView].

    Strings are byte strings holding UTF-8, so every literal of the
    source is the literal written here. *)

From Stdlib Require Import ZArith String Ascii List Bool Lia DecimalString.
From Stdlib Require DecimalPos DecimalZ.
From stdpp Require Import base option list strings gmap.
Import ListNotations.

Open Scope string_scope.
Open Scope Z_scope.

(** ** Platform strings *)

Module Js.

Definition byte (n : N) : ascii := ascii_of_N n.
Definition code (c : ascii) : N := N_of_ascii c.

Definition rev (s : string) : string :=
  string_of_list_ascii (List.rev (list_ascii_of_string s)).

(** White space and line terminators of ECMAScript, by the length of
    their UTF-8 encoding: TAB LF VT FF CR SP; U+00A0; U+1680,
    U+2000..U+200A, U+2028, U+2029, U+202F, U+205F, U+3000, U+FEFF. *)
Definition ws1 (a : ascii) : bool :=
  let n := code a in ((9 <=? n) && (n <=? 13) || (n =? 32))%N.

Definition ws2 (a b : ascii) : bool :=
  ((code a =? 194) && (code b =? 160))%N.

Definition ws3 (a b c : ascii) : bool :=
  let x := code a in let y := code b in let z := code c in
  ((x =? 225) && (y =? 154) && (z =? 128)
   || (x =? 226) && (y =? 128)
      && ((128 <=? z) && (z <=? 138) || (z =? 168) || (z =? 169) || (z =? 175))
   || (x =? 226) && (y =? 129) && (z =? 159)
   || (x =? 227) && (y =? 128) && (z =? 128)
   || (x =? 239) && (y =? 187) && (z =? 191))%N.

Fixpoint trimStart (s : string) : string :=
  match s with
  | String a r =>
      if ws1 a then trimStart r else
      match r with
      | String b r2 =>
          if ws2 a b then trimStart r2 else
          match r2 with
          | String c r3 => if ws3 a b c then trimStart r3 else s
          | EmptyString => s
          end
      | EmptyString => s
      end
  | EmptyString => EmptyString
  end.

(** The same scan on the reversed bytes, for the end of the string. *)
Fixpoint trimStart_rev (s : string) : string :=
  match s with
  | String a r =>
      if ws1 a then trimStart_rev r else
      match r with
      | String b r2 =>
          if ws2 b a then trimStart_rev r2 else
          match r2 with
          | String c r3 => if ws3 c b a then trimStart_rev r3 else s
          | EmptyString => s
          end
      | EmptyString => s
      end
  | EmptyString => EmptyString
  end.

Definition trimEnd (s : string) : string := rev (trimStart_rev (rev s)).

Definition trim (s : string) : string := trimEnd (trimStart s).

(** [toLowerCase] on the ASCII letters. None of the literals the source
    compares a lowered string with holds a character that a non-ASCII
    letter lowers to, so those comparisons agree with the platform's. *)
Definition lower (c : ascii) : ascii :=
  let n := code c in
  if ((65 <=? n) && (n <=? 90))%N then byte (n + 32) else c.

Fixpoint toLowerCase (s : string) : string :=
  match s with
  | String c r => String (lower c) (toLowerCase r)
  | EmptyString => EmptyString
  end.

Fixpoint includes (s sub : string) : bool :=
  String.prefix sub s
  || match s with
     | String _ r => includes r sub
     | EmptyString => false
     end.

Fixpoint indexOf_from (c : ascii) (s : string) (i : Z) : Z :=
  match s with
  | String a r => if Ascii.eqb a c then i else indexOf_from c r (i + 1)
  | EmptyString => -1
  end.

Definition indexOf (s : string) (c : ascii) : Z := indexOf_from c s 0.

Fixpoint lastIndexOf_from (c : ascii) (s : string) (i last : Z) : Z :=
  match s with
  | String a r => lastIndexOf_from c r (i + 1) (if Ascii.eqb a c then i else last)
  | EmptyString => last
  end.

Definition lastIndexOf (s : string) (c : ascii) : Z := lastIndexOf_from c s 0 (-1).

(** [s.slice(from, to)]: a negative index counts from the end, and both
    are clamped to the string. *)
Definition clamp_index (len k : Z) : Z :=
  if k <? 0 then Z.max (len + k) 0 else Z.min k len.

Definition slice (s : string) (from : Z) (to : option Z) : string :=
  let len := Z.of_nat (String.length s) in
  let a := clamp_index len from in
  let b := match to with Some t => clamp_index len t | None => len end in
  String.substring (Z.to_nat a) (Z.to_nat (b - a)) s.

(** [Math.min(...l)] and [Math.max(...l)] on a list that is not empty. *)
Definition Math_min (l : list Z) : Z :=
  match l with x :: r => fold_left Z.min r x | [] => 0 end.

Definition Math_max (l : list Z) : Z :=
  match l with x :: r => fold_left Z.max r x | [] => 0 end.

(** A string is falsy exactly when it is empty. *)
Definition truthy (s : string) : bool := negb (String.eqb s "").

(** [a || b] on strings. *)
Definition or_else (a b : string) : string := if truthy a then a else b.

Definition Z_to_string (z : Z) : string := NilZero.string_of_int (Z.to_int z).

(** The double quote, as a character and as a string. *)
Definition quote : ascii := byte 34.
Definition dq : string := String quote EmptyString.

End Js.

(** ** Strict JSON ([JSON.parse]) *)

Module Json.

(** A number is kept as the exact decimal its text denotes,
    [m * 10 ^ e]; an object keeps its members in the order of the text
    and a lookup takes the last one of a name, as the platform's parser
    lets a later member overwrite an earlier one. *)
#[warnings="-register-all"]
Inductive json : Type :=
| JNull
| JBool (b : bool)
| JNumber (m e : Z)
| JString (s : string)
| JArray (items : list json)
| JObject (members : list (string * json)).

Definition is_ws (c : ascii) : bool :=
  let n := Js.code c in ((n =? 32) || (n =? 9) || (n =? 10) || (n =? 13))%N.

Fixpoint skip_ws (s : string) : string :=
  match s with
  | String c r => if is_ws c then skip_ws r else s
  | EmptyString => EmptyString
  end.

Fixpoint strip_prefix (p s : string) : option string :=
  match p, s with
  | EmptyString, _ => Some s
  | String a p', String b s' => if Ascii.eqb a b then strip_prefix p' s' else None
  | String _ _, EmptyString => None
  end.

Definition digit (c : ascii) : option Z :=
  let n := Js.code c in
  if ((48 <=? n) && (n <=? 57))%N then Some (Z.of_N n - 48) else None.

Definition hex (c : ascii) : option N :=
  let n := Js.code c in
  if ((48 <=? n) && (n <=? 57))%N then Some (n - 48)%N
  else if ((97 <=? n) && (n <=? 102))%N then Some (n - 87)%N
  else if ((65 <=? n) && (n <=? 70))%N then Some (n - 55)%N
  else None.

(** [digits s acc k]: the longest run of digits at the head of [s],
    appended to [acc]; [k] counts them. *)
Fixpoint digits (s : string) (acc : Z) (k : Z) : Z * Z * string :=
  match s with
  | String c r =>
      match digit c with
      | Some d => digits r (10 * acc + d) (k + 1)
      | None => (acc, k, s)
      end
  | EmptyString => (acc, k, s)
  end.

Definition parse_int_part (s : string) : option (Z * string) :=
  match s with
  | String c r =>
      match digit c with
      | Some 0 => Some (0, r)
      | Some d => let '(v, _, r') := digits r d 1 in Some (v, r')
      | None => None
      end
  | EmptyString => None
  end.

Definition parse_frac (v : Z) (s : string) : option (Z * Z * string) :=
  match s with
  | String "."%char r =>
      let '(v', k, r') := digits r v 0 in
      if 0 <? k then Some (v', k, r') else None
  | _ => Some (v, 0, s)
  end.

Definition parse_exp (s : string) : option (Z * string) :=
  match s with
  | String c r =>
      if Ascii.eqb c "e" || Ascii.eqb c "E" then
        let '(neg, r1) :=
          match r with
          | String "-"%char r1 => (true, r1)
          | String "+"%char r1 => (false, r1)
          | _ => (false, r)
          end in
        let '(v, k, r2) := digits r1 0 0 in
        if 0 <? k then Some (if neg then - v else v, r2) else None
      else Some (0, s)
  | EmptyString => Some (0, s)
  end.

Definition parse_number (s : string) : option (json * string) :=
  let '(neg, s1) :=
    match s with
    | String "-"%char r => (true, r)
    | _ => (false, s)
    end in
  '(i, s2) ← parse_int_part s1;
  '(v, k, s3) ← parse_frac i s2;
  '(x, s4) ← parse_exp s3;
  Some (JNumber (if neg then - v else v) (x - k), s4).

(** The UTF-8 bytes of a code point (a lone surrogate gets the
    three-byte form). *)
Definition utf8 (cp : N) : list ascii :=
  (if cp <? 128 then [Js.byte cp]
   else if cp <? 2048 then
     [Js.byte (192 + cp / 64); Js.byte (128 + cp mod 64)]
   else if cp <? 65536 then
     [Js.byte (224 + cp / 4096); Js.byte (128 + (cp / 64) mod 64);
      Js.byte (128 + cp mod 64)]
   else
     [Js.byte (240 + cp / 262144); Js.byte (128 + (cp / 4096) mod 64);
      Js.byte (128 + (cp / 64) mod 64); Js.byte (128 + cp mod 64)])%N.

(** What a string literal holds: a byte written as it is, or the code
    unit of a [\uXXXX] escape. *)
Inductive unit_ : Type :=
| Raw (c : ascii)
| Esc (u : N).

Fixpoint scan_string (s : string) : option (list unit_ * string) :=
  match s with
  | EmptyString => None
  | String c r =>
      if Ascii.eqb c Js.quote then Some ([], r)
      else if Ascii.eqb c "\" then
        match r with
        | String e r1 =>
            let simple (b : N) :=
              '(us, rest) ← scan_string r1; Some (Raw (Js.byte b) :: us, rest) in
            if Ascii.eqb e Js.quote then simple 34%N
            else if Ascii.eqb e "\" then simple 92%N
            else if Ascii.eqb e "/" then simple 47%N
            else if Ascii.eqb e "b" then simple 8%N
            else if Ascii.eqb e "f" then simple 12%N
            else if Ascii.eqb e "n" then simple 10%N
            else if Ascii.eqb e "r" then simple 13%N
            else if Ascii.eqb e "t" then simple 9%N
            else if Ascii.eqb e "u" then
              match r1 with
              | String h1 (String h2 (String h3 (String h4 r2))) =>
                  match hex h1, hex h2, hex h3, hex h4 with
                  | Some a, Some b, Some c, Some d =>
                      '(us, rest) ← scan_string r2;
                      Some (Esc (((a * 16 + b) * 16 + c) * 16 + d)%N :: us, rest)
                  | _, _, _, _ => None
                  end
              | _ => None
              end
            else None
        | EmptyString => None
        end
      else if (Js.code c <? 32)%N then None
      else '(us, rest) ← scan_string r; Some (Raw c :: us, rest)
  end.

Definition high_surrogate (u : N) : bool := ((55296 <=? u) && (u <=? 56319))%N.
Definition low_surrogate (u : N) : bool := ((56320 <=? u) && (u <=? 57343))%N.

Fixpoint decode_units (us : list unit_) : list ascii :=
  match us with
  | [] => []
  | Raw c :: r => c :: decode_units r
  | Esc u :: r =>
      match r with
      | Esc v :: r' =>
          if high_surrogate u && low_surrogate v
          then utf8 (65536 + (u - 55296) * 1024 + (v - 56320))%N ++ decode_units r'
          else utf8 u ++ decode_units r
      | _ => utf8 u ++ decode_units r
      end
  end.

(** After the opening quote. *)
Definition parse_string (s : string) : option (string * string) :=
  '(us, rest) ← scan_string s;
  Some (string_of_list_ascii (decode_units us), rest).

Fixpoint parse_value (fuel : nat) (s : string) : option (json * string) :=
  match fuel with
  | O => None
  | S fuel =>
      let s := skip_ws s in
      match s with
      | String "{"%char r =>
          match skip_ws r with
          | String "}"%char r' => Some (JObject [], r')
          | r1 => '(ms, r') ← parse_members fuel r1; Some (JObject ms, r')
          end
      | String "["%char r =>
          match skip_ws r with
          | String "]"%char r' => Some (JArray [], r')
          | r1 => '(vs, r') ← parse_elements fuel r1; Some (JArray vs, r')
          end
      | String (Ascii false true false false false true false false) r =>
          '(str, r') ← parse_string r; Some (JString str, r')
      | String "t"%char _ => r ← strip_prefix "true" s; Some (JBool true, r)
      | String "f"%char _ => r ← strip_prefix "false" s; Some (JBool false, r)
      | String "n"%char _ => r ← strip_prefix "null" s; Some (JNull, r)
      | _ => parse_number s
      end
  end
with parse_elements (fuel : nat) (s : string) : option (list json * string) :=
  match fuel with
  | O => None
  | S fuel =>
      '(v, r) ← parse_value fuel s;
      match skip_ws r with
      | String ","%char r' => '(vs, r'') ← parse_elements fuel r'; Some (v :: vs, r'')
      | String "]"%char r' => Some ([v], r')
      | _ => None
      end
  end
with parse_members (fuel : nat) (s : string) : option (list (string * json) * string) :=
  match fuel with
  | O => None
  | S fuel =>
      match skip_ws s with
      | String (Ascii false true false false false true false false) r =>
          '(k, r1) ← parse_string r;
          match skip_ws r1 with
          | String ":"%char r2 =>
              '(v, r3) ← parse_value fuel r2;
              match skip_ws r3 with
              | String ","%char r' =>
                  '(ms, r'') ← parse_members fuel r'; Some ((k, v) :: ms, r'')
              | String "}"%char r' => Some ([(k, v)], r')
              | _ => None
              end
          | _ => None
          end
      | _ => None
      end
  end.

(** Every step that spends fuel without reading a character is followed
    by one that reads one, so twice the length is enough. *)
Definition parse (text : string) : option json :=
  '(v, r) ← parse_value (2 * String.length text + 2) text;
  match skip_ws r with
  | EmptyString => Some v
  | _ => None
  end.

End Json.

Export Json(json(..)).

(** ** Exceptions *)

Inductive exn : Type :=
| Error (message : string)
| SyntaxError
| TypeError
| FetchError.

Inductive result (A : Type) : Type :=
| Ok (a : A)
| Throw (e : exn).

Arguments Ok {A} a.
Arguments Throw {A} e.

Definition is_ok {A} (r : result A) : bool :=
  match r with Ok _ => true | Throw _ => false end.

Definition JSON_parse (text : string) : result json :=
  match Json.parse text with
  | Some v => Ok v
  | None => Throw SyntaxError
  end.

(** ** [parseJsonLenient] *)

Definition nonneg (value : Z) : bool := 0 <=? value.

Definition parseJsonLenient (rawText : string) : result json :=
  let text := Js.trim rawText in
  match JSON_parse text with
  | Ok v => Ok v
  | Throw _ =>
      let firstObj := Js.indexOf text "{" in
      let firstArr := Js.indexOf text "[" in
      let startCandidates := List.filter nonneg [firstObj; firstArr] in
      let start :=
        match startCandidates with [] => -1 | _ => Js.Math_min startCandidates end in
      if start <? 0 then Throw (Error "invalid json") else
      let sliced := Js.slice text start None in
      let endObj := Js.lastIndexOf sliced "}" in
      let endArr := Js.lastIndexOf sliced "]" in
      let endCandidates := List.filter nonneg [endObj; endArr] in
      let end_ :=
        match endCandidates with [] => -1 | _ => Js.Math_max endCandidates end in
      if end_ <? 0 then Throw (Error "invalid json") else
      JSON_parse (Js.slice sliced 0 (Some (end_ + 1)))
  end.

(** ** [normalizeCityName] *)

Definition normalizeCityName (raw : string) : string :=
  let value := Js.trim raw in
  if negb (Js.truthy value) then "" else
  let lower := Js.toLowerCase value in
  if String.eqb lower "ningbo" then "宁波"
  else if String.eqb lower "beijing" then "北京"
  else if String.eqb lower "shanghai" then "上海"
  else if String.eqb lower "hangzhou" then "杭州"
  else if String.eqb lower "shenzhen" then "深圳"
  else if String.eqb lower "guangzhou" then "广州"
  else value.

(** ** [mapWmoToWeather] *)

(** A number of the program: [NaN], or the exact decimal [m * 10 ^ e]. *)
Inductive number : Type :=
| NaN
| Dec (m e : Z).

Definition int (z : Z) : number := Dec z 0.

(** The order of [m * 10 ^ e] and the integer literal [c]. *)
Definition compare_lit (m e c : Z) : comparison :=
  if 0 <=? e then (m * 10 ^ e ?= c) else (m ?= c * 10 ^ (- e)).

(** [x === c], [x >= c] and [x <= c]; each is false on [NaN]. *)
Definition eq_lit (x : number) (c : Z) : bool :=
  match x with
  | Dec m e => match compare_lit m e c with Eq => true | _ => false end
  | NaN => false
  end.

Definition ge_lit (x : number) (c : Z) : bool :=
  match x with
  | Dec m e => match compare_lit m e c with Lt => false | _ => true end
  | NaN => false
  end.

Definition le_lit (x : number) (c : Z) : bool :=
  match x with
  | Dec m e => match compare_lit m e c with Gt => false | _ => true end
  | NaN => false
  end.

Record Mapped : Type := { text : string; icon : string }.

Definition mapWmoToWeather (code : number) : Mapped :=
  if eq_lit code 0 then {| text := "晴"; icon := "☀️" |}
  else if eq_lit code 1 then {| text := "大部晴朗"; icon := "🌤️" |}
  else if eq_lit code 2 then {| text := "多云"; icon := "⛅️" |}
  else if eq_lit code 3 then {| text := "阴"; icon := "☁️" |}
  else if eq_lit code 45 || eq_lit code 48 then {| text := "雾"; icon := "🌫️" |}
  else if ge_lit code 51 && le_lit code 57 then {| text := "毛毛雨"; icon := "🌦️" |}
  else if ge_lit code 61 && le_lit code 67 then {| text := "雨"; icon := "🌧️" |}
  else if ge_lit code 71 && le_lit code 77 then {| text := "雪"; icon := "🌨️" |}
  else if ge_lit code 80 && le_lit code 82 then {| text := "阵雨"; icon := "🌦️" |}
  else if ge_lit code 85 && le_lit code 86 then {| text := "阵雪"; icon := "🌨️" |}
  else if ge_lit code 95 then {| text := "雷暴"; icon := "⛈️" |}
  else {| text := "多云"; icon := "⛅️" |}.

(** ** Values read from a decoded payload *)

(** A value of the program that came out of [JSON.parse], or [undefined]. *)
Definition value : Type := option json.
Definition undefined : value := None.

Fixpoint lookup_last (k : string) (members : list (string * json)) : value :=
  match members with
  | [] => undefined
  | (k', v) :: r =>
      match lookup_last k r with
      | Some v' => Some v'
      | None => if String.eqb k' k then Some v else undefined
      end
  end.

(** The bytes of the first character of a string. *)
Definition first_char (s : string) : string :=
  match s with
  | String c _ =>
      let n := Js.code c in
      String.substring 0
        (if (n <? 192)%N then 1 else if (n <? 224)%N then 2
         else if (n <? 240)%N then 3 else 4)%nat s
  | EmptyString => EmptyString
  end.

(** [v.k], for the member names the source reads (none of them is a
    property that arrays, strings, numbers or booleans have of their
    own or inherit). Reading a member of [null] or [undefined] throws. *)
Definition get (v : value) (k : string) : result value :=
  match v with
  | None | Some JNull => Throw TypeError
  | Some (JObject members) => Ok (lookup_last k members)
  | Some _ => Ok undefined
  end.

(** [v[0]] *)
Definition at0 (v : value) : result value :=
  match v with
  | None | Some JNull => Throw TypeError
  | Some (JArray items) => Ok (head items)
  | Some (JObject members) => Ok (lookup_last "0" members)
  | Some (JString s) =>
      Ok (match s with EmptyString => undefined | _ => Some (JString (first_char s)) end)
  | Some _ => Ok undefined
  end.

Definition nullish (v : value) : bool :=
  match v with None | Some JNull => true | Some _ => false end.

(** [v?.[0]] and [v?.k] *)
Definition opt_at0 (v : value) : result value :=
  if nullish v then Ok undefined else at0 v.

Definition opt_get (v : value) (k : string) : result value :=
  if nullish v then Ok undefined else get v k.

Definition truthy (v : value) : bool :=
  match v with
  | None | Some JNull => false
  | Some (JBool b) => b
  | Some (JNumber m _) => negb (m =? 0)
  | Some (JString s) => Js.truthy s
  | Some (JArray _) | Some (JObject _) => true
  end.

(** A member that the payload type declares a number, read at that
    type: a value of another kind is outside the declaration and reads
    as [NaN]. *)
Definition as_number (v : value) : number :=
  match v with
  | Some (JNumber m e) => Dec m e
  | _ => NaN
  end.

(** A method of strings called on a value: a [TypeError] unless the
    value is a string. *)
Definition on_string {A} (f : string -> A) (v : value) : result A :=
  match v with
  | Some (JString s) => Ok (f s)
  | _ => Throw TypeError
  end.

(** ** Data model *)

(** The figures shown are the platform's conversions of payload
    members; they are kept as the applications the source writes. *)
Inductive Num : Type :=
| Math_round (v : value)
| parseInt (v : value).

(** [`${n} km/h`] and [`${v} km/h`] *)
Inductive Wind : Type :=
| kmh_of_num (n : Num)
| kmh_of_value (v : value).

Module WeatherInfo.
Record t : Type := {
  city : string;
  condition : string;
  temperature : Num;
  feels : Num;
  humidity : Num;
  wind : Wind;
  air : string;
  icon : string
}.
End WeatherInfo.

Module TodoItem.
Record t : Type := {
  id : string;
  title : string;
  time : string;
  priority : string;
  done : bool
}.
End TodoItem.

Module AgendaItem.
Record t : Type := {
  id : string;
  title : string;
  time : string;
  location : string
}.
End AgendaItem.

Module TodoForm.
Record t : Type := { title : string; time : string; priority : string }.
End TodoForm.

Module AgendaForm.
Record t : Type := { title : string; time : string; location : string }.
End AgendaForm.

Module storageKeys.
Definition todos : string := "dashboard_todos_v1".
Definition agenda : string := "dashboard_agenda_v1".
Definition city : string := "dashboard_city_v1".
Definition cityMode : string := "dashboard_city_mode_v1".
End storageKeys.

Inductive CityMode : Type := auto | manual.
Inductive WeatherStatus : Type := loading | ready | error.
Inductive Panel : Type := panel_todo | panel_agenda.

(** ** [JSON.stringify] of the persisted values *)

Module Stringify.

Definition hex_digit (n : N) : ascii :=
  (if n <? 10 then Js.byte (48 + n) else Js.byte (87 + n))%N.

Definition escape_char (c : ascii) : string :=
  let n := Js.code c in
  (if n =? 34 then String "\" Js.dq
   else if n =? 92 then "\\"
   else if n =? 8 then "\b"
   else if n =? 12 then "\f"
   else if n =? 10 then "\n"
   else if n =? 13 then "\r"
   else if n =? 9 then "\t"
   else if n <? 32 then
     "\u00" ++ String (hex_digit (n / 16)) (String (hex_digit (n mod 16)) EmptyString)
   else String c EmptyString)%N.

Fixpoint escape (s : string) : string :=
  match s with
  | String c r => escape_char c ++ escape r
  | EmptyString => EmptyString
  end.

Definition str (s : string) : string := Js.dq ++ escape s ++ Js.dq.

Definition bool (b : bool) : string := if b then "true" else "false".

Definition member (k v : string) : string := str k ++ ":" ++ v.

Definition object (members : list string) : string :=
  "{" ++ String.concat "," members ++ "}".

Definition array (items : list string) : string :=
  "[" ++ String.concat "," items ++ "]".

Definition todoItem (item : TodoItem.t) : string :=
  object [member "id" (str (TodoItem.id item));
          member "title" (str (TodoItem.title item));
          member "time" (str (TodoItem.time item));
          member "priority" (str (TodoItem.priority item));
          member "done" (bool (TodoItem.done item))].

Definition agendaItem (item : AgendaItem.t) : string :=
  object [member "id" (str (AgendaItem.id item));
          member "title" (str (AgendaItem.title item));
          member "time" (str (AgendaItem.time item));
          member "location" (str (AgendaItem.location item))].

Definition todos (l : list TodoItem.t) : string := array (map todoItem l).
Definition agenda (l : list AgendaItem.t) : string := array (map agendaItem l).

Definition cityMode (m : CityMode) : string :=
  str (match m with auto => "auto" | manual => "manual" end).

End Stringify.

(** ** The world outside the component *)

(** The addresses the source builds, with the values placed in them. *)
Inductive Url : Type :=
| GeocodingSearch (name : string)
| Forecast (latitude longitude : value)
| Wttr (name : string)
| Endpoint (url : string).

(** What a [fetch] meets: no response (the network fails, or the timer
    aborts the request), or a status and a body. *)
Inductive Response : Type :=
| NoResponse
| Http (status : Z) (body : string).

(** [incoming] holds the responses the coming requests will meet, in
    order; [requests] logs each request made. [randomUUID] is absent
    where the platform has no [crypto.randomUUID]; it and the clock are
    read at the number of identifiers created so far. *)
Record World : Type := {
  incoming : list Response;
  requests : list (Url * Z);
  randomUUID : option (nat -> string);
  Date_now : nat -> Z;
  created : list string
}.

Definition createId (wd : World) : string * World :=
  let k := length (created wd) in
  let id :=
    match randomUUID wd with
    | Some uuid => uuid k
    | None => Js.Z_to_string (Date_now wd k)
    end in
  (id, {| incoming := incoming wd; requests := requests wd;
          randomUUID := randomUUID wd; Date_now := Date_now wd;
          created := created wd ++ [id] |}).

(** ** Component state *)

Record Hooks : Type := {
  city : string;
  cityMode : CityMode;
  isEditingCity : bool;
  isLocating : bool;
  weather : option WeatherInfo.t;
  weatherStatus : WeatherStatus;
  todos : list TodoItem.t;
  todoForm : TodoForm.t;
  agenda : list AgendaItem.t;
  agendaForm : AgendaForm.t;
  activePanel : option Panel
}.

(** A call of a state setter. The updaters of the two collections run
    when the component next renders; the one of [addTodo] and
    [addAgenda] calls [createId] there, so an updater reads the world. *)
Inductive Action : Type :=
| setCity (v : string)
| setCityMode (v : CityMode)
| setIsEditingCity (v : bool)
| setIsLocating (v : bool)
| setWeather (v : option WeatherInfo.t)
| setWeatherStatus (v : WeatherStatus)
| setTodos (f : list TodoItem.t -> World -> list TodoItem.t * World)
| setTodoForm (f : TodoForm.t -> TodoForm.t)
| setAgenda (f : list AgendaItem.t -> World -> list AgendaItem.t * World)
| setAgendaForm (f : AgendaForm.t -> AgendaForm.t)
| setActivePanel (v : option Panel).

(** One window: its launch parameters, the state of the last render,
    the setter calls not yet rendered, the store and the world. *)
Record Window : Type := {
  desktopMode : bool;
  moduleView : option string;
  hooks : Hooks;
  queue : list Action;
  localStorage : gmap string string;
  world : World
}.

(** The state with one variable replaced. *)
Definition with_city (v : string) (h : Hooks) : Hooks :=
  {| city := v; cityMode := cityMode h; isEditingCity := isEditingCity h;
     isLocating := isLocating h; weather := weather h;
     weatherStatus := weatherStatus h; todos := todos h; todoForm := todoForm h;
     agenda := agenda h; agendaForm := agendaForm h; activePanel := activePanel h |}.

Definition with_cityMode (v : CityMode) (h : Hooks) : Hooks :=
  {| city := city h; cityMode := v; isEditingCity := isEditingCity h;
     isLocating := isLocating h; weather := weather h;
     weatherStatus := weatherStatus h; todos := todos h; todoForm := todoForm h;
     agenda := agenda h; agendaForm := agendaForm h; activePanel := activePanel h |}.

Definition with_isEditingCity (v : bool) (h : Hooks) : Hooks :=
  {| city := city h; cityMode := cityMode h; isEditingCity := v;
     isLocating := isLocating h; weather := weather h;
     weatherStatus := weatherStatus h; todos := todos h; todoForm := todoForm h;
     agenda := agenda h; agendaForm := agendaForm h; activePanel := activePanel h |}.

Definition with_isLocating (v : bool) (h : Hooks) : Hooks :=
  {| city := city h; cityMode := cityMode h; isEditingCity := isEditingCity h;
     isLocating := v; weather := weather h; weatherStatus := weatherStatus h;
     todos := todos h; todoForm := todoForm h; agenda := agenda h;
     agendaForm := agendaForm h; activePanel := activePanel h |}.

Definition with_weather (v : option WeatherInfo.t) (h : Hooks) : Hooks :=
  {| city := city h; cityMode := cityMode h; isEditingCity := isEditingCity h;
     isLocating := isLocating h; weather := v; weatherStatus := weatherStatus h;
     todos := todos h; todoForm := todoForm h; agenda := agenda h;
     agendaForm := agendaForm h; activePanel := activePanel h |}.

Definition with_weatherStatus (v : WeatherStatus) (h : Hooks) : Hooks :=
  {| city := city h; cityMode := cityMode h; isEditingCity := isEditingCity h;
     isLocating := isLocating h; weather := weather h; weatherStatus := v;
     todos := todos h; todoForm := todoForm h; agenda := agenda h;
     agendaForm := agendaForm h; activePanel := activePanel h |}.

Definition with_todos (v : list TodoItem.t) (h : Hooks) : Hooks :=
  {| city := city h; cityMode := cityMode h; isEditingCity := isEditingCity h;
     isLocating := isLocating h; weather := weather h;
     weatherStatus := weatherStatus h; todos := v; todoForm := todoForm h;
     agenda := agenda h; agendaForm := agendaForm h; activePanel := activePanel h |}.

Definition with_todoForm (v : TodoForm.t) (h : Hooks) : Hooks :=
  {| city := city h; cityMode := cityMode h; isEditingCity := isEditingCity h;
     isLocating := isLocating h; weather := weather h;
     weatherStatus := weatherStatus h; todos := todos h; todoForm := v;
     agenda := agenda h; agendaForm := agendaForm h; activePanel := activePanel h |}.

Definition with_agenda (v : list AgendaItem.t) (h : Hooks) : Hooks :=
  {| city := city h; cityMode := cityMode h; isEditingCity := isEditingCity h;
     isLocating := isLocating h; weather := weather h;
     weatherStatus := weatherStatus h; todos := todos h; todoForm := todoForm h;
     agenda := v; agendaForm := agendaForm h; activePanel := activePanel h |}.

Definition with_agendaForm (v : AgendaForm.t) (h : Hooks) : Hooks :=
  {| city := city h; cityMode := cityMode h; isEditingCity := isEditingCity h;
     isLocating := isLocating h; weather := weather h;
     weatherStatus := weatherStatus h; todos := todos h; todoForm := todoForm h;
     agenda := agenda h; agendaForm := v; activePanel := activePanel h |}.

Definition with_activePanel (v : option Panel) (h : Hooks) : Hooks :=
  {| city := city h; cityMode := cityMode h; isEditingCity := isEditingCity h;
     isLocating := isLocating h; weather := weather h;
     weatherStatus := weatherStatus h; todos := todos h; todoForm := todoForm h;
     agenda := agenda h; agendaForm := agendaForm h; activePanel := v |}.

Definition reduce (s : Hooks * World) (a : Action) : Hooks * World :=
  let '(h, wd) := s in
  match a with
  | setCity v => (with_city v h, wd)
  | setCityMode v => (with_cityMode v h, wd)
  | setIsEditingCity v => (with_isEditingCity v h, wd)
  | setIsLocating v => (with_isLocating v h, wd)
  | setWeather v => (with_weather v h, wd)
  | setWeatherStatus v => (with_weatherStatus v h, wd)
  | setTodos f => let '(v, wd') := f (todos h) wd in (with_todos v h, wd')
  | setTodoForm f => (with_todoForm (f (todoForm h)) h, wd)
  | setAgenda f => let '(v, wd') := f (agenda h) wd in (with_agenda v h, wd')
  | setAgendaForm f => (with_agendaForm (f (agendaForm h)) h, wd)
  | setActivePanel v => (with_activePanel v h, wd)
  end.

Definition run_queue (q : list Action) (s : Hooks * World) : Hooks * World :=
  fold_left reduce q s.

(** ** Persistence *)

(** [localStorage.setItem(key, JSON.stringify(value))], with the
    serializer of the type of the value. *)
Definition saveStorage {T} (JSON_stringify : T -> string) (key : string) (value : T)
    (st : gmap string string) : gmap string string :=
  <[key := JSON_stringify value]> st.

Definition is_setTodos (a : Action) : bool :=
  match a with setTodos _ => true | _ => false end.

Definition is_setAgenda (a : Action) : bool :=
  match a with setAgenda _ => true | _ => false end.

Definition CityMode_eqb (a b : CityMode) : bool :=
  match a, b with auto, auto | manual, manual => true | _, _ => false end.

(** The four effects that save, each on its dependency: it runs after
    a render in which the dependency is not the value of the render
    before. An updater of a collection always builds a new array; the
    city and its mode are compared as values. *)
Definition persist (before after : Hooks) (q : list Action)
    (st : gmap string string) : gmap string string :=
  let st1 :=
    if existsb is_setTodos q
    then saveStorage Stringify.todos storageKeys.todos (todos after) st else st in
  let st2 :=
    if existsb is_setAgenda q
    then saveStorage Stringify.agenda storageKeys.agenda (agenda after) st1 else st1 in
  let st3 :=
    if negb (String.eqb (city before) (city after))
    then saveStorage Stringify.str storageKeys.city (city after) st2 else st2 in
  if negb (CityMode_eqb (cityMode before) (cityMode after))
  then saveStorage Stringify.cityMode storageKeys.cityMode (cityMode after) st3 else st3.

(** The effects as they all run after the first render. *)
Definition persist_all (h : Hooks) (st : gmap string string) : gmap string string :=
  saveStorage Stringify.cityMode storageKeys.cityMode (cityMode h)
    (saveStorage Stringify.str storageKeys.city (city h)
       (saveStorage Stringify.agenda storageKeys.agenda (agenda h)
          (saveStorage Stringify.todos storageKeys.todos (todos h) st))).

(** The next render and its effects: the queued setter calls are
    applied in order, then the saving effects whose dependency changed
    run. The effect that refreshes the weather when the city changes
    only starts [fetchWeather] and [locateWeather], which are
    computations of their own below. *)
Definition commit (w : Window) : Window :=
  let '(h, wd) := run_queue (queue w) (hooks w, world w) in
  {| desktopMode := desktopMode w; moduleView := moduleView w;
     hooks := h; queue := [];
     localStorage := persist (hooks w) h (queue w) (localStorage w);
     world := wd |}.

(** The state a window starts from when the store holds none of the
    four keys: [loadStorage] returns each fallback. *)
Definition first_hooks : Hooks := {|
  city := "上海"; cityMode := auto; isEditingCity := false; isLocating := false;
  weather := None; weatherStatus := loading;
  todos := []; todoForm := {| TodoForm.title := ""; TodoForm.time := ""; TodoForm.priority := "中" |};
  agenda := []; agendaForm := {| AgendaForm.title := ""; AgendaForm.time := ""; AgendaForm.location := "" |};
  activePanel := None
|}.

(** A window after its first render and the effects of it. *)
Definition mount (desktop : bool) (module : option string) (h : Hooks)
    (st : gmap string string) (wd : World) : Window :=
  {| desktopMode := desktop; moduleView := module; hooks := h; queue := [];
     localStorage := persist_all h st; world := wd |}.

(** ** Computations of a window *)

Definition M (A : Type) : Type := Window -> result A * Window.

Definition ret {A} (a : A) : M A := fun w => (Ok a, w).

Definition throw {A} (e : exn) : M A := fun w => (Throw e, w).

Definition bind {A B} (m : M A) (k : A -> M B) : M B :=
  fun w =>
    match m w with
    | (Ok a, w') => k a w'
    | (Throw e, w') => (Throw e, w')
    end.

Definition try_catch {A} (m : M A) (handler : exn -> M A) : M A :=
  fun w =>
    match m w with
    | (Ok a, w') => (Ok a, w')
    | (Throw e, w') => handler e w'
    end.

Definition try_finally {A} (m : M A) (finalizer : M unit) : M A :=
  fun w =>
    let '(r, w') := m w in
    match finalizer w' with
    | (Ok _, w'') => (r, w'')
    | (Throw e, w'') => (Throw e, w'')
    end.

Definition lift {A} (r : result A) : M A := fun w => (r, w).

Notation "'do' x <- m ;; k" := (bind m (fun x => k))
  (at level 10, x name, m at level 99, k at level 200).
Notation "m ;;; k" := (bind m (fun _ => k))
  (at level 100, k at level 200, right associativity).

Definition with_queue (q : list Action) (w : Window) : Window :=
  {| desktopMode := desktopMode w; moduleView := moduleView w; hooks := hooks w;
     queue := q; localStorage := localStorage w; world := world w |}.

Definition with_world (wd : World) (w : Window) : Window :=
  {| desktopMode := desktopMode w; moduleView := moduleView w; hooks := hooks w;
     queue := queue w; localStorage := localStorage w; world := wd |}.

(** A setter call: queued for the next render. *)
Definition call (a : Action) : M unit :=
  fun w => (Ok tt, with_queue (queue w ++ [a]) w).

(** [fetch(url)] under a timer of [timeoutMs]: the request is logged
    and meets the next response. *)
Definition fetch (url : Url) (timeoutMs : Z) : M (Z * string) :=
  fun w =>
    let wd := world w in
    let log := (requests wd ++ [(url, timeoutMs)])%list in
    let next rest :=
      with_world {| incoming := rest; requests := log; randomUUID := randomUUID wd;
                    Date_now := Date_now wd; created := created wd |} w in
    match incoming wd with
    | Http status body :: rest => (Ok (status, body), next rest)
    | NoResponse :: rest => (Throw FetchError, next rest)
    | [] => (Throw FetchError, next [])
    end.

Definition response_ok (status : Z) : bool := (200 <=? status) && (status <=? 299).

Definition fetchJson (url : Url) (timeoutMs : Z) : M json :=
  do response <- fetch url timeoutMs ;;
  let '(status, body) := response in
  if negb (response_ok status)
  then throw (Error ("bad response: " ++ Js.Z_to_string status))
  else lift (parseJsonLenient body).

(** ** [fetchWeather] *)

(** The primary path: geocoding, then the forecast at the coordinates
    of the first result. *)
Definition primaryPath (normalized : string) : M bool :=
  do geo <- fetchJson (GeocodingSearch normalized) 5000 ;;
  do results <- lift (get (Some geo) "results") ;;
  do first <- lift (opt_at0 results) ;;
  if negb (truthy first) then throw (Error "no geocoding result") else
  do latitude <- lift (get first "latitude") ;;
  do longitude <- lift (get first "longitude") ;;
  do forecast <- fetchJson (Forecast latitude longitude) 5000 ;;
  do current <- lift (get (Some forecast) "current") ;;
  if negb (truthy current) then throw (Error "no current weather") else
  do weather_code <- lift (get current "weather_code") ;;
  let mapped := mapWmoToWeather (as_number weather_code) in
  do temperature_2m <- lift (get current "temperature_2m") ;;
  do apparent_temperature <- lift (get current "apparent_temperature") ;;
  do relative_humidity_2m <- lift (get current "relative_humidity_2m") ;;
  do wind_speed_10m <- lift (get current "wind_speed_10m") ;;
  call (setWeather (Some {|
    WeatherInfo.city := normalized;
    WeatherInfo.condition := text mapped;
    WeatherInfo.temperature := Math_round temperature_2m;
    WeatherInfo.feels := Math_round apparent_temperature;
    WeatherInfo.humidity := Math_round relative_humidity_2m;
    WeatherInfo.wind := kmh_of_num (Math_round wind_speed_10m);
    WeatherInfo.air := "实时";
    WeatherInfo.icon := icon mapped |})) ;;;
  call (setWeatherStatus ready) ;;;
  ret true.

(** The condition and icon for a lowered description of the text
    report, by the first keyword it holds. *)
Definition classify (desc : string) : Mapped :=
  if Js.includes desc "sunny" || Js.includes desc "clear"
  then {| text := "晴"; icon := "☀️" |}
  else if Js.includes desc "partly cloudy"
  then {| text := "多云"; icon := "⛅️" |}
  else if Js.includes desc "cloudy" || Js.includes desc "overcast"
  then {| text := "阴"; icon := "☁️" |}
  else if Js.includes desc "rain" || Js.includes desc "drizzle" || Js.includes desc "shower"
  then {| text := "雨"; icon := "🌧️" |}
  else if Js.includes desc "snow" || Js.includes desc "ice" || Js.includes desc "blizzard"
  then {| text := "雪"; icon := "🌨️" |}
  else if Js.includes desc "thunder"
  then {| text := "雷暴"; icon := "⛈️" |}
  else if Js.includes desc "fog" || Js.includes desc "mist" || Js.includes desc "haze"
  then {| text := "雾"; icon := "🌫️" |}
  else {| text := "多云"; icon := "⛅️" |}.

(** The secondary path: the text report for the city. *)
Definition secondaryPath (normalized : string) : M bool :=
  do data <- fetchJson (Wttr normalized) 6000 ;;
  do current_condition <- lift (get (Some data) "current_condition") ;;
  do current <- lift (at0 current_condition) ;;
  if negb (truthy current) then throw (Error "No weather data") else
  do weatherDesc <- lift (get current "weatherDesc") ;;
  do desc0 <- lift (at0 weatherDesc) ;;
  do described <- lift (opt_get desc0 "value") ;;
  do desc <- lift (on_string Js.toLowerCase
                     (if nullish described then Some (JString "") else described)) ;;
  let classified := classify desc in
  do temp_C <- lift (get current "temp_C") ;;
  do FeelsLikeC <- lift (get current "FeelsLikeC") ;;
  do humidity <- lift (get current "humidity") ;;
  do windspeedKmph <- lift (get current "windspeedKmph") ;;
  call (setWeather (Some {|
    WeatherInfo.city := normalized;
    WeatherInfo.condition := text classified;
    WeatherInfo.temperature := parseInt temp_C;
    WeatherInfo.feels := parseInt FeelsLikeC;
    WeatherInfo.humidity := parseInt humidity;
    WeatherInfo.wind := kmh_of_value windspeedKmph;
    WeatherInfo.air := "实时";
    WeatherInfo.icon := icon classified |})) ;;;
  call (setWeatherStatus ready) ;;;
  ret true.

(** The handler of the outer [try] also writes the exception to the
    console, which no part of the window reads. *)
Definition fetchWeather (targetCity : string) : M bool :=
  let normalized := normalizeCityName targetCity in
  if negb (Js.truthy normalized) then
    call (setWeatherStatus error) ;;; ret false
  else
    try_catch
      (call (setWeatherStatus loading) ;;;
       try_catch (primaryPath normalized) (fun _ => secondaryPath normalized))
      (fun e => call (setWeatherStatus error) ;;; ret false).

(** ** [locateWeather] *)

Definition ipEndpoints : list string :=
  ["https://ipwho.is/"; "https://ipapi.co/json/"; "https://geolocation-db.com/json/"].

(** The body of the loop for one endpoint. It answers [true] where the
    source returns from the function and [false] where the loop goes on
    (the end of the body, or [continue] in the handler). *)
Definition tryEndpoint (endpoint : string) : M bool :=
  try_catch
    (do data <- fetchJson (Endpoint endpoint) 3000 ;;
     do data_city <- lift (get (Some data) "city") ;;
     if truthy data_city then
       do cityName <- lift (on_string normalizeCityName data_city) ;;
       do ok <- fetchWeather cityName ;;
       if ok then
         call (setCity cityName) ;;; call (setCityMode auto) ;;; ret true
       else ret false
     else ret false)
    (fun _ => ret false).

Fixpoint locateLoop (endpoints : list string) : M unit :=
  match endpoints with
  | [] => ret tt
  | endpoint :: rest =>
      do returned <- tryEndpoint endpoint ;;
      if returned then ret tt else locateLoop rest
  end.

Definition locateWeather : M unit :=
  call (setIsLocating true) ;;;
  try_finally (locateLoop ipEndpoints) (call (setIsLocating false)).

(** ** The operations on the collections and the city *)

Definition addTodo : M unit :=
  fun w =>
    let todoForm := todoForm (hooks w) in
    if negb (Js.truthy (TodoForm.title todoForm)) || negb (Js.truthy (TodoForm.time todoForm))
    then ret tt w
    else
      (call (setTodos (fun prev wd =>
         let '(id, wd') := createId wd in
         (prev ++ [{| TodoItem.id := id;
                      TodoItem.title := TodoForm.title todoForm;
                      TodoItem.time := TodoForm.time todoForm;
                      TodoItem.priority := TodoForm.priority todoForm;
                      TodoItem.done := false |}], wd')%list)) ;;;
       call (setTodoForm (fun _ =>
         {| TodoForm.title := ""; TodoForm.time := "";
            TodoForm.priority := TodoForm.priority todoForm |})) ;;;
       if desktopMode w then call (setActivePanel None) else ret tt) w.

Definition toggle (id : string) (item : TodoItem.t) : TodoItem.t :=
  if String.eqb (TodoItem.id item) id
  then {| TodoItem.id := TodoItem.id item; TodoItem.title := TodoItem.title item;
          TodoItem.time := TodoItem.time item; TodoItem.priority := TodoItem.priority item;
          TodoItem.done := negb (TodoItem.done item) |}
  else item.

Definition toggleTodo (id : string) : M unit :=
  call (setTodos (fun prev wd => (map (toggle id) prev, wd))).

Definition deleteTodo (id : string) : M unit :=
  call (setTodos (fun prev wd =>
    (List.filter (fun item => negb (String.eqb (TodoItem.id item) id)) prev, wd))).

Definition addAgenda : M unit :=
  fun w =>
    let agendaForm := agendaForm (hooks w) in
    if negb (Js.truthy (AgendaForm.title agendaForm))
       || negb (Js.truthy (AgendaForm.time agendaForm))
    then ret tt w
    else
      (call (setAgenda (fun prev wd =>
         let '(id, wd') := createId wd in
         (prev ++ [{| AgendaItem.id := id;
                      AgendaItem.title := AgendaForm.title agendaForm;
                      AgendaItem.time := AgendaForm.time agendaForm;
                      AgendaItem.location :=
                        Js.or_else (AgendaForm.location agendaForm) "待定" |}], wd')%list)) ;;;
       call (setAgendaForm (fun _ =>
         {| AgendaForm.title := ""; AgendaForm.time := ""; AgendaForm.location := "" |})) ;;;
       if desktopMode w then call (setActivePanel None) else ret tt) w.

Definition deleteAgenda (id : string) : M unit :=
  call (setAgenda (fun prev wd =>
    (List.filter (fun item => negb (String.eqb (AgendaItem.id item) id)) prev, wd))).

(** The inputs of the two forms. *)
Inductive TodoField : Type := todo_title | todo_time | todo_priority.
Inductive AgendaField : Type := agenda_title | agenda_time | agenda_location.

Definition changeTodoForm (field : TodoField) (v : string) : M unit :=
  call (setTodoForm (fun prev =>
    match field with
    | todo_title =>
        {| TodoForm.title := v; TodoForm.time := TodoForm.time prev;
           TodoForm.priority := TodoForm.priority prev |}
    | todo_time =>
        {| TodoForm.title := TodoForm.title prev; TodoForm.time := v;
           TodoForm.priority := TodoForm.priority prev |}
    | todo_priority =>
        {| TodoForm.title := TodoForm.title prev; TodoForm.time := TodoForm.time prev;
           TodoForm.priority := v |}
    end)).

Definition changeAgendaForm (field : AgendaField) (v : string) : M unit :=
  call (setAgendaForm (fun prev =>
    match field with
    | agenda_title =>
        {| AgendaForm.title := v; AgendaForm.time := AgendaForm.time prev;
           AgendaForm.location := AgendaForm.location prev |}
    | agenda_time =>
        {| AgendaForm.title := AgendaForm.title prev; AgendaForm.time := v;
           AgendaForm.location := AgendaForm.location prev |}
    | agenda_location =>
        {| AgendaForm.title := AgendaForm.title prev; AgendaForm.time := AgendaForm.time prev;
           AgendaForm.location := v |}
    end)).

(** The city editor: [onBlur] with the content of the input, and
    [onKeyDown] with the key and the content. *)
Definition cityInput_onBlur (input : string) : M unit :=
  fun w =>
    (call (setCity (Js.or_else (Js.trim input) (city (hooks w)))) ;;;
     call (setCityMode manual) ;;;
     call (setIsEditingCity false)) w.

Definition cityInput_onKeyDown (key input : string) : M unit :=
  fun w =>
    if String.eqb key "Enter" then
      (call (setCity (Js.or_else (Js.trim input) (city (hooks w)))) ;;;
       call (setCityMode manual) ;;;
       call (setIsEditingCity false)) w
    else ret tt w.

(** An event of the user on the lists, the forms and the city editor. *)
Inductive Op : Type :=
| op_changeTodoForm (field : TodoField) (v : string)
| op_addTodo
| op_toggleTodo (id : string)
| op_deleteTodo (id : string)
| op_changeAgendaForm (field : AgendaField) (v : string)
| op_addAgenda
| op_deleteAgenda (id : string)
| op_cityBlur (input : string)
| op_cityKeyDown (key input : string).

Definition handler (op : Op) : M unit :=
  match op with
  | op_changeTodoForm field v => changeTodoForm field v
  | op_addTodo => addTodo
  | op_toggleTodo id => toggleTodo id
  | op_deleteTodo id => deleteTodo id
  | op_changeAgendaForm field v => changeAgendaForm field v
  | op_addAgenda => addAgenda
  | op_deleteAgenda id => deleteAgenda id
  | op_cityBlur input => cityInput_onBlur input
  | op_cityKeyDown key input => cityInput_onKeyDown key input
  end.

(** The window when the handler of the event has returned. *)
Definition handled (op : Op) (w : Window) : Window := snd (handler op w).

(** An event, then the render it causes with its effects. *)
Definition step (w : Window) (op : Op) : Window := commit (handled op w).

Definition run (ops : list Op) (w : Window) : Window := fold_left step ops w.

(** ** Launch parameters *)

Module URLSearchParams.

Fixpoint split (sep : ascii) (s : string) : list string :=
  match s with
  | EmptyString => [EmptyString]
  | String c r =>
      if Ascii.eqb c sep then EmptyString :: split sep r
      else match split sep r with
           | p :: ps => String c p :: ps
           | [] => [String c EmptyString]
           end
  end.

(** The part before the first [=] and the part after it. *)
Fixpoint name_value (s : string) : string * string :=
  match s with
  | EmptyString => (EmptyString, EmptyString)
  | String c r =>
      if Ascii.eqb c "=" then (EmptyString, r)
      else let '(n, v) := name_value r in (String c n, v)
  end.

(** [+] is a space, and [%XY] the byte it spells. *)
Fixpoint decode (s : string) : string :=
  match s with
  | EmptyString => EmptyString
  | String c r =>
      if Ascii.eqb c "+" then String " " (decode r)
      else if Ascii.eqb c "%" then
        match r with
        | String x (String y r') =>
            match Json.hex x, Json.hex y with
            | Some a, Some b => String (Js.byte (a * 16 + b)) (decode r')
            | _, _ => String c (decode r)
            end
        | _ => String c (decode r)
        end
      else String c (decode r)
  end.

Definition parse (search : string) : list (string * string) :=
  let body := match search with String "?"%char r => r | _ => search end in
  map (fun piece => let '(n, v) := name_value piece in (decode n, decode v))
      (List.filter Js.truthy (split "&" body)).

(** The value of the first pair of that name, or [null]. *)
Fixpoint get (params : list (string * string)) (name : string) : option string :=
  match params with
  | [] => None
  | (n, v) :: r => if String.eqb n name then Some v else get r name
  end.

End URLSearchParams.

(** [desktopMode] and [moduleView] as [App] reads them from
    [window.location.search]. The cast of [moduleView] checks nothing:
    the value is the parameter as it stands. *)
Definition read_desktopMode (search : string) : bool :=
  match URLSearchParams.get (URLSearchParams.parse search) "desktop" with
  | Some v => String.eqb v "1"
  | None => false
  end.

Definition read_moduleView (search : string) : option string :=
  URLSearchParams.get (URLSearchParams.parse search) "module".

(** ** What a window renders *)

Inductive Card : Type := timeCard | weatherCard | summaryCard | todoCard | agendaCard.

(** Under the hero: the desktop peek with its dock and, when a panel is
    open, the overlay holding one card; or the grid of the two lists;
    or nothing. *)
Inductive Below : Type :=
| desktopPeek (overlay : option Card)
| grid (cards : list Card)
| nothing.

Inductive Layout : Type :=
| main_only (cards : list Card)
| hero_then (hero : list Card) (below : Below).

(** The composition, and whether the cards carry the button that
    closes the window. *)
Record View : Type := { layout : Layout; closeButton : bool }.

Definition module_is (moduleView : option string) (name : string) : bool :=
  match moduleView with
  | Some s => String.eqb s name
  | None => false
  end.

(** [moduleView] as a condition: [null] and the empty string are falsy. *)
Definition module_truthy (moduleView : option string) : bool :=
  match moduleView with
  | Some s => Js.truthy s
  | None => false
  end.

Definition render_view (desktop : bool) (moduleView : option string)
    (panel : option Panel) : View :=
  {| closeButton := module_truthy moduleView;
     layout :=
       if module_is moduleView "todo" then main_only [todoCard]
       else if module_is moduleView "agenda" then main_only [agendaCard]
       else
         hero_then
           (if module_is moduleView "time" then [timeCard]
            else if module_is moduleView "weather" then [weatherCard]
            else [timeCard; weatherCard; summaryCard])
           (if desktop && negb (module_truthy moduleView) then
              desktopPeek
                (match panel with
                 | None => None
                 | Some panel_todo => Some todoCard
                 | Some panel_agenda => Some agendaCard
                 end)
            else if negb desktop && negb (module_truthy moduleView) then
              grid [todoCard; agendaCard]
            else nothing) |}.

Definition render (w : Window) : View :=
  render_view (desktopMode w) (moduleView w) (activePanel (hooks w)).

(** The view of a window launched at [search], before any event. *)
Definition launch_view (search : string) : View :=
  render_view (read_desktopMode search) (read_moduleView search) None.

(** ** Definitions of the statements *)

Definition partly_cloudy : Mapped := {| text := "多云"; icon := "⛅️" |}.
Definition clear_sky : Mapped := {| text := "晴"; icon := "☀️" |}.
Definition rain : Mapped := {| text := "雨"; icon := "🌧️" |}.
Definition thunderstorm : Mapped := {| text := "雷暴"; icon := "⛈️" |}.
Definition mostly_clear : Mapped := {| text := "大部晴朗"; icon := "🌤️" |}.
Definition drizzle : Mapped := {| text := "毛毛雨"; icon := "🌦️" |}.
Definition showers : Mapped := {| text := "阵雨"; icon := "🌦️" |}.
Definition snow_showers : Mapped := {| text := "阵雪"; icon := "🌨️" |}.

(** The integer codes that none of the listed rules covers. *)
Definition outside_rules (z : Z) : Prop :=
  z < 0 \/ 4 <= z <= 44 \/ 46 <= z <= 47 \/ 49 <= z <= 50 \/ 58 <= z <= 60
  \/ 68 <= z <= 70 \/ 78 <= z <= 79 \/ 83 <= z <= 84 \/ 87 <= z <= 94.

Definition full_dashboard (desktop : bool) (panel : option Panel) : View :=
  render_view desktop None panel.

Definition is_open (c : ascii) : bool := Ascii.eqb c "{" || Ascii.eqb c "[".
Definition is_close (c : ascii) : bool := Ascii.eqb c "}" || Ascii.eqb c "]".

(** The span, in the words of the contract: from the earliest opening
    bracket to the latest closing bracket at or after it. *)
Fixpoint from_first_open (s : string) : option string :=
  match s with
  | EmptyString => None
  | String c r => if is_open c then Some s else from_first_open r
  end.

Fixpoint through_last_close (s : string) : option string :=
  match s with
  | EmptyString => None
  | String c r =>
      match through_last_close r with
      | Some p => Some (String c p)
      | None => if is_close c then Some (String c EmptyString) else None
      end
  end.

Definition bracket_span (s : string) : option string :=
  match from_first_open s with
  | Some suffix => through_last_close suffix
  | None => None
  end.

Fixpoint has_bracket (s : string) : bool :=
  match s with
  | EmptyString => false
  | String c r => is_open c || is_close c || has_bracket r
  end.

Fixpoint first_pos (c : ascii) (s : string) : option nat :=
  match s with
  | EmptyString => None
  | String a r => if Ascii.eqb a c then Some O else option_map S (first_pos c r)
  end.

Fixpoint last_pos (c : ascii) (s : string) : option nat :=
  match s with
  | EmptyString => None
  | String a r =>
      match last_pos c r with
      | Some k => Some (S k)
      | None => if Ascii.eqb a c then Some O else None
      end
  end.

Definition index_of_pos (o : option nat) : Z :=
  match o with Some k => Z.of_nat k | None => -1 end.

(** The candidates that are an index, least first or greatest first. *)
Definition least_index (a b : Z) : Z :=
  let candidates := List.filter nonneg [a; b] in
  match candidates with [] => -1 | _ => Js.Math_min candidates end.

Definition greatest_index (a b : Z) : Z :=
  let candidates := List.filter nonneg [a; b] in
  match candidates with [] => -1 | _ => Js.Math_max candidates end.

(** What the lenient decoder answers when the strict parse of the
    trimmed input fails. *)
Definition second_attempt (text : string) : result json :=
  match bracket_span text with
  | Some span => JSON_parse span
  | None => Throw (Error "invalid json")
  end.

Definition example_wrapped : string :=
  "garbage{" ++ Js.dq ++ "a" ++ Js.dq ++ ":1}trailing".

(** The item that a form gives under an identifier, and the updater
    that appends it under the identifier [createId] makes. *)
Definition todo_of_form (form : TodoForm.t) (id : string) : TodoItem.t :=
  {| TodoItem.id := id; TodoItem.title := TodoForm.title form;
     TodoItem.time := TodoForm.time form; TodoItem.priority := TodoForm.priority form;
     TodoItem.done := false |}.

Definition agenda_of_form (form : AgendaForm.t) (id : string) : AgendaItem.t :=
  {| AgendaItem.id := id; AgendaItem.title := AgendaForm.title form;
     AgendaItem.time := AgendaForm.time form;
     AgendaItem.location := Js.or_else (AgendaForm.location form) "待定" |}.

Definition append_todo (form : TodoForm.t)
  : list TodoItem.t -> World -> list TodoItem.t * World :=
  fun prev wd => let '(id, wd') := createId wd in ((prev ++ [todo_of_form form id])%list, wd').

Definition append_agenda (form : AgendaForm.t)
  : list AgendaItem.t -> World -> list AgendaItem.t * World :=
  fun prev wd => let '(id, wd') := createId wd in ((prev ++ [agenda_of_form form id])%list, wd').

(** In desktop mode an add also closes the open panel. *)
Definition closing_panel (w : Window) : list Action :=
  if desktopMode w then [setActivePanel None] else [].

(** Each of the four keys holds the serialization of the state. *)
Definition persisted_as (h : Hooks) (st : gmap string string) : Prop :=
  st !! storageKeys.todos = Some (Stringify.todos (todos h))
  /\ st !! storageKeys.agenda = Some (Stringify.agenda (agenda h))
  /\ st !! storageKeys.city = Some (Stringify.str (city h))
  /\ st !! storageKeys.cityMode = Some (Stringify.cityMode (cityMode h)).

Definition persisted (w : Window) : Prop := persisted_as (hooks w) (localStorage w).

Definition todo_ids (h : Hooks) : list string := map TodoItem.id (todos h).
Definition agenda_ids (h : Hooks) : list string := map AgendaItem.id (agenda h).

(** The updaters that the handlers queue. *)
Inductive from_handler : Action -> Prop :=
| append_todo_from_handler form : from_handler (setTodos (append_todo form))
| toggle_from_handler id :
    from_handler (setTodos (fun prev wd => (map (toggle id) prev, wd)))
| delete_todo_from_handler id :
    from_handler (setTodos (fun prev wd =>
      (List.filter (fun item => negb (String.eqb (TodoItem.id item) id)) prev, wd)))
| append_agenda_from_handler form : from_handler (setAgenda (append_agenda form))
| delete_agenda_from_handler id :
    from_handler (setAgenda (fun prev wd =>
      (List.filter (fun item => negb (String.eqb (AgendaItem.id item) id)) prev, wd)))
| other_from_handler a :
    is_setTodos a = false -> is_setAgenda a = false -> from_handler a.

(** Every identifier in a collection was made by [createId], and the
    identifiers of a collection are distinct as far as those made are. *)
Definition ids_invariant (s : Hooks * World) : Prop :=
  (forall x, In x (todo_ids (fst s)) -> In x (created (snd s)))
  /\ (forall x, In x (agenda_ids (fst s)) -> In x (created (snd s)))
  /\ (List.NoDup (created (snd s)) ->
      List.NoDup (todo_ids (fst s)) /\ List.NoDup (agenda_ids (fst s))).

(** The invariant of a window: what is queued comes from the handlers,
    and the state of the last render satisfies [ids_invariant]. *)
Definition ids_window (w : Window) : Prop :=
  Forall from_handler (queue w) /\ ids_invariant (hooks w, world w).

(** The identifier that [createId] makes at its [k]-th call in a
    window: what [crypto.randomUUID] returns there, or, on a platform
    without it, the clock in milliseconds written in decimal. *)
Definition id_at (wd : World) (k : nat) : string :=
  match randomUUID wd with
  | Some uuid => uuid k
  | None => Js.Z_to_string (Date_now wd k)
  end.

(** The platform never repeats itself: [crypto.randomUUID] returns a
    new value at each call, or, without it, no two identifiers are made
    within the same millisecond. *)
Definition never_repeats (wd : World) : Prop :=
  match randomUUID wd with
  | Some uuid => forall i j : nat, uuid i = uuid j -> i = j
  | None => forall i j : nat, Date_now wd i = Date_now wd j -> i = j
  end.

(** The identifiers made so far are those of the calls made so far. *)
Definition generated (wd : World) : Prop :=
  created wd = map (id_at wd) (seq 0 (length (created wd))).

(** A window whose identifiers all come from [createId]. *)
Definition issued (w : Window) : Prop := ids_window w /\ generated (world w).

(** A computation that leaves the store alone. *)
Definition storage_kept {A} (m : M A) : Prop :=
  forall w, localStorage (snd (m w)) = localStorage w.

(** The endpoints among the requests of a log, in order. *)
Fixpoint endpoint_requests (log : list (Url * Z)) : list string :=
  match log with
  | [] => []
  | (Endpoint url, _) :: r => url :: endpoint_requests r
  | _ :: r => endpoint_requests r
  end.

(** One request was made, and nothing else of the window changed. *)
Definition after_request (url : Url) (timeoutMs : Z) (w w' : Window) : Prop :=
  hooks w' = hooks w /\ queue w' = queue w
  /\ requests (world w') = (requests (world w) ++ [(url, timeoutMs)])%list.

(** The setter calls that leave the city and its mode alone. *)
Definition keeps_city (a : Action) : bool :=
  match a with
  | setCity _ | setCityMode _ | setTodos _ | setAgenda _ => false
  | _ => true
  end.

(** An endpoint gives a city for which the weather resolves. *)
Definition endpoint_succeeds (endpoint : string) (w : Window) : Prop :=
  exists data wj s,
    fetchJson (Endpoint endpoint) 3000 w = (Ok data, wj)
    /\ get (Some data) "city" = Ok (Some (JString s))
    /\ s <> ""
    /\ fst (fetchWeather (normalizeCityName s) wj) = Ok true.

(** An endpoint gives the city [s], and the weather of that city
    resolves. *)
Definition endpoint_gives (endpoint : string) (w : Window) (s : string) : Prop :=
  exists data wj,
    fetchJson (Endpoint endpoint) 3000 w = (Ok data, wj)
    /\ get (Some data) "city" = Ok (Some (JString s))
    /\ s <> ""
    /\ fst (fetchWeather (normalizeCityName s) wj) = Ok true.

(** What the loop over the endpoints comes to, from the window it
    starts in: the endpoints asked, in order, and the city committed, if
    any. The first endpoint that succeeds ends the loop with its city;
    an endpoint that does not succeed, whatever failed, is passed over
    and the next one is asked in the window that the attempt left. *)
Inductive locates : list string -> Window -> list string -> option string -> Prop :=
| locates_nothing w : locates [] w [] None
| locates_here endpoint rest w s :
    endpoint_gives endpoint w s ->
    locates (endpoint :: rest) w [endpoint] (Some (normalizeCityName s))
| locates_later endpoint rest w tried r :
    ~ endpoint_succeeds endpoint w ->
    locates rest (snd (tryEndpoint endpoint w)) tried r ->
    locates (endpoint :: rest) w (endpoint :: tried) r.

(** A platform without [crypto.randomUUID] whose clock advances by one
    millisecond from one identifier to the next, and one whose clock
    stands still. *)
Definition ticking (responses : list Response) : World :=
  {| incoming := responses; requests := []; randomUUID := None;
     Date_now := fun k => Z.of_nat k + 1700000000000; created := [] |}.

Definition frozen_clock : World :=
  {| incoming := []; requests := []; randomUUID := None;
     Date_now := fun _ => 1700000000000; created := [] |}.

(** The first launch of the full dashboard in a browser tab. *)
Definition first_window (wd : World) : Window := mount false None first_hooks ∅ wd.

Definition milk : list Op :=
  [op_changeTodoForm todo_title "Buy milk"; op_changeTodoForm todo_time "13:00";
   op_changeTodoForm todo_priority "高"].

Definition standup : list Op :=
  [op_changeAgendaForm agenda_title "Standup"; op_changeAgendaForm agenda_time "09:00"].

Definition milk_item (id : string) : TodoItem.t :=
  {| TodoItem.id := id; TodoItem.title := "Buy milk"; TodoItem.time := "13:00";
     TodoItem.priority := "高"; TodoItem.done := false |}.

Definition busy_day : list Op :=
  (milk ++ [op_addTodo] ++ milk ++ [op_addTodo] ++ standup ++ [op_addAgenda]
   ++ [op_toggleTodo "1700000000000"; op_deleteTodo "1700000000001";
       op_cityBlur " Ningbo "])%list.

(** The bodies of a scenario: the first endpoint names a city whose
    weather cannot be resolved, the second one a city whose weather
    the primary path resolves. *)
Definition quoted (s : string) : string := Js.dq ++ s ++ Js.dq.

Definition city_body (name : string) : string :=
  "{" ++ quoted "city" ++ ":" ++ quoted name ++ "}".

Definition geocoding_body : string :=
  "{" ++ quoted "results" ++ ":[{" ++ quoted "name" ++ ":" ++ quoted "杭州" ++ ","
  ++ quoted "latitude" ++ ":30.29," ++ quoted "longitude" ++ ":120.16}]}".

Definition forecast_body : string :=
  "{" ++ quoted "current" ++ ":{" ++ quoted "temperature_2m" ++ ":21.4,"
  ++ quoted "apparent_temperature" ++ ":20.9," ++ quoted "relative_humidity_2m" ++ ":55,"
  ++ quoted "wind_speed_10m" ++ ":7.2," ++ quoted "weather_code" ++ ":61}}".

Definition second_endpoint_answers : World :=
  ticking [Http 200 (city_body "Ningbo"); NoResponse; NoResponse;
           Http 200 (city_body "Hangzhou"); Http 200 geocoding_body;
           Http 200 forecast_body].

(** ** The rest of the component *)

(** [loadStorage]: the stored text parsed, or the fallback when the key
    is absent, the text is empty, or [JSON.parse] throws. The cast of
    the result checks nothing, so the value is the parsed one. *)
Definition loadStorage (st : gmap string string) (key : string) (fallback : json) : json :=
  match st !! key with
  | None => fallback
  | Some raw =>
      if negb (Js.truthy raw) then fallback
      else match JSON_parse raw with
           | Ok v => v
           | Throw _ => fallback
           end
  end.

(** The values of the state as [JSON.parse] gives them back. *)
Definition todo_json (item : TodoItem.t) : json :=
  JObject [("id", JString (TodoItem.id item));
           ("title", JString (TodoItem.title item));
           ("time", JString (TodoItem.time item));
           ("priority", JString (TodoItem.priority item));
           ("done", JBool (TodoItem.done item))].

Definition agenda_json (item : AgendaItem.t) : json :=
  JObject [("id", JString (AgendaItem.id item));
           ("title", JString (AgendaItem.title item));
           ("time", JString (AgendaItem.time item));
           ("location", JString (AgendaItem.location item))].

Definition cityMode_json (m : CityMode) : json :=
  JString (match m with auto => "auto" | manual => "manual" end).

(** [todos.filter((item) => item.done).length] *)
Definition todoDone (l : list TodoItem.t) : nat :=
  length (List.filter TodoItem.done l).

(** [l.slice(from, to)] on an array, with the clamping of the indices
    that strings have. *)
Definition Array_slice {A} (l : list A) (from : Z) (to : option Z) : list A :=
  let len := Z.of_nat (length l) in
  let a := Js.clamp_index len from in
  let b := match to with Some t => Js.clamp_index len t | None => len end in
  firstn (Z.to_nat (b - a)) (skipn (Z.to_nat a) l).

(** The rows of a desktop peek:
    [l.length ? [...l].slice(-2).reverse() : []]. *)
Definition peek {A} (l : list A) : list A :=
  match l with
  | [] => []
  | _ => List.rev (Array_slice l (-2) None)
  end.

(** The effect on [city] and [cityMode]: it starts [fetchWeather] for
    the city, and [locateWeather] when the mode is [auto] and the
    reference [autoLocateOnceRef] is not set, which it then sets. It
    awaits neither. *)
Inductive Task : Type :=
| start_fetchWeather (city : string)
| start_locateWeather.

Definition weatherEffect (city : string) (cityMode : CityMode)
    (autoLocateOnceRef : bool) : list Task * bool :=
  match cityMode with
  | manual => ([start_fetchWeather city], autoLocateOnceRef)
  | auto =>
      if autoLocateOnceRef then ([start_fetchWeather city], autoLocateOnceRef)
      else ([start_fetchWeather city; start_locateWeather], true)
  end.

(** The tasks started over the life of a window: the effect runs after
    the first render and after each render in which the city or the
    mode is not the one of the render before. *)
Fixpoint weatherEffects (previous : string * CityMode) (ref : bool)
    (renders : list (string * CityMode)) : list Task :=
  match renders with
  | [] => []
  | (c, m) :: rest =>
      if String.eqb (fst previous) c && CityMode_eqb (snd previous) m
      then weatherEffects previous ref rest
      else let '(tasks, ref') := weatherEffect c m ref in
           (tasks ++ weatherEffects (c, m) ref' rest)%list
  end.

Definition window_tasks (first : string * CityMode)
    (renders : list (string * CityMode)) : list Task :=
  let '(tasks, ref) := weatherEffect (fst first) (snd first) false in
  (tasks ++ weatherEffects first ref renders)%list.

Definition is_locate (t : Task) : bool :=
  match t with start_locateWeather => true | start_fetchWeather _ => false end.

(** The setter calls that leave the city, its mode and the weather
    alone, and those that leave the lists and the forms alone. *)
Definition keeps_weather (a : Action) : bool :=
  match a with
  | setCity _ | setCityMode _ | setWeather _ | setWeatherStatus _ => false
  | _ => true
  end.

Definition keeps_lists (a : Action) : bool :=
  match a with
  | setTodos _ | setAgenda _ | setTodoForm _ | setAgendaForm _ => false
  | _ => true
  end.

Definition is_city_op (op : Op) : bool :=
  match op with
  | op_cityBlur _ | op_cityKeyDown _ _ => true
  | _ => false
  end.

Definition is_auto (render : string * CityMode) : bool :=
  match snd render with auto => true | manual => false end.

(** The keywords of the text report that stand for rain. *)
Definition mentions_rain (desc : string) : bool :=
  Js.includes desc "rain" || Js.includes desc "drizzle" || Js.includes desc "shower".

Definition snow : Mapped := {| text := "雪"; icon := "🌨️" |}.
Definition fog : Mapped := {| text := "雾"; icon := "🌫️" |}.
Definition overcast : Mapped := {| text := "阴"; icon := "☁️" |}.

(** What a character of a string becomes in the text that
    [JSON.stringify] writes, as the parser reads it back: the code unit
    of a [\u] escape for a control character that has no short escape,
    and the character itself otherwise. *)
Definition unit_of (c : ascii) : Json.unit_ :=
  let n := Js.code c in
  if ((n <? 32) && negb ((n =? 8) || (n =? 9) || (n =? 10) || (n =? 12) || (n =? 13)))%N
  then Json.Esc n else Json.Raw c.

(** A member of a flat object: a string or a boolean. *)
Inductive Field : Type :=
| field_string (s : string)
| field_bool (b : bool).

Definition field_text (f : Field) : string :=
  match f with
  | field_string s => Stringify.str s
  | field_bool b => Stringify.bool b
  end.

Definition field_json (f : Field) : json :=
  match f with
  | field_string s => JString s
  | field_bool b => JBool b
  end.

Definition members_text (fields : list (string * Field)) : string :=
  String.concat "," (map (fun kf => Stringify.member (fst kf) (field_text (snd kf))) fields).

Definition members_json (fields : list (string * Field)) : list (string * json) :=
  map (fun kf => (fst kf, field_json (snd kf))) fields.

(** The fallbacks of the four keys, as values. *)
Definition no_items : json := JArray [].

Definition todo_fields (item : TodoItem.t) : list (string * Field) :=
  [("id", field_string (TodoItem.id item));
   ("title", field_string (TodoItem.title item));
   ("time", field_string (TodoItem.time item));
   ("priority", field_string (TodoItem.priority item));
   ("done", field_bool (TodoItem.done item))].

Definition agenda_fields (item : AgendaItem.t) : list (string * Field) :=
  [("id", field_string (AgendaItem.id item));
   ("title", field_string (AgendaItem.title item));
   ("time", field_string (AgendaItem.time item));
   ("location", field_string (AgendaItem.location item))].

Definition flat_object (fields : list (string * Field)) : string :=
  Stringify.object
    (map (fun kf => Stringify.member (fst kf) (field_text (snd kf))) fields).

(** ** [openModuleWindow] *)

Module URL.

(** The bytes that the serializer of a query leaves as they are: the
    letters and digits of ASCII and [*], [-], [.], [_]. *)
Definition unreserved (c : ascii) : bool :=
  let n := Js.code c in
  (((48 <=? n) && (n <=? 57)) || ((65 <=? n) && (n <=? 90)) || ((97 <=? n) && (n <=? 122))
   || (n =? 42) || (n =? 45) || (n =? 46) || (n =? 95))%N.

Definition upper_hex (n : N) : ascii :=
  (if n <? 10 then Js.byte (48 + n) else Js.byte (55 + n))%N.

(** A space is written [+], any other byte outside the set [%XY]. *)
Definition encode_char (c : ascii) : string :=
  let n := Js.code c in
  if unreserved c then String c EmptyString
  else if (n =? 32)%N then "+"
  else String "%" (String (upper_hex (n / 16)) (String (upper_hex (n mod 16)) EmptyString)).

Fixpoint encode (s : string) : string :=
  match s with
  | String c r => encode_char c ++ encode r
  | EmptyString => EmptyString
  end.

Definition pair_text (p : string * string) : string :=
  encode (fst p) ++ "=" ++ encode (snd p).

(** The query that a list of pairs is written as. *)
Definition toString (params : list (string * string)) : string :=
  String.concat "&" (map pair_text params).

(** [searchParams.set(name, value)]: the first pair of that name takes
    the value and the later ones are removed; with no such pair, one is
    appended. *)
Fixpoint set (params : list (string * string)) (name value : string)
    : list (string * string) :=
  match params with
  | [] => [(name, value)]
  | (n, v) :: r =>
      if String.eqb n name
      then (n, value) :: List.filter (fun p => negb (String.eqb (fst p) name)) r
      else (n, v) :: set r name value
  end.

(** [location.search] of a URL with that query: empty for an empty
    query, and the query after a [?] otherwise. *)
Definition search (params : list (string * string)) : string :=
  match toString params with
  | EmptyString => EmptyString
  | q => String "?" q
  end.

End URL.

(** The [location.search] of the window that [openModuleWindow] opens
    from a window at [search]: the parameters of the present address
    with [desktop] set to [1] and [module] to the module. *)
Definition openModuleWindow (search : string) (module : string) : string :=
  let searchParams := URLSearchParams.parse search in
  let searchParams := URL.set searchParams "desktop" "1" in
  let searchParams := URL.set searchParams "module" module in
  URL.search searchParams.

Definition single_card (card : Card) : View :=
  {| layout := hero_then [card] nothing; closeButton := true |}.

Definition single_list (card : Card) : View :=
  {| layout := main_only [card]; closeButton := true |}.

(** The setter calls of a [fetchWeather] that fails. *)
Definition is_status (a : Action) : bool :=
  match a with setWeatherStatus _ => true | _ => false end.

(** The setter calls of the endpoint at which [locateWeather] stops:
    those of the [fetchWeather] that succeeded, then the city and its
    mode. *)
Definition located (info : WeatherInfo.t) (cityName : string) : list Action :=
  [setWeatherStatus loading; setWeather (Some info); setWeatherStatus ready;
   setCity cityName; setCityMode auto].

(** A bracket of either kind, and a string that holds none. *)
Definition bracket (c : ascii) : bool := is_open c || is_close c.

Definition plain (s : string) : Prop :=
  Forall (fun c => bracket c = false) (list_ascii_of_string s).

(** A payload in the wrapper of a script. *)
Definition wrapped_payload : string :=
  "{" ++ Js.dq ++ "city" ++ Js.dq ++ ":" ++ Js.dq ++ "Ningbo" ++ Js.dq ++ "}".

(** One for an item that is done, for the counts of the summary. *)
Definition done_count (item : TodoItem.t) : nat :=
  if TodoItem.done item then 1%nat else 0%nat.

(** The first window after "Buy milk" was added. *)
Definition milk_window : Window := run (milk ++ [op_addTodo]) (first_window (ticking [])).

(** The four keys of the component. *)
Definition own_key (key : string) : bool :=
  String.eqb key storageKeys.todos || String.eqb key storageKeys.agenda
  || String.eqb key storageKeys.city || String.eqb key storageKeys.cityMode.

(** * Properties *)

(** ** The weather code mapping *)

Lemma compare_lit_int (z c : Z) : compare_lit z 0 c = (z ?= c).
Proof. unfold compare_lit. simpl. now rewrite Z.mul_1_r. Qed.

Lemma eq_lit_int (z c : Z) : eq_lit (int z) c = (z =? c).
Proof.
  unfold eq_lit, int. rewrite compare_lit_int, Z.eqb_compare. reflexivity.
Qed.

Lemma ge_lit_int (z c : Z) : ge_lit (int z) c = (c <=? z).
Proof.
  unfold ge_lit, int. rewrite compare_lit_int.
  destruct (Z.compare_spec z c), (Z.leb_spec c z); auto; lia.
Qed.

Lemma le_lit_int (z c : Z) : le_lit (int z) c = (z <=? c).
Proof.
  unfold le_lit, int. rewrite compare_lit_int.
  destruct (Z.compare_spec z c), (Z.leb_spec z c); auto; lia.
Qed.

Ltac by_rules :=
  unfold mapWmoToWeather;
  repeat rewrite eq_lit_int; repeat rewrite ge_lit_int; repeat rewrite le_lit_int;
  repeat match goal with
         | |- context [Z.eqb ?a ?b] => destruct (Z.eqb_spec a b); try lia
         | |- context [Z.leb ?a ?b] => destruct (Z.leb_spec a b); try lia
         end;
  simpl; try reflexivity; try lia.

(** C3, as the code has it: the mapping follows the rules of the list
    for every integer code. Code 0 is the clear classification, 1 mostly
    clear, 2 partly cloudy, 3 overcast, 45 and 48 fog, 51 to 57 drizzle,
    61 to 67 rain, 71 to 77 snow, 80 to 82 showers, 85 and 86 snow
    showers, and every code from 95 on thunderstorm, since that rule has
    no upper end: so 61 is rain and 999 is thunderstorm. An integer code
    that no rule covers is the default partly-cloudy classification, and
    every integer code is in exactly one of these cases. *)
Theorem mapWmoToWeather_rules (z : Z) :
  mapWmoToWeather (int 0) = clear_sky
  /\ mapWmoToWeather (int 61) = rain
  /\ mapWmoToWeather (int 999) = thunderstorm
  /\ (z = 0 -> mapWmoToWeather (int z) = clear_sky)
  /\ (z = 1 -> mapWmoToWeather (int z) = mostly_clear)
  /\ (z = 2 -> mapWmoToWeather (int z) = partly_cloudy)
  /\ (z = 3 -> mapWmoToWeather (int z) = overcast)
  /\ (z = 45 \/ z = 48 -> mapWmoToWeather (int z) = fog)
  /\ (51 <= z <= 57 -> mapWmoToWeather (int z) = drizzle)
  /\ (61 <= z <= 67 -> mapWmoToWeather (int z) = rain)
  /\ (71 <= z <= 77 -> mapWmoToWeather (int z) = snow)
  /\ (80 <= z <= 82 -> mapWmoToWeather (int z) = showers)
  /\ (85 <= z <= 86 -> mapWmoToWeather (int z) = snow_showers)
  /\ (95 <= z -> mapWmoToWeather (int z) = thunderstorm)
  /\ (outside_rules z -> mapWmoToWeather (int z) = partly_cloudy)
  /\ (z = 0 \/ z = 1 \/ z = 2 \/ z = 3 \/ (z = 45 \/ z = 48) \/ 51 <= z <= 57
      \/ 61 <= z <= 67 \/ 71 <= z <= 77 \/ 80 <= z <= 82 \/ 85 <= z <= 86
      \/ 95 <= z \/ outside_rules z).
Proof.
  split; [reflexivity|]. split; [reflexivity|]. split; [reflexivity|].
  split; [intros ->; reflexivity|]. split; [intros ->; reflexivity|].
  split; [intros ->; reflexivity|]. split; [intros ->; reflexivity|].
  split; [intros [-> | ->]; reflexivity|].
  split; [intros H; by_rules|]. split; [intros H; by_rules|].
  split; [intros H; by_rules|]. split; [intros H; by_rules|].
  split; [intros H; by_rules|]. split; [intros H; by_rules|].
  split; [intros H; unfold outside_rules in H; by_rules|].
  unfold outside_rules. lia.
Qed.

(** One code of each rule, and 90, which no rule covers. *)
Lemma mapWmoToWeather_rules_witness :
  mapWmoToWeather (int 1) = mostly_clear
  /\ mapWmoToWeather (int 3) = overcast
  /\ mapWmoToWeather (int 48) = fog
  /\ mapWmoToWeather (int 55) = drizzle
  /\ mapWmoToWeather (int 65) = rain
  /\ mapWmoToWeather (int 75) = snow
  /\ mapWmoToWeather (int 81) = showers
  /\ mapWmoToWeather (int 86) = snow_showers
  /\ mapWmoToWeather (int 999) = thunderstorm
  /\ mapWmoToWeather (int 90) = partly_cloudy.
Proof.
  assert (H : outside_rules 90) by (unfold outside_rules; lia).
  split; [apply (proj1 (proj2 (proj2 (proj2 (proj2 (mapWmoToWeather_rules 1))))));
          reflexivity|].
  destruct (mapWmoToWeather_rules 3) as (_ & _ & _ & _ & _ & _ & R & _).
  split; [apply R; reflexivity|]. clear R.
  destruct (mapWmoToWeather_rules 48) as (_ & _ & _ & _ & _ & _ & _ & R & _).
  split; [apply R; right; reflexivity|]. clear R.
  destruct (mapWmoToWeather_rules 55) as (_ & _ & _ & _ & _ & _ & _ & _ & R & _).
  split; [apply R; lia|]. clear R.
  destruct (mapWmoToWeather_rules 65) as (_ & _ & _ & _ & _ & _ & _ & _ & _ & R & _).
  split; [apply R; lia|]. clear R.
  destruct (mapWmoToWeather_rules 75)
    as (_ & _ & _ & _ & _ & _ & _ & _ & _ & _ & R & _).
  split; [apply R; lia|]. clear R.
  destruct (mapWmoToWeather_rules 81)
    as (_ & _ & _ & _ & _ & _ & _ & _ & _ & _ & _ & R & _).
  split; [apply R; lia|]. clear R.
  destruct (mapWmoToWeather_rules 86)
    as (_ & _ & _ & _ & _ & _ & _ & _ & _ & _ & _ & _ & R & _).
  split; [apply R; lia|]. clear R.
  destruct (mapWmoToWeather_rules 999)
    as (_ & _ & _ & _ & _ & _ & _ & _ & _ & _ & _ & _ & _ & R & _).
  split; [apply R; lia|]. clear R.
  destruct (mapWmoToWeather_rules 90)
    as (_ & _ & _ & _ & _ & _ & _ & _ & _ & _ & _ & _ & _ & _ & R & _).
  apply R. exact H.
Defined.

(** Code 999 is mapped to the thunderstorm classification, which is not
    the default one. *)
Lemma mapWmoToWeather_999_not_default :
  mapWmoToWeather (int 999) = thunderstorm /\ thunderstorm <> partly_cloudy.
Proof. split; [reflexivity | discriminate]. Qed.

(** ** The view of a window by its launch parameters *)

(** Without a [module] parameter, and with an empty one, the window
    shows the three hero cards and the two lists (as the grid, or as the
    desktop peek), and no button that closes the window. *)
Lemma render_no_module (desktop : bool) (panel : option Panel) :
  render_view desktop (Some "") panel = full_dashboard desktop panel
  /\ closeButton (full_dashboard desktop panel) = false
  /\ layout (full_dashboard false panel)
     = hero_then [timeCard; weatherCard; summaryCard] (grid [todoCard; agendaCard])
  /\ exists overlay,
       layout (full_dashboard true panel)
       = hero_then [timeCard; weatherCard; summaryCard] (desktopPeek overlay).
Proof. repeat split. eexists. reflexivity. Qed.

(** With one of the four names, the window shows the card of that
    module alone. *)
Lemma render_known_module (desktop : bool) (panel : option Panel) :
  layout (render_view desktop (Some "todo") panel) = main_only [todoCard]
  /\ layout (render_view desktop (Some "agenda") panel) = main_only [agendaCard]
  /\ layout (render_view desktop (Some "time") panel) = hero_then [timeCard] nothing
  /\ layout (render_view desktop (Some "weather") panel) = hero_then [weatherCard] nothing.
Proof. destruct desktop; repeat split. Qed.

(** With any other value that is not empty, the window shows the three
    hero cards with the closing button, and nothing under them. *)
Lemma render_unknown_module (desktop : bool) (panel : option Panel) (name : string) :
  name <> "" -> name <> "todo" -> name <> "agenda" -> name <> "time" ->
  name <> "weather" ->
  render_view desktop (Some name) panel
  = {| layout := hero_then [timeCard; weatherCard; summaryCard] nothing;
       closeButton := true |}.
Proof.
  intros H0 H1 H2 H3 H4. unfold render_view, module_is, module_truthy, Js.truthy.
  destruct (String.eqb_spec name ""); [contradiction|].
  destruct (String.eqb_spec name "todo"); [contradiction|].
  destruct (String.eqb_spec name "agenda"); [contradiction|].
  destruct (String.eqb_spec name "time"); [contradiction|].
  destruct (String.eqb_spec name "weather"); [contradiction|].
  destruct desktop; reflexivity.
Qed.

(** C1 at the launch address [?module=banana]: [moduleView] is the
    string as it stands, and the window shows the three hero cards with
    the closing button and neither the two lists nor the desktop peek,
    which is not what it shows without a [module] parameter. *)
Theorem module_banana_view :
  read_moduleView "?module=banana" = Some "banana"
  /\ launch_view "?module=banana"
     = {| layout := hero_then [timeCard; weatherCard; summaryCard] nothing;
          closeButton := true |}
  /\ launch_view "?desktop=1&module=banana"
     = {| layout := hero_then [timeCard; weatherCard; summaryCard] nothing;
          closeButton := true |}
  /\ launch_view "?module=banana" <> launch_view ""
  /\ launch_view "?desktop=1&module=banana" <> launch_view "?desktop=1".
Proof. vm_compute. repeat split; discriminate. Qed.

(** ** The lenient decoder *)

Lemma indexOf_from_pos (c : ascii) (s : string) (i : Z) :
  Js.indexOf_from c s i
  = match first_pos c s with Some k => i + Z.of_nat k | None => -1 end.
Proof.
  revert i. induction s as [|a r IH]; intros i; simpl; [reflexivity|].
  destruct (Ascii.eqb a c); simpl; [lia|].
  rewrite IH. destruct (first_pos c r); simpl; lia.
Qed.

Lemma indexOf_pos (c : ascii) (s : string) :
  Js.indexOf s c = index_of_pos (first_pos c s).
Proof.
  unfold Js.indexOf. rewrite indexOf_from_pos.
  destruct (first_pos c s); reflexivity.
Qed.

Lemma lastIndexOf_from_pos (c : ascii) (s : string) (i last : Z) :
  Js.lastIndexOf_from c s i last
  = match last_pos c s with Some k => i + Z.of_nat k | None => last end.
Proof.
  revert i last. induction s as [|a r IH]; intros i last; simpl; [reflexivity|].
  rewrite IH. destruct (last_pos c r); [lia|].
  destruct (Ascii.eqb a c); simpl; lia.
Qed.

Lemma lastIndexOf_pos (c : ascii) (s : string) :
  Js.lastIndexOf s c = index_of_pos (last_pos c s).
Proof.
  unfold Js.lastIndexOf. rewrite lastIndexOf_from_pos.
  destruct (last_pos c s); reflexivity.
Qed.

Lemma substring_all (s : string) : String.substring 0 (String.length s) s = s.
Proof. induction s; simpl; congruence. Qed.

(** The start the code computes, against the earliest opening bracket. *)
Lemma from_first_open_pos (s : string) :
  match from_first_open s with
  | None => first_pos "{" s = None /\ first_pos "[" s = None
  | Some suffix =>
      exists k : nat,
        (k <= String.length s)%nat
        /\ suffix = String.substring k (String.length s - k) s
        /\ (first_pos "{" s = Some k \/ first_pos "[" s = Some k)
        /\ (forall j, first_pos "{" s = Some j -> (k <= j)%nat)
        /\ (forall j, first_pos "[" s = Some j -> (k <= j)%nat)
  end.
Proof.
  induction s as [|a r IH]; simpl; [split; reflexivity|].
  unfold is_open.
  destruct (Ascii.eqb a "{") eqn:Ea; simpl.
  { exists O. simpl. rewrite substring_all. repeat split; auto; intros; lia. }
  destruct (Ascii.eqb a "[") eqn:Eb; simpl.
  { exists O. simpl. rewrite substring_all. repeat split; auto; intros; lia. }
  destruct (from_first_open r) as [suffix|].
  - destruct IH as (k & Hk & Hs & Hor & Ha & Hb).
    exists (S k). simpl. repeat split; [lia | exact Hs | | |].
    + destruct Hor as [-> | ->]; simpl; auto.
    + intros j Hj. destruct (first_pos "{" r) as [j'|]; simpl in Hj; [|discriminate].
      injection Hj as <-. specialize (Ha j' eq_refl). lia.
    + intros j Hj. destruct (first_pos "[" r) as [j'|]; simpl in Hj; [|discriminate].
      injection Hj as <-. specialize (Hb j' eq_refl). lia.
  - destruct IH as [-> ->]. split; reflexivity.
Qed.

(** The end the code computes, against the latest closing bracket. *)
Lemma through_last_close_pos (s : string) :
  match through_last_close s with
  | None => last_pos "}" s = None /\ last_pos "]" s = None
  | Some span =>
      exists k : nat,
        span = String.substring 0 (S k) s
        /\ (last_pos "}" s = Some k \/ last_pos "]" s = Some k)
        /\ (forall j, last_pos "}" s = Some j -> (j <= k)%nat)
        /\ (forall j, last_pos "]" s = Some j -> (j <= k)%nat)
  end.
Proof.
  induction s as [|a r IH]; simpl; [split; reflexivity|].
  destruct (through_last_close r) as [span|].
  - destruct IH as (k & Hs & Hor & Ha & Hb).
    exists (S k). repeat split.
    + rewrite Hs. reflexivity.
    + destruct Hor as [-> | ->]; auto.
    + intros j Hj. destruct (last_pos "}" r) as [j'|].
      * injection Hj as <-. specialize (Ha j' eq_refl). lia.
      * destruct (Ascii.eqb a "}"); [injection Hj as <-; lia | discriminate].
    + intros j Hj. destruct (last_pos "]" r) as [j'|].
      * injection Hj as <-. specialize (Hb j' eq_refl). lia.
      * destruct (Ascii.eqb a "]"); [injection Hj as <-; lia | discriminate].
  - destruct IH as [-> ->]. unfold is_close.
    destruct (Ascii.eqb a "}"), (Ascii.eqb a "]"); simpl;
      try (split; reflexivity);
      exists O; destruct r; repeat split; auto;
      intros j Hj; try discriminate; injection Hj as <-; lia.
Qed.

Lemma first_pos_length (c : ascii) (s : string) (k : nat) :
  first_pos c s = Some k -> (k < String.length s)%nat.
Proof.
  revert k. induction s as [|a r IH]; intros k; simpl; [discriminate|].
  destruct (Ascii.eqb a c); [intros [= <-]; lia|].
  destruct (first_pos c r) as [j|]; simpl; [|discriminate].
  intros [= <-]. specialize (IH j eq_refl). lia.
Qed.

Lemma last_pos_length (c : ascii) (s : string) (k : nat) :
  last_pos c s = Some k -> (k < String.length s)%nat.
Proof.
  revert k. induction s as [|a r IH]; intros k; simpl; [discriminate|].
  destruct (last_pos c r) as [j|].
  - intros [= <-]. specialize (IH j eq_refl). lia.
  - destruct (Ascii.eqb a c); [intros [= <-]; lia | discriminate].
Qed.

Lemma least_index_pos (oa ob : option nat) :
  least_index (index_of_pos oa) (index_of_pos ob)
  = match oa, ob with
    | Some a, Some b => Z.of_nat (Nat.min a b)
    | Some a, None => Z.of_nat a
    | None, Some b => Z.of_nat b
    | None, None => -1
    end.
Proof.
  unfold least_index, index_of_pos, nonneg.
  destruct oa as [a|], ob as [b|]; simpl;
    repeat match goal with
           | |- context [Z.leb ?x ?y] => destruct (Z.leb_spec x y); try lia
           end; simpl; lia.
Qed.

Lemma greatest_index_pos (oa ob : option nat) :
  greatest_index (index_of_pos oa) (index_of_pos ob)
  = match oa, ob with
    | Some a, Some b => Z.of_nat (Nat.max a b)
    | Some a, None => Z.of_nat a
    | None, Some b => Z.of_nat b
    | None, None => -1
    end.
Proof.
  unfold greatest_index, index_of_pos, nonneg.
  destruct oa as [a|], ob as [b|]; simpl;
    repeat match goal with
           | |- context [Z.leb ?x ?y] => destruct (Z.leb_spec x y); try lia
           end; simpl; lia.
Qed.

Lemma parseJsonLenient_unfold (rawText : string) :
  parseJsonLenient rawText
  = let text := Js.trim rawText in
    match JSON_parse text with
    | Ok v => Ok v
    | Throw _ =>
        let start := least_index (Js.indexOf text "{") (Js.indexOf text "[") in
        if start <? 0 then Throw (Error "invalid json") else
        let sliced := Js.slice text start None in
        let end_ :=
          greatest_index (Js.lastIndexOf sliced "}") (Js.lastIndexOf sliced "]") in
        if end_ <? 0 then Throw (Error "invalid json") else
        JSON_parse (Js.slice sliced 0 (Some (end_ + 1)))
    end.
Proof. reflexivity. Qed.

Lemma lenient_start (text : string) :
  let start := least_index (Js.indexOf text "{") (Js.indexOf text "[") in
  match from_first_open text with
  | None => start = -1
  | Some suffix => 0 <= start /\ Js.slice text start None = suffix
  end.
Proof.
  cbv zeta. rewrite !indexOf_pos, least_index_pos.
  pose proof (from_first_open_pos text) as H.
  destruct (from_first_open text) as [suffix|].
  - destruct H as (k & Hk & -> & Hor & Ha & Hb).
    assert (Hstart :
      match first_pos "{" text, first_pos "[" text with
      | Some a, Some b => Z.of_nat (Nat.min a b)
      | Some a, None => Z.of_nat a
      | None, Some b => Z.of_nat b
      | None, None => -1
      end = Z.of_nat k).
    { destruct (first_pos "{" text) as [a|], (first_pos "[" text) as [b|];
        try specialize (Ha _ eq_refl); try specialize (Hb _ eq_refl);
        destruct Hor as [E|E]; try discriminate; injection E as E; subst; f_equal; lia. }
    rewrite Hstart. split; [lia|].
    unfold Js.slice, Js.clamp_index.
    destruct (Z.ltb_spec (Z.of_nat k) 0); [lia|].
    f_equal; lia.
  - destruct H as [-> ->]. reflexivity.
Qed.

Lemma lenient_end (sliced : string) :
  let end_ := greatest_index (Js.lastIndexOf sliced "}") (Js.lastIndexOf sliced "]") in
  match through_last_close sliced with
  | None => end_ = -1
  | Some span => 0 <= end_ /\ Js.slice sliced 0 (Some (end_ + 1)) = span
  end.
Proof.
  cbv zeta. rewrite !lastIndexOf_pos, greatest_index_pos.
  pose proof (through_last_close_pos sliced) as H.
  destruct (through_last_close sliced) as [span|].
  - destruct H as (k & -> & Hor & Ha & Hb).
    assert (Hlen : (k < String.length sliced)%nat).
    { destruct Hor as [E|E]; eapply last_pos_length; exact E. }
    assert (Hend :
      match last_pos "}" sliced, last_pos "]" sliced with
      | Some a, Some b => Z.of_nat (Nat.max a b)
      | Some a, None => Z.of_nat a
      | None, Some b => Z.of_nat b
      | None, None => -1
      end = Z.of_nat k).
    { destruct (last_pos "}" sliced) as [a|], (last_pos "]" sliced) as [b|];
        try specialize (Ha _ eq_refl); try specialize (Hb _ eq_refl);
        destruct Hor as [E|E]; try discriminate; injection E as E; subst; f_equal; lia. }
    rewrite Hend. split; [lia|].
    unfold Js.slice, Js.clamp_index.
    destruct (Z.ltb_spec 0 0); [lia|].
    destruct (Z.ltb_spec (Z.of_nat k + 1) 0); [lia|].
    f_equal; lia.
  - destruct H as [-> ->]. reflexivity.
Qed.

Lemma no_bracket_no_span (s : string) :
  has_bracket s = false -> bracket_span s = None.
Proof.
  unfold bracket_span. intros H.
  assert (E : from_first_open s = None).
  { induction s as [|a r IH]; simpl in *; [reflexivity|].
    destruct (is_open a); simpl in H; [discriminate|].
    apply IH. destruct (is_close a); simpl in H; [discriminate | exact H]. }
  now rewrite E.
Qed.

(** C5, as the code has it: the decoder answers the strict parse of the
    trimmed input when that succeeds, and this whether or not the input
    holds a bracket; when it fails, the decoder strictly parses the span
    from the earliest opening bracket to the latest closing bracket at
    or after it, and fails when there is no such span or that parse
    fails. The wrapped example decodes to the object, and an input with
    no bracket is rejected when it is not itself a JSON text. *)
Theorem parseJsonLenient_spec (rawText : string) :
  let text := Js.trim rawText in
  parseJsonLenient rawText
  = match JSON_parse text with
    | Ok v => Ok v
    | Throw _ => second_attempt text
    end
  /\ (is_ok (parseJsonLenient rawText) = false
      <-> is_ok (JSON_parse text) = false /\ is_ok (second_attempt text) = false)
  /\ parseJsonLenient example_wrapped = Ok (JObject [("a", JNumber 1 0)])
  /\ (has_bracket text = false -> is_ok (JSON_parse text) = false ->
      parseJsonLenient rawText = Throw (Error "invalid json")).
Proof.
  cbv zeta.
  assert (E : parseJsonLenient rawText
              = match JSON_parse (Js.trim rawText) with
                | Ok v => Ok v
                | Throw _ => second_attempt (Js.trim rawText)
                end).
  { rewrite parseJsonLenient_unfold. cbv zeta.
    destruct (JSON_parse (Js.trim rawText)) as [v|e]; [reflexivity|].
    unfold second_attempt, bracket_span.
    pose proof (lenient_start (Js.trim rawText)) as Hs. cbv zeta in Hs.
    destruct (from_first_open (Js.trim rawText)) as [suffix|].
    - destruct Hs as [Hge ->].
      destruct (Z.ltb_spec (least_index (Js.indexOf (Js.trim rawText) "{")
                                        (Js.indexOf (Js.trim rawText) "[")) 0); [lia|].
      pose proof (lenient_end suffix) as He. cbv zeta in He.
      destruct (through_last_close suffix) as [span|].
      + destruct He as [Hge' ->].
        destruct (Z.ltb_spec (greatest_index (Js.lastIndexOf suffix "}")
                                             (Js.lastIndexOf suffix "]")) 0); [lia|].
        reflexivity.
      + rewrite He. reflexivity.
    - rewrite Hs. reflexivity. }
  split; [exact E|]. split; [|split].
  - rewrite E. destruct (JSON_parse (Js.trim rawText)); simpl; intuition congruence.
  - vm_compute. reflexivity.
  - intros Hb Hp. rewrite E.
    destruct (JSON_parse (Js.trim rawText)); [discriminate|].
    unfold second_attempt. now rewrite (no_bracket_no_span _ Hb).
Qed.

(** A text with no bracket that is no JSON text. *)
Lemma parseJsonLenient_spec_witness :
  parseJsonLenient "garbage" = Throw (Error "invalid json").
Proof.
  apply (proj2 (proj2 (proj2 (parseJsonLenient_spec "garbage")))); reflexivity.
Defined.

(** An input without any bracket that the decoder accepts. *)
Lemma parseJsonLenient_accepts_bracketless :
  has_bracket "123" = false /\ parseJsonLenient "123" = Ok (JNumber 123 0).
Proof. split; vm_compute; reflexivity. Qed.

(** ** Renders and handlers *)

Lemma run_queue_app (q1 q2 : list Action) (s : Hooks * World) :
  run_queue (q1 ++ q2) s = run_queue q2 (run_queue q1 s).
Proof. unfold run_queue. apply fold_left_app. Qed.

Lemma commit_state (w : Window) :
  run_queue (queue w) (hooks w, world w) = (hooks (commit w), world (commit w)).
Proof.
  unfold commit. destruct (run_queue (queue w) (hooks w, world w)). reflexivity.
Qed.

(** The render after more setter calls continues the render without them. *)
Lemma commit_enqueued (acts : list Action) (w : Window) :
  (hooks (commit (with_queue (queue w ++ acts) w)),
   world (commit (with_queue (queue w ++ acts) w)))
  = run_queue acts (hooks (commit w), world (commit w)).
Proof.
  rewrite <- !commit_state. simpl. apply run_queue_app.
Qed.

Lemma commit_queue (w : Window) : queue (commit w) = [].
Proof.
  unfold commit. destruct (run_queue (queue w) (hooks w, world w)). reflexivity.
Qed.

Lemma commit_localStorage (w : Window) :
  localStorage (commit w)
  = persist (hooks w) (hooks (commit w)) (queue w) (localStorage w).
Proof.
  unfold commit. destruct (run_queue (queue w) (hooks w, world w)). reflexivity.
Qed.

Lemma truthy_false (s : string) : Js.truthy s = false <-> s = "".
Proof.
  unfold Js.truthy. destruct (String.eqb_spec s ""); simpl; split; congruence.
Qed.

Lemma addTodo_noop (w : Window) :
  TodoForm.title (todoForm (hooks w)) = "" \/ TodoForm.time (todoForm (hooks w)) = "" ->
  addTodo w = (Ok tt, w).
Proof.
  intros H. unfold addTodo.
  destruct H as [H|H]; apply truthy_false in H; rewrite H; simpl;
    [|rewrite orb_true_r]; reflexivity.
Qed.

Lemma addTodo_calls (w : Window) :
  TodoForm.title (todoForm (hooks w)) <> "" -> TodoForm.time (todoForm (hooks w)) <> "" ->
  addTodo w
  = (Ok tt,
     with_queue (queue w
                 ++ [setTodos (append_todo (todoForm (hooks w)));
                     setTodoForm (fun _ =>
                       {| TodoForm.title := ""; TodoForm.time := "";
                          TodoForm.priority := TodoForm.priority (todoForm (hooks w)) |})]
                 ++ closing_panel w) w).
Proof.
  intros Ht Hm. unfold addTodo, closing_panel.
  destruct (Js.truthy (TodoForm.title (todoForm (hooks w)))) eqn:E1;
    [|apply truthy_false in E1; contradiction].
  destruct (Js.truthy (TodoForm.time (todoForm (hooks w)))) eqn:E2;
    [|apply truthy_false in E2; contradiction].
  simpl. unfold bind, call, ret, with_queue. simpl.
  destruct (desktopMode w); simpl; rewrite <- ?app_assoc; reflexivity.
Qed.

Lemma addAgenda_noop (w : Window) :
  AgendaForm.title (agendaForm (hooks w)) = ""
  \/ AgendaForm.time (agendaForm (hooks w)) = "" ->
  addAgenda w = (Ok tt, w).
Proof.
  intros H. unfold addAgenda.
  destruct H as [H|H]; apply truthy_false in H; rewrite H; simpl;
    [|rewrite orb_true_r]; reflexivity.
Qed.

Lemma addAgenda_calls (w : Window) :
  AgendaForm.title (agendaForm (hooks w)) <> "" ->
  AgendaForm.time (agendaForm (hooks w)) <> "" ->
  addAgenda w
  = (Ok tt,
     with_queue (queue w
                 ++ [setAgenda (append_agenda (agendaForm (hooks w)));
                     setAgendaForm (fun _ =>
                       {| AgendaForm.title := ""; AgendaForm.time := "";
                          AgendaForm.location := "" |})]
                 ++ closing_panel w) w).
Proof.
  intros Ht Hm. unfold addAgenda, closing_panel.
  destruct (Js.truthy (AgendaForm.title (agendaForm (hooks w)))) eqn:E1;
    [|apply truthy_false in E1; contradiction].
  destruct (Js.truthy (AgendaForm.time (agendaForm (hooks w)))) eqn:E2;
    [|apply truthy_false in E2; contradiction].
  simpl. unfold bind, call, ret, with_queue. simpl.
  destruct (desktopMode w); simpl; rewrite <- ?app_assoc; reflexivity.
Qed.

Lemma cityInput_calls (input : string) (w : Window) :
  cityInput_onBlur input w
  = (Ok tt,
     with_queue (queue w
                 ++ [setCity (Js.or_else (Js.trim input) (city (hooks w)));
                     setCityMode manual; setIsEditingCity false]) w).
Proof.
  unfold cityInput_onBlur, bind, call, with_queue. simpl.
  rewrite <- ?app_assoc. reflexivity.
Qed.

Lemma cityInput_enter (input : string) (w : Window) :
  cityInput_onKeyDown "Enter" input w = cityInput_onBlur input w.
Proof. reflexivity. Qed.

Lemma or_else_empty (b : string) : Js.or_else "" b = b.
Proof. reflexivity. Qed.

Lemma or_else_filled (a b : string) : a <> "" -> Js.or_else a b = a.
Proof.
  intros H. unfold Js.or_else.
  destruct (Js.truthy a) eqn:E; [reflexivity|]. apply truthy_false in E. contradiction.
Qed.

(** C7: with an empty title or an empty time in the form, [addAgenda]
    returns without an exception and leaves the window as it was. With
    both filled in, the next render has the entries of before followed
    by one new entry with the title and the time of the form, whose
    location is the one of the form when that is not empty and "待定"
    when it is empty. *)
Theorem addAgenda_spec (w : Window) :
  let form := agendaForm (hooks w) in
  let before := commit w in
  let after := commit (handled op_addAgenda w) in
  (AgendaForm.title form = "" \/ AgendaForm.time form = "" -> addAgenda w = (Ok tt, w))
  /\ (AgendaForm.title form <> "" -> AgendaForm.time form <> "" ->
      fst (addAgenda w) = Ok tt
      /\ exists item,
           agenda (hooks after) = (agenda (hooks before) ++ [item])%list
           /\ AgendaItem.id item = fst (createId (world before))
           /\ AgendaItem.title item = AgendaForm.title form
           /\ AgendaItem.time item = AgendaForm.time form
           /\ (AgendaForm.location form = "" -> AgendaItem.location item = "待定")
           /\ (AgendaForm.location form <> "" ->
               AgendaItem.location item = AgendaForm.location form)).
Proof.
  cbv zeta. split; [apply addAgenda_noop|].
  intros Ht Hm. unfold handled, handler. rewrite (addAgenda_calls w Ht Hm). simpl.
  split; [reflexivity|].
  exists (agenda_of_form (agendaForm (hooks w)) (fst (createId (world (commit w))))).
  pose proof (commit_enqueued
    ([setAgenda (append_agenda (agendaForm (hooks w)));
      setAgendaForm (fun _ =>
        {| AgendaForm.title := ""; AgendaForm.time := ""; AgendaForm.location := "" |})]
       ++ closing_panel w) w) as E.
  rewrite run_queue_app in E.
  unfold closing_panel in *.
  split.
  - destruct (desktopMode w); simpl in E; injection E as Eh Ew; rewrite Eh; reflexivity.
  - simpl. repeat split.
    + intros ->. reflexivity.
    + intros Hl. now apply or_else_filled.
Qed.

(** C10: committing the city editor, by leaving the input or by the
    Enter key, makes the mode manual; the city of the next render is
    the trimmed input when that is not empty, and the city the editor
    was rendered with when it is empty. *)
Theorem city_editor_commit (input : string) (w : Window) :
  let blurred := commit (handled (op_cityBlur input) w) in
  let entered := commit (handled (op_cityKeyDown "Enter" input) w) in
  entered = blurred
  /\ cityMode (hooks blurred) = manual
  /\ (Js.trim input = "" -> city (hooks blurred) = city (hooks w))
  /\ (Js.trim input <> "" -> city (hooks blurred) = Js.trim input).
Proof.
  cbv zeta. split; [reflexivity|].
  unfold handled, handler. rewrite cityInput_calls. simpl.
  pose proof (commit_enqueued
    [setCity (Js.or_else (Js.trim input) (city (hooks w)));
     setCityMode manual; setIsEditingCity false] w) as E.
  simpl in E. injection E as Eh Ew. rewrite Eh. simpl.
  repeat split.
  - intros ->. reflexivity.
  - intros H. now apply or_else_filled.
Qed.

(** ** The store against the state *)

Lemma persist_all_persisted (h : Hooks) (st : gmap string string) :
  persisted_as h (persist_all h st).
Proof.
  unfold persisted_as, persist_all, saveStorage.
  repeat split;
    repeat (first [rewrite lookup_insert_eq; reflexivity
                  | rewrite lookup_insert_ne by discriminate]).
Qed.

Lemma mount_persisted desktop module h st wd :
  persisted (mount desktop module h st wd).
Proof. apply persist_all_persisted. Qed.

Lemma reduce_todos_untouched (a : Action) (s : Hooks * World) :
  is_setTodos a = false -> todos (fst (reduce s a)) = todos (fst s).
Proof.
  destruct s as [h wd], a; simpl; try reflexivity; try discriminate.
  intros _. destruct (f (agenda h) wd). reflexivity.
Qed.

Lemma reduce_agenda_untouched (a : Action) (s : Hooks * World) :
  is_setAgenda a = false -> agenda (fst (reduce s a)) = agenda (fst s).
Proof.
  destruct s as [h wd], a; simpl; try reflexivity; try discriminate.
  intros _. destruct (f (todos h) wd). reflexivity.
Qed.

Lemma run_queue_todos_untouched (q : list Action) (s : Hooks * World) :
  existsb is_setTodos q = false -> todos (fst (run_queue q s)) = todos (fst s).
Proof.
  revert s. induction q as [|a q IH]; intros s H; simpl in *; [reflexivity|].
  apply orb_false_iff in H as [Ha Hq].
  unfold run_queue in *. rewrite (IH _ Hq). now apply reduce_todos_untouched.
Qed.

Lemma run_queue_agenda_untouched (q : list Action) (s : Hooks * World) :
  existsb is_setAgenda q = false -> agenda (fst (run_queue q s)) = agenda (fst s).
Proof.
  revert s. induction q as [|a q IH]; intros s H; simpl in *; [reflexivity|].
  apply orb_false_iff in H as [Ha Hq].
  unfold run_queue in *. rewrite (IH _ Hq). now apply reduce_agenda_untouched.
Qed.

Lemma CityMode_eqb_eq (a b : CityMode) : CityMode_eqb a b = true -> a = b.
Proof. destruct a, b; simpl; congruence. Qed.

Lemma persist_persisted (before after : Hooks) (q : list Action)
    (st : gmap string string) :
  (existsb is_setTodos q = false -> todos after = todos before) ->
  (existsb is_setAgenda q = false -> agenda after = agenda before) ->
  persisted_as before st ->
  persisted_as after (persist before after q st).
Proof.
  intros Ht Ha (P1 & P2 & P3 & P4).
  unfold persisted_as, persist, saveStorage.
  destruct (existsb is_setTodos q); [clear Ht | specialize (Ht eq_refl)];
  destruct (existsb is_setAgenda q); [clear Ha | specialize (Ha eq_refl) | clear Ha
                                      | specialize (Ha eq_refl)];
  destruct (String.eqb_spec (city before) (city after)) as [Ec|Ec];
  destruct (CityMode_eqb (cityMode before) (cityMode after)) eqn:Em;
  try apply CityMode_eqb_eq in Em; simpl;
  repeat split;
  repeat (first [rewrite lookup_insert_eq; reflexivity
                | rewrite lookup_insert_ne by discriminate]);
  congruence.
Qed.

(** A render keeps the store in step with the state. *)
Lemma commit_persisted (w : Window) : persisted w -> persisted (commit w).
Proof.
  unfold persisted. intros H. rewrite commit_localStorage.
  assert (Eh : hooks (commit w) = fst (run_queue (queue w) (hooks w, world w)))
    by now rewrite commit_state.
  apply persist_persisted; [| |exact H]; intros E; rewrite Eh.
  - now apply run_queue_todos_untouched.
  - now apply run_queue_agenda_untouched.
Qed.

(** A handler only queues setter calls. *)
Lemma handler_queues (op : Op) (w : Window) :
  exists acts, handler op w = (Ok tt, with_queue (queue w ++ acts) w).
Proof.
  assert (Hnil : (Ok tt, w) = (Ok tt, with_queue (queue w ++ []) w)).
  { rewrite app_nil_r. destruct w; reflexivity. }
  destruct op; simpl;
    try (eexists; unfold changeTodoForm, changeAgendaForm, toggleTodo, deleteTodo,
           deleteAgenda, call; reflexivity).
  - destruct (String.eqb_spec (TodoForm.title (todoForm (hooks w))) "") as [E|E];
      [|destruct (String.eqb_spec (TodoForm.time (todoForm (hooks w))) "") as [E'|E']].
    + exists []. rewrite addTodo_noop by auto. exact Hnil.
    + exists []. rewrite addTodo_noop by auto. exact Hnil.
    + eexists. apply addTodo_calls; assumption.
  - destruct (String.eqb_spec (AgendaForm.title (agendaForm (hooks w))) "") as [E|E];
      [|destruct (String.eqb_spec (AgendaForm.time (agendaForm (hooks w))) "") as [E'|E']].
    + exists []. rewrite addAgenda_noop by auto. exact Hnil.
    + exists []. rewrite addAgenda_noop by auto. exact Hnil.
    + eexists. apply addAgenda_calls; assumption.
  - eexists. apply cityInput_calls.
  - unfold cityInput_onKeyDown. destruct (String.eqb key "Enter").
    + eexists. apply cityInput_calls.
    + exists []. exact Hnil.
Qed.

Lemma handled_localStorage (op : Op) (w : Window) :
  localStorage (handled op w) = localStorage w.
Proof.
  unfold handled. destruct (handler_queues op w) as [acts ->]. reflexivity.
Qed.

Lemma handled_hooks (op : Op) (w : Window) : hooks (handled op w) = hooks w.
Proof.
  unfold handled. destruct (handler_queues op w) as [acts ->]. reflexivity.
Qed.

Lemma step_persisted (w : Window) (op : Op) : persisted w -> persisted (step w op).
Proof.
  intros H. apply commit_persisted. unfold persisted.
  now rewrite handled_hooks, handled_localStorage.
Qed.

Lemma run_persisted (ops : list Op) (w : Window) :
  persisted w -> persisted (run ops w).
Proof.
  revert w. induction ops as [|op ops IH]; intros w H; simpl; [exact H|].
  apply IH. now apply step_persisted.
Qed.

(** C2, as the code has it: a handler queues its update and returns
    with the store as it was; the store is written by the effects of
    the render that follows. From a window whose store holds the
    serialization of its state, after every sequence of events, each
    followed by its render, the store holds under each of the four keys
    the serialization of the state. *)
Theorem persisted_after_each_render (ops : list Op) (w : Window) (H : persisted w) :
  persisted (run ops w)
  /\ forall op, localStorage (handled op (run ops w)) = localStorage (run ops w).
Proof.
  split; [now apply run_persisted | intros op; apply handled_localStorage].
Qed.

(** ** Identifiers *)

Lemma NoDup_snoc {A} (l : list A) (x : A) :
  List.NoDup (l ++ [x]) <-> List.NoDup l /\ ~ In x l.
Proof.
  induction l as [|a l IH]; simpl.
  - split; [intros _; split; [constructor | tauto] | intros _; repeat constructor; tauto].
  - rewrite !List.NoDup_cons_iff, IH, in_app_iff. simpl. intuition (subst; tauto).
Qed.

Lemma map_id_toggle (id : string) (l : list TodoItem.t) :
  map TodoItem.id (map (toggle id) l) = map TodoItem.id l.
Proof.
  induction l as [|a l IH]; simpl; [reflexivity|]. rewrite IH. f_equal.
  unfold toggle. destruct (String.eqb (TodoItem.id a) id); reflexivity.
Qed.

Lemma In_map_filter {A B} (g : A -> B) (f : A -> bool) (l : list A) (x : B) :
  In x (map g (List.filter f l)) -> In x (map g l).
Proof.
  rewrite !in_map_iff. intros (a & <- & Ha). apply filter_In in Ha as [Ha _]. eauto.
Qed.

Lemma NoDup_map_filter {A B} (g : A -> B) (f : A -> bool) (l : list A) :
  List.NoDup (map g l) -> List.NoDup (map g (List.filter f l)).
Proof.
  induction l as [|a l IH]; simpl; [auto|].
  rewrite List.NoDup_cons_iff. intros [Hn Hd].
  destruct (f a); simpl; [|auto].
  constructor; [|auto]. intros Hin. apply Hn. eapply In_map_filter, Hin.
Qed.

Lemma reduce_world_untouched (a : Action) (s : Hooks * World) :
  is_setTodos a = false -> is_setAgenda a = false -> snd (reduce s a) = snd s.
Proof. destruct s as [h wd], a; simpl; try reflexivity; discriminate. Qed.

Lemma reduce_ids_invariant (a : Action) (s : Hooks * World) :
  from_handler a -> ids_invariant s -> ids_invariant (reduce s a).
Proof.
  intros Ha (It & Ia & Id). destruct s as [h wd]. simpl in It, Ia, Id.
  destruct Ha as [form|id|id|form|id|a Ht Hg]; unfold ids_invariant.
  - simpl. unfold todo_ids, agenda_ids in *. simpl. rewrite map_app. simpl.
    split; [|split].
    + intros x Hx. apply in_app_iff in Hx. apply in_app_iff.
      destruct Hx as [Hx|Hx]; [left; auto | right; exact Hx].
    + intros x Hx. apply in_app_iff. left. auto.
    + intros Hn. apply NoDup_snoc in Hn as [Hn Hfresh]. destruct (Id Hn).
      split; [apply NoDup_snoc|]; auto.
  - simpl. unfold todo_ids, agenda_ids in *. simpl. rewrite map_id_toggle.
    split; [|split]; auto.
  - simpl. unfold todo_ids, agenda_ids in *. simpl.
    split; [|split]; auto.
    + intros x Hx. apply It. eapply In_map_filter, Hx.
    + intros Hn. destruct (Id Hn). split; [apply NoDup_map_filter|]; auto.
  - simpl. unfold todo_ids, agenda_ids in *. simpl. rewrite map_app. simpl.
    split; [|split].
    + intros x Hx. apply in_app_iff. left. auto.
    + intros x Hx. apply in_app_iff in Hx. apply in_app_iff.
      destruct Hx as [Hx|Hx]; [left; auto | right; exact Hx].
    + intros Hn. apply NoDup_snoc in Hn as [Hn Hfresh]. destruct (Id Hn).
      split; [|apply NoDup_snoc]; auto.
  - simpl. unfold todo_ids, agenda_ids in *. simpl.
    split; [|split]; auto.
    + intros x Hx. apply Ia. eapply In_map_filter, Hx.
    + intros Hn. destruct (Id Hn). split; [|apply NoDup_map_filter]; auto.
  - unfold todo_ids, agenda_ids in *.
    rewrite (reduce_todos_untouched a (h, wd) Ht), (reduce_agenda_untouched a (h, wd) Hg),
      (reduce_world_untouched a (h, wd) Ht Hg). simpl. auto.
Qed.

Lemma run_queue_ids_invariant (q : list Action) (s : Hooks * World) :
  Forall from_handler q -> ids_invariant s -> ids_invariant (run_queue q s).
Proof.
  revert s. induction q as [|a q IH]; intros s Hq Hs; simpl; [exact Hs|].
  inversion Hq; subst. apply IH; [assumption|]. now apply reduce_ids_invariant.
Qed.

Lemma handler_emits (op : Op) (w : Window) :
  exists acts,
    handler op w = (Ok tt, with_queue (queue w ++ acts) w) /\ Forall from_handler acts.
Proof.
  assert (Hnil : (Ok tt, w) = (Ok tt, with_queue (queue w ++ []) w)).
  { rewrite app_nil_r. destruct w; reflexivity. }
  assert (Hclose : Forall from_handler (closing_panel w)).
  { unfold closing_panel. destruct (desktopMode w); repeat constructor. }
  destruct op; simpl;
    try (eexists; split;
         [unfold changeTodoForm, changeAgendaForm, toggleTodo, deleteTodo,
            deleteAgenda, call; reflexivity
         | repeat constructor]).
  - destruct (String.eqb_spec (TodoForm.title (todoForm (hooks w))) "") as [E|E];
      [|destruct (String.eqb_spec (TodoForm.time (todoForm (hooks w))) "") as [E'|E']].
    + exists []. rewrite addTodo_noop by auto. split; [exact Hnil | constructor].
    + exists []. rewrite addTodo_noop by auto. split; [exact Hnil | constructor].
    + eexists. split; [apply addTodo_calls; assumption|].
      apply Forall_app. split; [|exact Hclose]. repeat constructor.
  - destruct (String.eqb_spec (AgendaForm.title (agendaForm (hooks w))) "") as [E|E];
      [|destruct (String.eqb_spec (AgendaForm.time (agendaForm (hooks w))) "") as [E'|E']].
    + exists []. rewrite addAgenda_noop by auto. split; [exact Hnil | constructor].
    + exists []. rewrite addAgenda_noop by auto. split; [exact Hnil | constructor].
    + eexists. split; [apply addAgenda_calls; assumption|].
      apply Forall_app. split; [|exact Hclose]. repeat constructor.
  - eexists. split; [apply cityInput_calls | repeat constructor].
  - unfold cityInput_onKeyDown. destruct (String.eqb key "Enter").
    + eexists. split; [apply cityInput_calls | repeat constructor].
    + exists []. split; [exact Hnil | constructor].
Qed.

Lemma step_ids_window (w : Window) (op : Op) : ids_window w -> ids_window (step w op).
Proof.
  intros [Hq Hi]. unfold step, handled.
  destruct (handler_emits op w) as (acts & -> & Hacts). simpl.
  split; [rewrite commit_queue; constructor|].
  rewrite <- commit_state. simpl.
  apply run_queue_ids_invariant; [|exact Hi].
  apply Forall_app. split; assumption.
Qed.

Lemma run_ids_window (ops : list Op) (w : Window) : ids_window w -> ids_window (run ops w).
Proof.
  revert w. induction ops as [|op ops IH]; intros w H; simpl; [exact H|].
  apply IH. now apply step_ids_window.
Qed.

Lemma Z_to_string_inj (a b : Z) : Js.Z_to_string a = Js.Z_to_string b -> a = b.
Proof.
  unfold Js.Z_to_string. intros H. apply DecimalZ.to_int_inj.
  assert (R : forall z, NilZero.int_of_string (NilZero.string_of_int (Z.to_int z))
                        = Some (Z.to_int z)).
  { intros z. apply NilZero.isi; destruct z; simpl; try discriminate;
      intros [= E]; exact (DecimalPos.Unsigned.to_uint_nonnil _ E). }
  pose proof (R a) as Ra. rewrite H, R in Ra. congruence.
Qed.

Lemma id_at_inj (wd : World) :
  never_repeats wd -> forall i j, id_at wd i = id_at wd j -> i = j.
Proof.
  unfold never_repeats, id_at. destruct (randomUUID wd); intros H i j E.
  - now apply H.
  - apply H. now apply Z_to_string_inj.
Qed.


Lemma createId_created (wd : World) :
  created (snd (createId wd)) = (created wd ++ [fst (createId wd)])%list.
Proof. reflexivity. Qed.

Lemma createId_id_at (wd : World) (k : nat) : id_at (snd (createId wd)) k = id_at wd k.
Proof. reflexivity. Qed.

Lemma createId_never_repeats (wd : World) :
  never_repeats wd -> never_repeats (snd (createId wd)).
Proof. intros H. exact H. Qed.

Lemma createId_generated (wd : World) : generated wd -> generated (snd (createId wd)).
Proof.
  unfold generated. intros H. rewrite createId_created, length_app.
  change (length [fst (createId wd)]) with 1%nat.
  rewrite Nat.add_1_r, seq_S, map_app, !(map_ext _ _ (createId_id_at wd)), <- H.
  reflexivity.
Qed.


Lemma generated_NoDup (wd : World) :
  generated wd -> never_repeats wd -> List.NoDup (created wd).
Proof.
  intros Hg Hn. rewrite Hg.
  generalize (seq_NoDup (length (created wd)) 0).
  induction (seq 0 (length (created wd))) as [|k l IH]; intros Hl; simpl; [constructor|].
  apply List.NoDup_cons_iff in Hl as [Hk Hl]. constructor; [|now apply IH].
  intros Hin. apply in_map_iff in Hin as (j & E & Hj).
  apply (id_at_inj wd Hn) in E. subst j. contradiction.
Qed.

Lemma reduce_generated (a : Action) (s : Hooks * World) :
  from_handler a ->
  generated (snd s) /\ never_repeats (snd s) ->
  generated (snd (reduce s a)) /\ never_repeats (snd (reduce s a)).
Proof.
  intros Ha [Hg Hn]. destruct s as [h wd]. simpl in Hg, Hn.
  destruct Ha as [form|id|id|form|id|a Ht Hg']; try (simpl; split; assumption).
  - simpl. split; [now apply createId_generated | exact Hn].
  - simpl. split; [now apply createId_generated | exact Hn].
  - rewrite (reduce_world_untouched a (h, wd) Ht Hg'). split; assumption.
Qed.

Lemma run_queue_generated (q : list Action) (s : Hooks * World) :
  Forall from_handler q ->
  generated (snd s) /\ never_repeats (snd s) ->
  generated (snd (run_queue q s)) /\ never_repeats (snd (run_queue q s)).
Proof.
  revert s. induction q as [|a q IH]; intros s Hq Hs; simpl; [exact Hs|].
  inversion Hq; subst. apply IH; [assumption|]. now apply reduce_generated.
Qed.

Lemma step_issued (w : Window) (op : Op) :
  issued w /\ never_repeats (world w) ->
  issued (step w op) /\ never_repeats (world (step w op)).
Proof.
  intros [[Hi Hg] Hn].
  pose proof (step_ids_window w op Hi) as Hi'.
  destruct Hi as [Hq _]. unfold step, handled in *.
  destruct (handler_emits op w) as (acts & E & Hacts). rewrite E in *. simpl in *.
  assert (H : generated (snd (run_queue (queue w ++ acts) (hooks w, world w)))
              /\ never_repeats (snd (run_queue (queue w ++ acts) (hooks w, world w)))).
  { apply run_queue_generated; [apply Forall_app; split; assumption|].
    split; assumption. }
  pose proof (commit_state (with_queue (queue w ++ acts) w)) as C. simpl in C.
  rewrite C in H. simpl in H. destruct H as [Hg' Hn'].
  split; [split|]; assumption.
Qed.

Lemma run_issued (ops : list Op) (w : Window) :
  issued w /\ never_repeats (world w) ->
  issued (run ops w) /\ never_repeats (world (run ops w)).
Proof.
  revert w. induction ops as [|op ops IH]; intros w H; simpl; [exact H|].
  apply IH. now apply step_issued.
Qed.

Lemma mount_issued (desktop : bool) (module : option string) (h : Hooks)
    (st : gmap string string) (wd : World) :
  todos h = [] -> agenda h = [] -> created wd = [] ->
  issued (mount desktop module h st wd).
Proof.
  intros Ht Ha Hc. split; [split; [constructor|]|].
  - unfold ids_invariant, todo_ids, agenda_ids. simpl.
    rewrite Ht, Ha. simpl. repeat split; try tauto; constructor.
  - unfold generated. simpl. rewrite Hc. reflexivity.
Qed.



(** C8, as the code has it: from a window that starts with both
    collections empty and no identifier made, on a platform that never
    repeats itself, after every sequence of events the identifiers of
    the todos are pairwise distinct and so are those of the agenda
    entries, as are all the identifiers made; and every event keeps it
    so. *)
Theorem ids_stay_unique (ops : list Op) (desktop : bool) (module : option string)
    (h : Hooks) (st : gmap string string) (wd : World) :
  todos h = [] -> agenda h = [] -> created wd = [] -> never_repeats wd ->
  let w := run ops (mount desktop module h st wd) in
  List.NoDup (map TodoItem.id (todos (hooks w)))
  /\ List.NoDup (map AgendaItem.id (agenda (hooks w)))
  /\ List.NoDup (created (world w))
  /\ forall op,
       List.NoDup (map TodoItem.id (todos (hooks (step w op))))
       /\ List.NoDup (map AgendaItem.id (agenda (hooks (step w op)))).
Proof.
  intros Ht Ha Hc Hn w.
  pose proof (mount_issued desktop module h st wd Ht Ha Hc) as H0.
  assert (Hn0 : never_repeats (world (mount desktop module h st wd))) by exact Hn.
  assert (Hall : forall w0, issued w0 /\ never_repeats (world w0) ->
                 List.NoDup (map TodoItem.id (todos (hooks w0)))
                 /\ List.NoDup (map AgendaItem.id (agenda (hooks w0)))
                 /\ List.NoDup (created (world w0))).
  { intros w0 [[[_ (_ & _ & Hd)] Hg] Hn']. simpl in Hd.
    pose proof (generated_NoDup _ Hg Hn') as Hnd.
    destruct (Hd Hnd). auto. }
  pose proof (run_issued ops _ (conj H0 Hn0)) as Hw. fold w in Hw.
  destruct (Hall w Hw) as (H1 & H2 & H3).
  split; [exact H1|]. split; [exact H2|]. split; [exact H3|].
  intros op. destruct (Hall _ (step_issued w op Hw)) as (S1 & S2 & _). auto.
Qed.

(** A clock that advances between identifiers never repeats itself. *)
Lemma ticking_never_repeats (responses : list Response) :
  never_repeats (ticking responses).
Proof. unfold never_repeats. simpl. intros i j H. lia. Qed.

(** ** The network computations *)

Lemma endpoint_requests_app (l k : list (Url * Z)) :
  endpoint_requests (l ++ k) = (endpoint_requests l ++ endpoint_requests k)%list.
Proof.
  induction l as [|[[] t] l IH]; simpl; rewrite ?IH; reflexivity.
Qed.

Lemma fetch_after_request url timeoutMs w r w' :
  fetch url timeoutMs w = (r, w') -> after_request url timeoutMs w w'.
Proof.
  unfold fetch, after_request.
  destruct (incoming (world w)) as [|[|status body] rest];
    intros [= <- <-]; simpl; auto.
Qed.

Lemma fetchJson_after_request url timeoutMs w r w' :
  fetchJson url timeoutMs w = (r, w') -> after_request url timeoutMs w w'.
Proof.
  unfold fetchJson, bind.
  destruct (fetch url timeoutMs w) as [[[status body]|e] w1] eqn:F;
    apply fetch_after_request in F.
  - unfold throw, lift. destruct (negb (response_ok status)); intros [= <- <-]; exact F.
  - intros [= <- <-]. exact F.
Qed.

Ltac split_paths H :=
  repeat match type of H with
         | context [fetchJson ?u ?t ?w] =>
             let F := fresh "F" in
             destruct (fetchJson u t w) as [[?|?] ?] eqn:F;
             apply fetchJson_after_request in F
         | context [match ?x with _ => _ end] => destruct x eqn:?
         end.

(** The primary path makes the geocoding request first; when it throws
    it has called no setter, and when it returns it has set the weather
    and the status [ready]. *)
Lemma primaryPath_outcome (normalized : string) (w : Window) r w' :
  primaryPath normalized w = (r, w') ->
  hooks w' = hooks w
  /\ (exists more,
        requests (world w')
        = (requests (world w) ++ (GeocodingSearch normalized, 5000) :: more)%list
        /\ endpoint_requests more = [])
  /\ match r with
     | Throw _ => queue w' = queue w
     | Ok b =>
         b = true
         /\ exists info,
              queue w' = (queue w ++ [setWeather (Some info); setWeatherStatus ready])%list
     end.
Proof.
  unfold primaryPath, bind, lift, throw, ret, call. intros H.
  split_paths H; simpl in H; injection H as <- <-;
    unfold after_request in *; simpl;
    repeat match goal with
           | F : _ /\ _ |- _ => destruct F
           end;
    (split; [congruence|]); (split; [|try congruence]);
    try (eexists; split;
         [repeat match goal with E : requests _ = _ |- _ => rewrite E end;
          rewrite <- ?app_assoc; simpl; reflexivity
         | reflexivity]).
  split; [reflexivity|]. eexists. rewrite <- app_assoc. simpl. f_equal. congruence.
Qed.

(** The secondary path makes the one request for the text report. *)
Lemma secondaryPath_outcome (normalized : string) (w : Window) r w' :
  secondaryPath normalized w = (r, w') ->
  hooks w' = hooks w
  /\ requests (world w') = (requests (world w) ++ [(Wttr normalized, 6000)])%list
  /\ match r with
     | Throw _ => queue w' = queue w
     | Ok b =>
         b = true
         /\ exists info,
              queue w' = (queue w ++ [setWeather (Some info); setWeatherStatus ready])%list
     end.
Proof.
  unfold secondaryPath, bind, lift, throw, ret, call. intros H.
  split_paths H; simpl in H; injection H as <- <-;
    unfold after_request in *; simpl;
    repeat match goal with
           | F : _ /\ _ |- _ => destruct F
           end;
    repeat split; try congruence.
  eexists. rewrite <- app_assoc. simpl. f_equal. congruence.
Qed.

Lemma fetchWeather_unfold (targetCity : string) (w : Window) :
  normalizeCityName targetCity <> "" ->
  fetchWeather targetCity w
  = let normalized := normalizeCityName targetCity in
    let w1 := with_queue (queue w ++ [setWeatherStatus loading]) w in
    match primaryPath normalized w1 with
    | (Ok b, wp) => (Ok b, wp)
    | (Throw _, wp) =>
        match secondaryPath normalized wp with
        | (Ok b, ws) => (Ok b, ws)
        | (Throw _, ws) =>
            (Ok false, with_queue (queue ws ++ [setWeatherStatus error]) ws)
        end
    end.
Proof.
  intros Hn. unfold fetchWeather.
  destruct (Js.truthy (normalizeCityName targetCity)) eqn:E;
    [|apply truthy_false in E; contradiction].
  simpl. unfold try_catch, bind, call, ret. simpl.
  destruct (primaryPath _ _) as [[b|e] wp]; [reflexivity|].
  destruct (secondaryPath _ _) as [[b|e'] ws]; reflexivity.
Qed.

Lemma run_queue_keeps_city (q : list Action) (s : Hooks * World) :
  forallb keeps_city q = true ->
  city (fst (run_queue q s)) = city (fst s)
  /\ cityMode (fst (run_queue q s)) = cityMode (fst s)
  /\ snd (run_queue q s) = snd s.
Proof.
  revert s. induction q as [|a q IH]; intros s H; simpl in *; [auto|].
  apply andb_true_iff in H as [Ha Hq].
  unfold run_queue in *. destruct (IH (reduce s a) Hq) as (-> & -> & ->).
  destruct s as [h wd], a; simpl in *; try discriminate; auto.
Qed.

(** The weather a render shows depends on the state before it and on
    the setter calls, not on the world. *)
Lemma run_queue_weather (q : list Action) (s1 s2 : Hooks * World) :
  weather (fst s1) = weather (fst s2) ->
  weather (fst (run_queue q s1)) = weather (fst (run_queue q s2)).
Proof.
  revert s1 s2. induction q as [|a q IH]; intros s1 s2 H; simpl; [exact H|].
  apply IH. destruct s1 as [h1 wd1], s2 as [h2 wd2], a; simpl in *;
    repeat match goal with
           | |- context [let '(_, _) := ?x in _] => destruct x
           end; simpl; auto.
Qed.

(** So do the city and its mode. *)
Lemma run_queue_city (q : list Action) (s1 s2 : Hooks * World) :
  city (fst s1) = city (fst s2) /\ cityMode (fst s1) = cityMode (fst s2) ->
  city (fst (run_queue q s1)) = city (fst (run_queue q s2))
  /\ cityMode (fst (run_queue q s1)) = cityMode (fst (run_queue q s2)).
Proof.
  revert s1 s2. induction q as [|a q IH]; intros s1 s2 H; simpl; [exact H|].
  apply IH. destruct s1 as [h1 wd1], s2 as [h2 wd2], a; simpl in *;
    repeat match goal with
           | |- context [let '(_, _) := ?x in _] => destruct x
           end; simpl; tauto.
Qed.

(** A city that is empty after normalization: neither path is run. *)
Lemma fetchWeather_empty_city (targetCity : string) (w : Window) :
  normalizeCityName targetCity = "" ->
  fetchWeather targetCity w
  = (Ok false, with_queue (queue w ++ [setWeatherStatus error]) w).
Proof. intros E. unfold fetchWeather. rewrite E. reflexivity. Qed.

(** C4: when the city is not empty after normalization and the primary
    path throws, whatever the reason, the request that follows is the
    one of the secondary path, and [fetchWeather] answers what that path
    gives. When the secondary path throws as well, [fetchWeather] throws
    nothing and answers false, the setter calls it has made are the
    status [loading] and then the status [error], and after the next
    render the status is [error] and the weather is the one that render
    would have shown without the call. *)
Theorem fetchWeather_fallback (targetCity : string) (w : Window) (e : exn)
    (wp : Window) :
  let normalized := normalizeCityName targetCity in
  normalized <> "" ->
  primaryPath normalized (with_queue (queue w ++ [setWeatherStatus loading]) w)
  = (Throw e, wp) ->
  exists r ws,
    secondaryPath normalized wp = (r, ws)
    /\ requests (world ws) = (requests (world wp) ++ [(Wttr normalized, 6000)])%list
    /\ world (snd (fetchWeather targetCity w)) = world ws
    /\ match r with
       | Ok b => fetchWeather targetCity w = (Ok b, ws)
       | Throw _ =>
           let w' := snd (fetchWeather targetCity w) in
           fst (fetchWeather targetCity w) = Ok false
           /\ queue w' = (queue w ++ [setWeatherStatus loading; setWeatherStatus error])%list
           /\ weatherStatus (hooks (commit w')) = error
           /\ weather (hooks (commit w')) = weather (hooks (commit w))
       end.
Proof.
  intros normalized Hn Hp.
  destruct (secondaryPath normalized wp) as [r ws] eqn:Hs.
  exists r, ws. split; [reflexivity|].
  pose proof (primaryPath_outcome _ _ _ _ Hp) as (Hh1 & _ & Hq1). simpl in Hh1, Hq1.
  pose proof (secondaryPath_outcome _ _ _ _ Hs) as (Hh2 & Hr2 & Hq2).
  split; [exact Hr2|].
  rewrite (fetchWeather_unfold targetCity w Hn). cbv zeta.
  fold normalized. rewrite Hp, Hs.
  destruct r as [b|e2]; [split; reflexivity|].
  simpl. split; [reflexivity|]. split; [reflexivity|].
  assert (Eq : queue ws = (queue w ++ [setWeatherStatus loading])%list) by congruence.
  assert (Eh : hooks ws = hooks w) by congruence.
  split; [rewrite Eq, <- app_assoc; reflexivity|].
  assert (Es : run_queue (queue ws ++ [setWeatherStatus error]) (hooks ws, world ws)
               = (with_weatherStatus error
                    (with_weatherStatus loading
                       (fst (run_queue (queue w) (hooks w, world ws)))),
                  snd (run_queue (queue w) (hooks w, world ws)))).
  { rewrite Eq, Eh, !run_queue_app. simpl.
    destruct (run_queue (queue w) (hooks w, world ws)). reflexivity. }
  assert (Ec : hooks (commit (with_queue (queue ws ++ [setWeatherStatus error]) ws))
               = with_weatherStatus error
                   (with_weatherStatus loading
                      (fst (run_queue (queue w) (hooks w, world ws))))).
  { unfold commit. simpl. rewrite Es. reflexivity. }
  rewrite Ec. simpl. split; [reflexivity|].
  assert (Ew : hooks (commit w) = fst (run_queue (queue w) (hooks w, world w)))
    by now rewrite commit_state.
  rewrite Ew. now apply run_queue_weather.
Qed.

(** [fetchWeather] throws nothing, sets nothing but the weather and its
    status, and asks no endpoint. *)
Lemma fetchWeather_outcome (targetCity : string) (w : Window) r w' :
  fetchWeather targetCity w = (r, w') ->
  hooks w' = hooks w
  /\ exists b acts more,
       r = Ok b
       /\ queue w' = (queue w ++ acts)%list
       /\ forallb keeps_city acts = true
       /\ requests (world w') = (requests (world w) ++ more)%list
       /\ endpoint_requests more = [].
Proof.
  destruct (String.eqb_spec (normalizeCityName targetCity) "") as [E|E].
  - unfold fetchWeather. rewrite E. simpl. unfold bind, call, ret. simpl.
    intros [= <- <-]. simpl. split; [reflexivity|].
    exists false, [setWeatherStatus error], []. rewrite app_nil_r. auto.
  - rewrite fetchWeather_unfold by exact E. cbv zeta.
    destruct (primaryPath _ _) as [rp wp] eqn:Hp.
    apply primaryPath_outcome in Hp as (Hh & (more & Hr & He) & Hq). simpl in Hh, Hr, Hq.
    destruct rp as [b|e].
    + intros [= <- <-]. destruct Hq as [-> [info Hq]]. split; [exact Hh|].
      exists true, [setWeatherStatus loading; setWeather (Some info); setWeatherStatus ready],
        ((GeocodingSearch (normalizeCityName targetCity), 5000) :: more).
      rewrite Hq, <- app_assoc. simpl. auto.
    + destruct (secondaryPath _ _) as [rs ws] eqn:Hs.
      apply secondaryPath_outcome in Hs as (Hh' & Hr' & Hq').
      destruct rs as [b|e'].
      * intros [= <- <-]. destruct Hq' as [-> [info Hq']]. split; [congruence|].
        exists true,
          [setWeatherStatus loading; setWeather (Some info); setWeatherStatus ready],
          ((GeocodingSearch (normalizeCityName targetCity), 5000) :: more
           ++ [(Wttr (normalizeCityName targetCity), 6000)]).
        rewrite Hq', Hq, Hr', Hr, <- !app_assoc. simpl.
        repeat split; try reflexivity.
        rewrite endpoint_requests_app, He. reflexivity.
      * intros [= <- <-]. simpl. split; [congruence|].
        exists false, [setWeatherStatus loading; setWeatherStatus error],
          ((GeocodingSearch (normalizeCityName targetCity), 5000) :: more
           ++ [(Wttr (normalizeCityName targetCity), 6000)]).
        rewrite Hq', Hq, Hr', Hr, <- !app_assoc. simpl.
        repeat split; try reflexivity.
        rewrite endpoint_requests_app, He. reflexivity.
Qed.

(** What one turn of the loop does. *)
Lemma tryEndpoint_outcome (endpoint : string) (w : Window) :
  exists b w' acts more,
    tryEndpoint endpoint w = (Ok b, w')
    /\ hooks w' = hooks w
    /\ queue w' = (queue w ++ acts)%list
    /\ requests (world w') = (requests (world w) ++ (Endpoint endpoint, 3000) :: more)%list
    /\ endpoint_requests more = []
    /\ (b = true <-> endpoint_succeeds endpoint w)
    /\ if b then
         exists acts0 cityName,
           acts = (acts0 ++ [setCity cityName; setCityMode auto])%list
           /\ forallb keeps_city acts0 = true
       else forallb keeps_city acts = true.
Proof.
  unfold tryEndpoint, endpoint_succeeds, try_catch, bind, lift, ret.
  destruct (fetchJson (Endpoint endpoint) 3000 w) as [[data|e] wj] eqn:F;
    pose proof (fetchJson_after_request _ _ _ _ _ F) as (Hh & Hq & Hr).
  2: { exists false, wj, [], []. rewrite app_nil_r.
       repeat split; auto; try discriminate.
       intros (d & wj' & s & [=] & _). }
  destruct (get (Some data) "city") as [c|e] eqn:G.
  2: { exists false, wj, [], []. rewrite app_nil_r.
       repeat split; auto; try discriminate.
       intros (d & wj' & s & [= <- <-] & E2 & _). rewrite G in E2. discriminate. }
  destruct (truthy c) eqn:T.
  2: { exists false, wj, [], []. rewrite app_nil_r.
       repeat split; auto; try discriminate.
       intros (d & wj' & s & [= <- <-] & E2 & Hs & _). rewrite G in E2.
       injection E2 as ->. simpl in T. apply truthy_false in T. contradiction. }
  destruct (on_string normalizeCityName c) as [cityName|e] eqn:N.
  2: { exists false, wj, [], []. rewrite app_nil_r.
       repeat split; auto; try discriminate.
       intros (d & wj' & s & [= <- <-] & E2 & _). rewrite G in E2.
       injection E2 as ->. discriminate. }
  assert (Hc : exists s, c = Some (JString s) /\ cityName = normalizeCityName s /\ s <> "").
  { destruct c as [[]|]; try discriminate. injection N as <-. eexists. repeat split.
    intros ->. discriminate. }
  destruct Hc as (s & -> & -> & Hs).
  destruct (fetchWeather (normalizeCityName s) wj) as [r w2] eqn:W.
  pose proof (fetchWeather_outcome _ _ _ _ W) as (Hh2 & b & acts & more & -> & Hq2 & Hk & Hr2 & He).
  destruct b.
  - unfold call. cbv beta iota.
    eexists true, _, (acts ++ [setCity (normalizeCityName s); setCityMode auto])%list, more.
    split; [reflexivity|]. cbn [hooks queue world with_queue].
    split; [congruence|]. split; [rewrite Hq2, Hq, <- !app_assoc; reflexivity|].
    split; [rewrite Hr2, Hr, <- app_assoc; reflexivity|]. split; [exact He|].
    split; [|eauto].
    split; [intros _|reflexivity]. exists data, wj, s. rewrite W. auto.
  - exists false, w2, acts, more.
    split; [reflexivity|]. split; [congruence|]. split; [congruence|].
    split; [rewrite Hr2, Hr, <- app_assoc; reflexivity|]. split; [exact He|].
    split; [|exact Hk].
    split; [discriminate|].
    intros (d & wj' & s' & [= <- <-] & E2 & _ & E4). rewrite G in E2.
    injection E2 as <-. rewrite W in E4. discriminate.
Qed.

Lemma forallb_keeps_city_app (l k : list Action) :
  forallb keeps_city (l ++ k) = forallb keeps_city l && forallb keeps_city k.
Proof. apply forallb_app. Qed.

(** The loop: it throws nothing; either every endpoint was asked and no
    setter call touches the city, or it stopped at an endpoint that
    succeeded, with the two calls that commit the city as the last. *)
Lemma locateLoop_outcome (endpoints : list string) (w : Window) :
  exists w' acts tried,
    locateLoop endpoints w = (Ok tt, w')
    /\ hooks w' = hooks w
    /\ queue w' = (queue w ++ acts)%list
    /\ endpoint_requests (requests (world w'))
       = (endpoint_requests (requests (world w)) ++ tried)%list
    /\ ((tried = endpoints /\ forallb keeps_city acts = true)
        \/ exists before last rest acts0 cityName,
             tried = (before ++ [last])%list
             /\ endpoints = (tried ++ rest)%list
             /\ acts = (acts0 ++ [setCity cityName; setCityMode auto])%list
             /\ forallb keeps_city acts0 = true).
Proof.
  revert w. induction endpoints as [|endpoint rest IH]; intros w.
  - exists w, [], []. simpl. rewrite !app_nil_r. unfold ret.
    split; [reflexivity|]. split; [reflexivity|]. split; [reflexivity|].
    split; [reflexivity|]. left. split; reflexivity.
  - simpl. unfold bind.
    destruct (tryEndpoint_outcome endpoint w)
      as (b & w1 & acts1 & more & -> & Hh & Hq & Hr & He & _ & Hb).
    assert (Er : endpoint_requests (requests (world w1))
                 = (endpoint_requests (requests (world w)) ++ [endpoint])%list).
    { rewrite Hr, endpoint_requests_app. simpl. now rewrite He. }
    destruct b.
    + destruct Hb as (acts0 & cityName & -> & Hk).
      exists w1, (acts0 ++ [setCity cityName; setCityMode auto])%list, [endpoint].
      unfold ret. split; [reflexivity|]. split; [exact Hh|]. split; [exact Hq|].
      split; [exact Er|].
      right. exists [], endpoint, rest, acts0, cityName.
      split; [reflexivity|]. split; [reflexivity|]. split; [reflexivity|]. exact Hk.
    + destruct (IH w1) as (w' & acts & tried & -> & Hh' & Hq' & Hr' & Hcases).
      exists w', (acts1 ++ acts)%list, (endpoint :: tried).
      split; [reflexivity|]. split; [congruence|].
      split; [rewrite Hq', Hq, <- app_assoc; reflexivity|].
      split; [rewrite Hr', Er, <- app_assoc; reflexivity|].
      destruct Hcases as [[-> Hk] | (before & last & rest' & acts0 & cityName & -> & -> & -> & Hk)].
      * left. split; [reflexivity|]. rewrite forallb_keeps_city_app, Hb, Hk. reflexivity.
      * right. exists (endpoint :: before), last, rest', (acts1 ++ acts0)%list, cityName.
        split; [reflexivity|]. split; [reflexivity|].
        split; [now rewrite app_assoc|].
        rewrite forallb_keeps_city_app, Hb, Hk. reflexivity.
Qed.

(** One turn of the loop, with the city it commits. *)
Lemma tryEndpoint_turn (endpoint : string) (w : Window) :
  exists b w' acts more,
    tryEndpoint endpoint w = (Ok b, w')
    /\ hooks w' = hooks w
    /\ queue w' = (queue w ++ acts)%list
    /\ requests (world w') = (requests (world w) ++ (Endpoint endpoint, 3000) :: more)%list
    /\ endpoint_requests more = []
    /\ (b = true <-> endpoint_succeeds endpoint w)
    /\ if b then
         exists s acts0,
           endpoint_gives endpoint w s
           /\ acts = (acts0 ++ [setCity (normalizeCityName s); setCityMode auto])%list
           /\ forallb keeps_city acts0 = true
       else forallb keeps_city acts = true.
Proof.
  unfold tryEndpoint, endpoint_succeeds, endpoint_gives, try_catch, bind, lift, ret.
  destruct (fetchJson (Endpoint endpoint) 3000 w) as [[data|e] wj] eqn:F;
    pose proof (fetchJson_after_request _ _ _ _ _ F) as (Hh & Hq & Hr).
  2: { exists false, wj, [], []. rewrite app_nil_r.
       repeat split; auto; try discriminate.
       intros (d & wj' & s & [=] & _). }
  destruct (get (Some data) "city") as [c|e] eqn:G.
  2: { exists false, wj, [], []. rewrite app_nil_r.
       repeat split; auto; try discriminate.
       intros (d & wj' & s & [= <- <-] & E2 & _). rewrite G in E2. discriminate. }
  destruct (truthy c) eqn:T.
  2: { exists false, wj, [], []. rewrite app_nil_r.
       repeat split; auto; try discriminate.
       intros (d & wj' & s & [= <- <-] & E2 & Hs & _). rewrite G in E2.
       injection E2 as ->. simpl in T. apply truthy_false in T. contradiction. }
  destruct (on_string normalizeCityName c) as [cityName|e] eqn:N.
  2: { exists false, wj, [], []. rewrite app_nil_r.
       repeat split; auto; try discriminate.
       intros (d & wj' & s & [= <- <-] & E2 & _). rewrite G in E2.
       injection E2 as ->. discriminate. }
  assert (Hc : exists s, c = Some (JString s) /\ cityName = normalizeCityName s /\ s <> "").
  { destruct c as [[]|]; try discriminate. injection N as <-. eexists. repeat split.
    intros ->. discriminate. }
  destruct Hc as (s & -> & -> & Hs).
  destruct (fetchWeather (normalizeCityName s) wj) as [r w2] eqn:W.
  pose proof (fetchWeather_outcome _ _ _ _ W) as (Hh2 & b & acts & more & -> & Hq2 & Hk & Hr2 & He).
  destruct b.
  - unfold call. cbv beta iota.
    eexists true, _, (acts ++ [setCity (normalizeCityName s); setCityMode auto])%list, more.
    split; [reflexivity|]. cbn [hooks queue world with_queue].
    split; [congruence|]. split; [rewrite Hq2, Hq, <- !app_assoc; reflexivity|].
    split; [rewrite Hr2, Hr, <- app_assoc; reflexivity|]. split; [exact He|].
    split.
    + split; [intros _|reflexivity]. exists data, wj, s. rewrite W. auto.
    + exists s, acts. split; [|split; [reflexivity | exact Hk]].
      exists data, wj. rewrite W. auto.
  - exists false, w2, acts, more.
    split; [reflexivity|]. split; [congruence|]. split; [congruence|].
    split; [rewrite Hr2, Hr, <- app_assoc; reflexivity|]. split; [exact He|].
    split; [|exact Hk].
    split; [discriminate|].
    intros (d & wj' & s' & [= <- <-] & E2 & _ & E4). rewrite G in E2.
    injection E2 as <-. rewrite W in E4. discriminate.
Qed.

(** The loop, by the first endpoint that succeeds. *)
Lemma locateLoop_locates (endpoints : list string) (w : Window) :
  exists w' acts tried r,
    locateLoop endpoints w = (Ok tt, w')
    /\ hooks w' = hooks w
    /\ queue w' = (queue w ++ acts)%list
    /\ endpoint_requests (requests (world w'))
       = (endpoint_requests (requests (world w)) ++ tried)%list
    /\ locates endpoints w tried r
    /\ match r with
       | None => tried = endpoints /\ forallb keeps_city acts = true
       | Some cityName =>
           (exists acts0,
              acts = (acts0 ++ [setCity cityName; setCityMode auto])%list
              /\ forallb keeps_city acts0 = true)
           /\ exists before last rest,
                tried = (before ++ [last])%list /\ endpoints = (tried ++ rest)%list
       end.
Proof.
  revert w. induction endpoints as [|endpoint rest IH]; intros w.
  - exists w, [], [], None. simpl. rewrite !app_nil_r. unfold ret.
    split; [reflexivity|]. split; [reflexivity|]. split; [reflexivity|].
    split; [reflexivity|]. split; [constructor|]. split; reflexivity.
  - simpl. unfold bind.
    destruct (tryEndpoint_turn endpoint w)
      as (b & w1 & acts1 & more & Et & Hh & Hq & Hr & He & Hiff & Hb).
    rewrite Et.
    assert (Er : endpoint_requests (requests (world w1))
                 = (endpoint_requests (requests (world w)) ++ [endpoint])%list).
    { rewrite Hr, endpoint_requests_app. simpl. now rewrite He. }
    destruct b.
    + destruct Hb as (s & acts0 & Hg & -> & Hk).
      exists w1, (acts0 ++ [setCity (normalizeCityName s); setCityMode auto])%list,
        [endpoint], (Some (normalizeCityName s)).
      unfold ret. split; [reflexivity|]. split; [exact Hh|]. split; [exact Hq|].
      split; [exact Er|]. split; [now constructor|].
      split; [exists acts0; split; [reflexivity | exact Hk]|].
      exists [], endpoint, rest. split; reflexivity.
    + assert (Hfail : ~ endpoint_succeeds endpoint w).
      { intros Hs. apply Hiff in Hs. discriminate. }
      destruct (IH w1) as (w' & acts & tried & r & El & Hh' & Hq' & Hr' & Hl & Hcases).
      rewrite El.
      exists w', (acts1 ++ acts)%list, (endpoint :: tried), r.
      split; [reflexivity|]. split; [congruence|].
      split; [rewrite Hq', Hq, <- app_assoc; reflexivity|].
      split; [rewrite Hr', Er, <- app_assoc; reflexivity|].
      split.
      { apply locates_later; [exact Hfail|]. rewrite Et. exact Hl. }
      destruct r as [cityName|].
      * destruct Hcases as [(acts0 & -> & Hk) (before & last & rest' & -> & ->)].
        split.
        -- exists (acts1 ++ acts0)%list. split; [now rewrite app_assoc|].
           rewrite forallb_keeps_city_app, Hb, Hk. reflexivity.
        -- exists (endpoint :: before), last, rest'. split; reflexivity.
      * destruct Hcases as [-> Hk]. split; [reflexivity|].
        rewrite forallb_keeps_city_app, Hb, Hk. reflexivity.
Qed.

Lemma kept_ret {A} (a : A) : storage_kept (ret a).
Proof. intros w. reflexivity. Qed.

Lemma kept_throw {A} (e : exn) : storage_kept (@throw A e).
Proof. intros w. reflexivity. Qed.

Lemma kept_lift {A} (r : result A) : storage_kept (lift r).
Proof. intros w. reflexivity. Qed.

Lemma kept_call (a : Action) : storage_kept (call a).
Proof. intros w. reflexivity. Qed.

Lemma kept_fetch url timeoutMs : storage_kept (fetch url timeoutMs).
Proof.
  intros w. unfold fetch. destruct (incoming (world w)) as [|[|status body] rest];
    reflexivity.
Qed.

Lemma kept_bind {A B} (m : M A) (k : A -> M B) :
  storage_kept m -> (forall a, storage_kept (k a)) -> storage_kept (bind m k).
Proof.
  intros Hm Hk w. unfold bind. specialize (Hm w).
  destruct (m w) as [[a|e] w1]; simpl in *; [rewrite Hk|]; exact Hm.
Qed.

Lemma kept_try_catch {A} (m : M A) (handler : exn -> M A) :
  storage_kept m -> (forall e, storage_kept (handler e)) ->
  storage_kept (try_catch m handler).
Proof.
  intros Hm Hk w. unfold try_catch. specialize (Hm w).
  destruct (m w) as [[a|e] w1]; simpl in *; [|rewrite Hk]; exact Hm.
Qed.

Lemma kept_try_finally {A} (m : M A) (finalizer : M unit) :
  storage_kept m -> storage_kept finalizer -> storage_kept (try_finally m finalizer).
Proof.
  intros Hm Hf w. unfold try_finally. specialize (Hm w).
  destruct (m w) as [r w1]. specialize (Hf w1).
  destruct (finalizer w1) as [[u|e] w2]; simpl in *; congruence.
Qed.

Ltac storage_kept :=
  cbv zeta;
  repeat first
    [ apply kept_ret | apply kept_throw | apply kept_lift | apply kept_call
    | apply kept_fetch | assumption
    | match goal with H : context [storage_kept] |- _ => apply H end
    | apply kept_bind; [|intros]
    | apply kept_try_catch; [|intros]
    | apply kept_try_finally
    | match goal with
      | |- storage_kept (if ?b then _ else _) => destruct b
      | |- storage_kept (match ?x with _ => _ end) => destruct x
      end ].

Lemma kept_fetchJson url timeoutMs : storage_kept (fetchJson url timeoutMs).
Proof. unfold fetchJson. storage_kept. Qed.

Lemma kept_fetchWeather (targetCity : string) : storage_kept (fetchWeather targetCity).
Proof.
  pose proof kept_fetchJson.
  unfold fetchWeather, primaryPath, secondaryPath. storage_kept.
Qed.

Lemma kept_tryEndpoint (endpoint : string) : storage_kept (tryEndpoint endpoint).
Proof.
  pose proof kept_fetchJson. pose proof kept_fetchWeather.
  unfold tryEndpoint. storage_kept.
Qed.

Lemma kept_locateLoop (endpoints : list string) : storage_kept (locateLoop endpoints).
Proof.
  pose proof kept_tryEndpoint.
  induction endpoints as [|endpoint rest IH]; simpl; storage_kept.
Qed.

Lemma kept_locateWeather : storage_kept locateWeather.
Proof. pose proof kept_locateLoop. unfold locateWeather. storage_kept. Qed.

Lemma persist_city (before after : Hooks) (q : list Action) (st : gmap string string) :
  persist before after q st !! storageKeys.city
  = if String.eqb (city before) (city after) then st !! storageKeys.city
    else Some (Stringify.str (city after)).
Proof.
  unfold persist, saveStorage.
  destruct (existsb is_setTodos q), (existsb is_setAgenda q),
    (String.eqb (city before) (city after)),
    (CityMode_eqb (cityMode before) (cityMode after)); simpl;
    repeat (first [rewrite lookup_insert_eq; reflexivity
                  | rewrite lookup_insert_ne by discriminate]); reflexivity.
Qed.

Lemma persist_cityMode (before after : Hooks) (q : list Action)
    (st : gmap string string) :
  persist before after q st !! storageKeys.cityMode
  = if CityMode_eqb (cityMode before) (cityMode after) then st !! storageKeys.cityMode
    else Some (Stringify.cityMode (cityMode after)).
Proof.
  unfold persist, saveStorage.
  destruct (existsb is_setTodos q), (existsb is_setAgenda q),
    (String.eqb (city before) (city after)),
    (CityMode_eqb (cityMode before) (cityMode after)); simpl;
    repeat (first [rewrite lookup_insert_eq; reflexivity
                  | rewrite lookup_insert_ne by discriminate]); reflexivity.
Qed.

Lemma commit_hooks (w : Window) :
  hooks (commit w) = fst (run_queue (queue w) (hooks w, world w)).
Proof. now rewrite commit_state. Qed.

(** C9: [locateWeather] throws nothing and asks the three endpoints in
    the order of the list, until one succeeds: an endpoint that does not
    give a city whose weather resolves, whatever failed in it, is passed
    over and the next one is asked. At the first endpoint that gives a
    city whose weather resolves it stops: its last calls before the end
    of locating set the city to the normalized city of that endpoint and
    the mode to [auto], which is what the next render shows and, in a
    window whose store holds its state, what the store then holds. When
    no endpoint succeeds, all three were asked and no setter call
    touches the city or its mode, which after the next render are what
    they would have been without the call, in the state and in the
    store. One turn of the loop throws nothing: it returns from the
    function exactly when the endpoint succeeds, with the two calls that
    commit the city of that endpoint, and in every other case it leaves
    the city alone and the loop goes on with the endpoints that remain;
    with none left, the loop does nothing. *)
Theorem locateWeather_spec (w : Window) :
  (exists w' acts tried r,
     locateWeather w = (Ok tt, w')
     /\ queue w'
        = (queue w ++ [setIsLocating true] ++ acts ++ [setIsLocating false])%list
     /\ endpoint_requests (requests (world w'))
        = (endpoint_requests (requests (world w)) ++ tried)%list
     /\ locates ipEndpoints (with_queue (queue w ++ [setIsLocating true]) w) tried r
     /\ match r with
        | None =>
            tried = ipEndpoints
            /\ forallb keeps_city acts = true
            /\ city (hooks (commit w')) = city (hooks (commit w))
            /\ cityMode (hooks (commit w')) = cityMode (hooks (commit w))
            /\ localStorage (commit w') !! storageKeys.city
               = localStorage (commit w) !! storageKeys.city
            /\ localStorage (commit w') !! storageKeys.cityMode
               = localStorage (commit w) !! storageKeys.cityMode
        | Some cityName =>
            (exists acts0,
               acts = (acts0 ++ [setCity cityName; setCityMode auto])%list
               /\ forallb keeps_city acts0 = true)
            /\ (exists before last rest,
                  tried = (before ++ [last])%list
                  /\ ipEndpoints = (tried ++ rest)%list)
            /\ city (hooks (commit w')) = cityName
            /\ cityMode (hooks (commit w')) = auto
            /\ (persisted w ->
                localStorage (commit w') !! storageKeys.city
                = Some (Stringify.str cityName)
                /\ localStorage (commit w') !! storageKeys.cityMode
                   = Some (Stringify.cityMode auto))
        end)
  /\ (forall endpoint rest w0,
        exists b w1 acts more,
          tryEndpoint endpoint w0 = (Ok b, w1)
          /\ (b = true <-> endpoint_succeeds endpoint w0)
          /\ hooks w1 = hooks w0
          /\ queue w1 = (queue w0 ++ acts)%list
          /\ requests (world w1)
             = (requests (world w0) ++ (Endpoint endpoint, 3000) :: more)%list
          /\ endpoint_requests more = []
          /\ (if b then
                exists s acts0,
                  endpoint_gives endpoint w0 s
                  /\ acts = (acts0 ++ [setCity (normalizeCityName s);
                                       setCityMode auto])%list
                  /\ forallb keeps_city acts0 = true
              else forallb keeps_city acts = true)
          /\ locateLoop (endpoint :: rest) w0
             = if b then (Ok tt, w1) else locateLoop rest w1)
  /\ (forall w0, locateLoop [] w0 = (Ok tt, w0))
  /\ ipEndpoints
     = ["https://ipwho.is/"; "https://ipapi.co/json/"; "https://geolocation-db.com/json/"].
Proof.
  split; [|split; [|split; reflexivity]].
  - pose proof (kept_locateLoop ipEndpoints
                  (with_queue (queue w ++ [setIsLocating true]) w)) as Hst.
    unfold locateWeather, bind, call, try_finally. cbv beta iota.
    destruct (locateLoop_locates ipEndpoints
                (with_queue (queue w ++ [setIsLocating true]) w))
      as (w1 & acts & tried & r & E & Hh & Hq & Hr & Hl & Hcases).
    rewrite E in Hst |- *.
    simpl in Hh, Hq, Hr, Hst.
    exists (with_queue (queue w1 ++ [setIsLocating false]) w1), acts, tried, r.
    split; [reflexivity|]. simpl.
    split; [rewrite Hq, <- !app_assoc; reflexivity|].
    split; [exact Hr|]. split; [exact Hl|].
    assert (Eh : hooks (commit (with_queue (queue w1 ++ [setIsLocating false]) w1))
                 = fst (run_queue ([setIsLocating true] ++ acts ++ [setIsLocating false])
                          (run_queue (queue w) (hooks w, world w1)))).
    { rewrite commit_hooks. simpl. rewrite Hq, Hh, <- !app_assoc, run_queue_app.
      reflexivity. }
    pose proof (run_queue_city (queue w) (hooks w, world w1) (hooks w, world w)
                  (conj eq_refl eq_refl)) as [Ec Em].
    destruct r as [cityName|].
    + destruct Hcases as [(acts0 & -> & Hk) Hstop].
      split; [exists acts0; split; [reflexivity | exact Hk]|].
      split; [exact Hstop|].
      assert (Ecity : city (hooks (commit (with_queue (queue w1 ++ [setIsLocating false])
                                             w1))) = cityName
                      /\ cityMode (hooks (commit (with_queue
                                                    (queue w1 ++ [setIsLocating false])
                                                    w1))) = auto).
      { rewrite Eh.
        replace ([setIsLocating true]
                 ++ (acts0 ++ [setCity cityName; setCityMode auto])
                 ++ [setIsLocating false])%list
          with (([setIsLocating true] ++ acts0)
                ++ [setCity cityName; setCityMode auto; setIsLocating false])%list
          by (simpl; rewrite <- app_assoc; reflexivity).
        rewrite run_queue_app.
        destruct (run_queue ([setIsLocating true] ++ acts0)
                    (run_queue (queue w) (hooks w, world w1))) as [h' wd'].
        split; reflexivity. }
      destruct Ecity as [Ecity Emode].
      split; [exact Ecity|]. split; [exact Emode|].
      intros Hp.
      assert (Hp' : persisted (commit (with_queue (queue w1 ++ [setIsLocating false]) w1))).
      { apply commit_persisted. unfold persisted. cbn [hooks localStorage with_queue].
        rewrite Hh, Hst. exact Hp. }
      destruct Hp' as (_ & _ & Pc & Pm). rewrite Ecity in Pc. rewrite Emode in Pm.
      split; assumption.
    + destruct Hcases as [-> Hk].
      split; [reflexivity|]. split; [exact Hk|].
      rewrite Eh.
      rewrite !commit_hooks, <- Ec, <- Em.
      assert (Hk' : forallb keeps_city
                      ([setIsLocating true] ++ acts ++ [setIsLocating false]) = true).
      { simpl. rewrite forallb_keeps_city_app, Hk. reflexivity. }
      destruct (run_queue_keeps_city _
                  (run_queue (queue w) (hooks w, world w1)) Hk') as (E1 & E2 & _).
      split; [assumption|]. split; [assumption|].
      rewrite !commit_localStorage, persist_city, persist_cityMode, persist_city,
        persist_cityMode, Eh, !commit_hooks.
      cbn [hooks localStorage with_queue].
      rewrite Hst, Hh, E1, E2, Ec, Em. split; reflexivity.
  - intros endpoint rest w0.
    destruct (tryEndpoint_turn endpoint w0)
      as (b & w1 & acts & more & Ht & Hh & Hq & Hr & He & Hb & Hc).
    exists b, w1, acts, more.
    split; [exact Ht|]. split; [exact Hb|]. split; [exact Hh|]. split; [exact Hq|].
    split; [exact Hr|]. split; [exact He|]. split; [exact Hc|].
    simpl. unfold bind. rewrite Ht. destruct b; reflexivity.
Qed.

(** ** Concrete windows *)


(** "Standup" at "09:00" with no location. *)
Lemma addAgenda_spec_witness :
  exists item,
    agenda (hooks (commit (handled op_addAgenda (run standup (first_window (ticking []))))))
    = [item]
    /\ AgendaItem.title item = "Standup"
    /\ AgendaItem.location item = "待定".
Proof.
  assert (Ht : AgendaForm.title (agendaForm (hooks (run standup (first_window (ticking [])))))
               <> "") by (vm_compute; discriminate).
  assert (Hm : AgendaForm.time (agendaForm (hooks (run standup (first_window (ticking [])))))
               <> "") by (vm_compute; discriminate).
  destruct (proj2 (addAgenda_spec _) Ht Hm) as (_ & item & Ha & _ & Hti & _ & Hl & _).
  exists item. split; [exact Ha|]. split; [exact Hti | apply Hl; reflexivity].
Defined.

(** An input of spaces keeps "上海"; " Ningbo " gives "Ningbo". *)
Lemma city_editor_commit_witness :
  city (hooks (commit (handled (op_cityBlur "   ") (first_window (ticking []))))) = "上海"
  /\ city (hooks (commit (handled (op_cityBlur " Ningbo ") (first_window (ticking [])))))
     = "Ningbo".
Proof.
  split.
  - apply (proj1 (proj2 (proj2 (city_editor_commit "   " (first_window (ticking [])))))).
    reflexivity.
  - apply (proj2 (proj2 (proj2 (city_editor_commit " Ningbo " (first_window (ticking [])))))).
    vm_compute. discriminate.
Defined.

(** A day of events on the first window. *)
Lemma persisted_after_each_render_witness :
  persisted (run busy_day (first_window (ticking []))).
Proof.
  assert (H : persisted (first_window (ticking [])))
    by (repeat split; vm_compute; reflexivity).
  exact (proj1 (persisted_after_each_render busy_day (first_window (ticking [])) H)).
Defined.

(** When [addTodo] has returned, the store still holds the empty list;
    the item is in the state, and in the store, after the render. *)
Lemma addTodo_returns_before_store :
  let w := run milk (first_window (ticking [])) in
  let item := milk_item "1700000000000" in
  fst (addTodo w) = Ok tt
  /\ localStorage (handled op_addTodo w) !! storageKeys.todos = Some "[]"
  /\ todos (hooks (commit (handled op_addTodo w))) = [item]
  /\ localStorage (commit (handled op_addTodo w)) !! storageKeys.todos
     = Some (Stringify.todos [item])
  /\ Stringify.todos [item] <> "[]".
Proof. vm_compute. repeat split. discriminate. Qed.

(** Two todos and an agenda entry, with a clock that advances between
    identifiers. *)
Lemma ids_stay_unique_witness :
  List.NoDup
    (map TodoItem.id
       (todos (hooks (run (milk ++ [op_addTodo] ++ milk ++ [op_addTodo]
                           ++ standup ++ [op_addAgenda])
                          (first_window (ticking []))))))
  /\ List.NoDup
       (map AgendaItem.id
          (agenda (hooks (run (milk ++ [op_addTodo] ++ milk ++ [op_addTodo]
                              ++ standup ++ [op_addAgenda])
                             (first_window (ticking []))))))
  /\ length (todos (hooks (run (milk ++ [op_addTodo] ++ milk ++ [op_addTodo]
                               ++ standup ++ [op_addAgenda])
                              (first_window (ticking []))))) = 2%nat.
Proof.
  destruct (ids_stay_unique (milk ++ [op_addTodo] ++ milk ++ [op_addTodo]
                             ++ standup ++ [op_addAgenda])
              false None first_hooks ∅ (ticking [])
              eq_refl eq_refl eq_refl (ticking_never_repeats [])) as (H1 & H2 & _).
  split; [exact H1|]. split; [exact H2|]. vm_compute. reflexivity.
Defined.


(** Without [crypto.randomUUID], two todos added within one millisecond
    get the same identifier, from empty collections and by [addTodo]
    alone: the identifiers of the list are not pairwise distinct. *)
Lemma same_millisecond_same_id :
  map TodoItem.id
    (todos (hooks (run (milk ++ [op_addTodo] ++ milk ++ [op_addTodo])
                       (first_window frozen_clock))))
  = ["1700000000000"; "1700000000000"]
  /\ ~ List.NoDup
        (map TodoItem.id
           (todos (hooks (run (milk ++ [op_addTodo] ++ milk ++ [op_addTodo])
                              (first_window frozen_clock))))).
Proof.
  assert (E : map TodoItem.id
                (todos (hooks (run (milk ++ [op_addTodo] ++ milk ++ [op_addTodo])
                                   (first_window frozen_clock))))
              = ["1700000000000"; "1700000000000"]) by (vm_compute; reflexivity).
  split; [exact E|]. rewrite E. intros H.
  apply List.NoDup_cons_iff in H as [H _]. apply H. left. reflexivity.
Qed.

(** No request is answered: both paths are tried, in order, and the
    status ends as [error] with no weather shown before or after. *)
Lemma fetchWeather_fallback_witness :
  let w := first_window (ticking [NoResponse; NoResponse]) in
  fst (fetchWeather "Shanghai" w) = Ok false
  /\ requests (world (snd (fetchWeather "Shanghai" w)))
     = [(GeocodingSearch "上海", 5000); (Wttr "上海", 6000)]
  /\ weatherStatus (hooks (commit (snd (fetchWeather "Shanghai" w)))) = error
  /\ weather (hooks (commit (snd (fetchWeather "Shanghai" w)))) = None.
Proof.
  cbv zeta.
  assert (Hn : normalizeCityName "Shanghai" <> "") by (vm_compute; discriminate).
  assert (Hp : primaryPath (normalizeCityName "Shanghai")
                 (with_queue (queue (first_window (ticking [NoResponse; NoResponse]))
                              ++ [setWeatherStatus loading])
                    (first_window (ticking [NoResponse; NoResponse])))
               = (Throw FetchError,
                  snd (primaryPath (normalizeCityName "Shanghai")
                         (with_queue
                            (queue (first_window (ticking [NoResponse; NoResponse]))
                             ++ [setWeatherStatus loading])
                            (first_window (ticking [NoResponse; NoResponse]))))))
    by (vm_compute; reflexivity).
  destruct (fetchWeather_fallback "Shanghai" _ _ _ Hn Hp) as (r & ws & Hs & Hr & Hw & Hm).
  vm_compute in Hs. injection Hs as <- <-.
  cbv zeta in Hm. destruct Hm as (H1 & _ & H3 & H4).
  split; [exact H1|]. split; [vm_compute; reflexivity|]. split; [exact H3|].
  rewrite H4. vm_compute. reflexivity.
Defined.

(** The first endpoint gives a city whose weather fails on both paths:
    it is passed over, the second endpoint is asked next and succeeds,
    and its city is committed; the third is not asked. *)
Lemma locateWeather_spec_witness :
  locates ipEndpoints
    (with_queue (queue (first_window second_endpoint_answers) ++ [setIsLocating true])
       (first_window second_endpoint_answers))
    ["https://ipwho.is/"; "https://ipapi.co/json/"] (Some "杭州")
  /\ city (hooks (commit (snd (locateWeather (first_window second_endpoint_answers)))))
     = "杭州".
Proof.
  destruct (proj1 (locateWeather_spec (first_window second_endpoint_answers)))
    as (w' & acts & tried & r & E & _ & Hr & Hl & Hc).
  assert (Ew : w' = snd (locateWeather (first_window second_endpoint_answers)))
    by now rewrite E.
  assert (Et : tried = ["https://ipwho.is/"; "https://ipapi.co/json/"]).
  { rewrite Ew in Hr. vm_compute in Hr. symmetry. exact Hr. }
  assert (Ecity : city (hooks (commit (snd (locateWeather
                                              (first_window second_endpoint_answers)))))
                  = "杭州") by (vm_compute; reflexivity).
  split; [|exact Ecity].
  destruct r as [cityName|].
  - destruct Hc as (_ & _ & Hcity & _). rewrite Ew, Ecity in Hcity.
    rewrite <- Et, Hcity. exact Hl.
  - destruct Hc as [Hall _]. rewrite Et in Hall. discriminate Hall.
Defined.

(** The first endpoint gives a city, the weather of it fails on both
    paths, and the second endpoint is asked next; its city resolves and
    is committed with the mode [auto], and the third is not asked. *)
Lemma second_endpoint_after_weather_failure :
  let w' := snd (locateWeather (first_window second_endpoint_answers)) in
  requests (world w')
  = [(Endpoint "https://ipwho.is/", 3000); (GeocodingSearch "宁波", 5000);
     (Wttr "宁波", 6000); (Endpoint "https://ipapi.co/json/", 3000);
     (GeocodingSearch "杭州", 5000);
     (Forecast (Some (JNumber 3029 (-2))) (Some (JNumber 12016 (-2))), 5000)]
  /\ city (hooks (commit w')) = "杭州"
  /\ cityMode (hooks (commit w')) = auto
  /\ weatherStatus (hooks (commit w')) = ready
  /\ option_map WeatherInfo.condition (weather (hooks (commit w'))) = Some "雨".
Proof. vm_compute. repeat split. Qed.

(** No endpoint answers: the three are asked in order, and the city and
    its mode stay what they were. *)
Lemma no_endpoint_answers :
  let w := mount false None (with_cityMode manual first_hooks) ∅ (ticking []) in
  let w' := snd (locateWeather w) in
  endpoint_requests (requests (world w')) = ipEndpoints
  /\ city (hooks (commit w')) = "上海"
  /\ cityMode (hooks (commit w')) = manual
  /\ localStorage (commit w') !! storageKeys.city = Some (quoted "上海")
  /\ localStorage (commit w') !! storageKeys.cityMode = Some (quoted "manual").
Proof. vm_compute. repeat split. Qed.

(** * Further properties *)

(** ** Events on the lists *)

Lemma commit_settled (w : Window) :
  queue w = [] -> hooks (commit w) = hooks w /\ world (commit w) = world w.
Proof.
  intros E. pose proof (commit_state w) as H. rewrite E in H. simpl in H.
  injection H as <- <-. split; reflexivity.
Qed.

(** The state after an event, from the state of the render before it. *)
Lemma step_state (op : Op) (w : Window) (acts : list Action) :
  handler op w = (Ok tt, with_queue (queue w ++ acts) w) ->
  (hooks (step w op), world (step w op))
  = run_queue acts (hooks (commit w), world (commit w)).
Proof.
  intros E. unfold step, handled. rewrite E. simpl. apply commit_enqueued.
Qed.

Lemma step_settled (op : Op) (w : Window) : queue (step w op) = [].
Proof. apply commit_queue. Qed.

Lemma toggleTodo_state (id : string) (w : Window) :
  todos (hooks (step w (op_toggleTodo id))) = map (toggle id) (todos (hooks (commit w))).
Proof.
  assert (E : handler (op_toggleTodo id) w
              = (Ok tt, with_queue (queue w ++ [setTodos (fun prev wd =>
                                                   (map (toggle id) prev, wd))]) w))
    by reflexivity.
  apply step_state in E. simpl in E. injection E as -> _. reflexivity.
Qed.

Lemma deleteTodo_state (id : string) (w : Window) :
  todos (hooks (step w (op_deleteTodo id)))
  = List.filter (fun item => negb (String.eqb (TodoItem.id item) id))
      (todos (hooks (commit w))).
Proof.
  assert (E : handler (op_deleteTodo id) w
              = (Ok tt, with_queue (queue w ++ [setTodos (fun prev wd =>
                  (List.filter (fun item => negb (String.eqb (TodoItem.id item) id)) prev,
                   wd))]) w))
    by reflexivity.
  apply step_state in E. simpl in E. injection E as -> _. reflexivity.
Qed.

Lemma deleteAgenda_state (id : string) (w : Window) :
  agenda (hooks (step w (op_deleteAgenda id)))
  = List.filter (fun item => negb (String.eqb (AgendaItem.id item) id))
      (agenda (hooks (commit w))).
Proof.
  assert (E : handler (op_deleteAgenda id) w
              = (Ok tt, with_queue (queue w ++ [setAgenda (fun prev wd =>
                  (List.filter (fun item => negb (String.eqb (AgendaItem.id item) id)) prev,
                   wd))]) w))
    by reflexivity.
  apply step_state in E. simpl in E. injection E as -> _. reflexivity.
Qed.

Lemma toggle_toggle (id : string) (item : TodoItem.t) :
  toggle id (toggle id item) = item.
Proof.
  unfold toggle. destruct (String.eqb (TodoItem.id item) id) eqn:E; simpl.
  - rewrite E, negb_involutive. destruct item; reflexivity.
  - rewrite E. reflexivity.
Qed.

(** A render with nothing queued changes nothing. *)
Lemma commit_idle (w : Window) : queue w = [] -> commit w = w.
Proof.
  destruct w as [d m h q st wd]. simpl. intros ->. unfold commit, persist. simpl.
  rewrite String.eqb_refl. destruct (cityMode h); reflexivity.
Qed.

Lemma commit_of_step (op : Op) (w : Window) :
  hooks (commit (step w op)) = hooks (step w op).
Proof. apply commit_settled, step_settled. Qed.

(** X1: toggling the same identifier twice, each toggle followed by its
    render, gives back the list of todos as it was. *)
Theorem toggleTodo_twice (id : string) (w : Window) :
  todos (hooks (run [op_toggleTodo id; op_toggleTodo id] w)) = todos (hooks (commit w)).
Proof.
  simpl. rewrite toggleTodo_state, commit_of_step, toggleTodo_state, map_map.
  rewrite <- (map_id (todos (hooks (commit w)))) at 2.
  apply map_ext. apply toggle_toggle.
Qed.

(** X2: a toggle keeps the number and the order of the todos and the
    identifier, title, time and priority of each; it negates [done] on
    exactly the items that carry the identifier, which leaves the list
    as it was when none does. *)
Theorem toggleTodo_only_done (id : string) (w : Window) :
  let before := todos (hooks (commit w)) in
  let after := todos (hooks (step w (op_toggleTodo id))) in
  Forall2 (fun b a =>
             TodoItem.id a = TodoItem.id b /\ TodoItem.title a = TodoItem.title b
             /\ TodoItem.time a = TodoItem.time b
             /\ TodoItem.priority a = TodoItem.priority b
             /\ TodoItem.done a
                = if String.eqb (TodoItem.id b) id then negb (TodoItem.done b)
                  else TodoItem.done b)
          before after
  /\ (~ In id (map TodoItem.id before) -> after = before).
Proof.
  cbv zeta. rewrite toggleTodo_state.
  induction (todos (hooks (commit w))) as [|item l [IH1 IH2]]; simpl.
  - split; [constructor | reflexivity].
  - split.
    + constructor; [|exact IH1]. unfold toggle.
      destruct (String.eqb (TodoItem.id item) id); simpl; auto.
    + intros Hn. rewrite IH2 by tauto. f_equal. unfold toggle.
      destruct (String.eqb_spec (TodoItem.id item) id); [tauto | reflexivity].
Qed.

Lemma filter_sublist {A} (f : A -> bool) (l : list A) : sublist (List.filter f l) l.
Proof.
  induction l as [|a l IH]; simpl; [constructor|].
  destruct (f a); constructor; exact IH.
Qed.

Lemma filter_all {A} (f : A -> bool) (l : list A) :
  (forall x, In x l -> f x = true) -> List.filter f l = l.
Proof.
  induction l as [|a l IH]; simpl; intros H; [reflexivity|].
  rewrite (H a) by auto. f_equal. apply IH. auto.
Qed.

(** X3: after [deleteTodo], no todo carries the identifier, every other
    todo is kept, and the todos that remain are in the order they had;
    the list is as it was when no todo carries the identifier. *)
Theorem deleteTodo_spec (id : string) (w : Window) :
  let before := todos (hooks (commit w)) in
  let after := todos (hooks (step w (op_deleteTodo id))) in
  ~ In id (map TodoItem.id after)
  /\ (forall item, In item after <-> In item before /\ TodoItem.id item <> id)
  /\ sublist after before
  /\ (~ In id (map TodoItem.id before) -> after = before).
Proof.
  cbv zeta. rewrite deleteTodo_state.
  set (keep := fun item => negb (String.eqb (TodoItem.id item) id)).
  assert (Hk : forall item, keep item = true <-> TodoItem.id item <> id).
  { intros item. unfold keep. destruct (String.eqb_spec (TodoItem.id item) id);
      simpl; split; congruence. }
  split; [|split; [|split]].
  - rewrite in_map_iff. intros (item & E & Hin). apply filter_In in Hin as [_ Hin].
    apply Hk in Hin. contradiction.
  - intros item. rewrite filter_In, Hk. reflexivity.
  - apply filter_sublist.
  - intros Hn. apply filter_all. intros item Hin. apply Hk. intros E. apply Hn.
    rewrite <- E. now apply in_map.
Qed.

(** X4: the same for [deleteAgenda] and the agenda entries. *)
Theorem deleteAgenda_spec (id : string) (w : Window) :
  let before := agenda (hooks (commit w)) in
  let after := agenda (hooks (step w (op_deleteAgenda id))) in
  ~ In id (map AgendaItem.id after)
  /\ (forall item, In item after <-> In item before /\ AgendaItem.id item <> id)
  /\ sublist after before
  /\ (~ In id (map AgendaItem.id before) -> after = before).
Proof.
  cbv zeta. rewrite deleteAgenda_state.
  set (keep := fun item => negb (String.eqb (AgendaItem.id item) id)).
  assert (Hk : forall item, keep item = true <-> AgendaItem.id item <> id).
  { intros item. unfold keep. destruct (String.eqb_spec (AgendaItem.id item) id);
      simpl; split; congruence. }
  split; [|split; [|split]].
  - rewrite in_map_iff. intros (item & E & Hin). apply filter_In in Hin as [_ Hin].
    apply Hk in Hin. contradiction.
  - intros item. rewrite filter_In, Hk. reflexivity.
  - apply filter_sublist.
  - intros Hn. apply filter_all. intros item Hin. apply Hk. intros E. apply Hn.
    rewrite <- E. now apply in_map.
Qed.

(** X5: after an [addTodo] that adds, the form has an empty title and
    an empty time and keeps its priority, the panel is closed in desktop
    mode and left alone otherwise, the number of todos done is the one
    of before, and an [addTodo] that follows at once is refused: the
    window is left as it is, so the item is not added twice. *)
Theorem addTodo_resets_form (w : Window) :
  TodoForm.title (todoForm (hooks w)) <> "" ->
  TodoForm.time (todoForm (hooks w)) <> "" ->
  let w1 := step w op_addTodo in
  todoForm (hooks w1)
  = {| TodoForm.title := ""; TodoForm.time := "";
       TodoForm.priority := TodoForm.priority (todoForm (hooks w)) |}
  /\ activePanel (hooks w1)
     = (if desktopMode w then None else activePanel (hooks (commit w)))
  /\ todoDone (todos (hooks w1)) = todoDone (todos (hooks (commit w)))
  /\ addTodo w1 = (Ok tt, w1)
  /\ step w1 op_addTodo = w1.
Proof.
  intros Ht Hm w1.
  pose proof (step_state op_addTodo w _ (addTodo_calls w Ht Hm)) as E.
  rewrite run_queue_app in E. unfold closing_panel in E.
  assert (Hform : todoForm (hooks w1)
                  = {| TodoForm.title := ""; TodoForm.time := "";
                       TodoForm.priority := TodoForm.priority (todoForm (hooks w)) |}
                  /\ activePanel (hooks w1)
                     = (if desktopMode w then None else activePanel (hooks (commit w)))
                  /\ todoDone (todos (hooks w1)) = todoDone (todos (hooks (commit w)))).
  { unfold w1. destruct (desktopMode w); simpl in E; injection E as -> _; simpl;
      unfold todoDone; rewrite List.filter_app; simpl; rewrite app_nil_r; auto. }
  destruct Hform as (Hf & Hp & Hd).
  assert (Hno : addTodo w1 = (Ok tt, w1)).
  { apply addTodo_noop. left. rewrite Hf. reflexivity. }
  split; [exact Hf|]. split; [exact Hp|]. split; [exact Hd|]. split; [exact Hno|].
  unfold step at 1, handled, handler. rewrite Hno. simpl.
  apply commit_idle, step_settled.
Qed.

Lemma addTodo_resets_form_witness :
  let w1 := step (run milk (first_window (ticking []))) op_addTodo in
  TodoForm.title (todoForm (hooks w1)) = ""
  /\ TodoForm.priority (todoForm (hooks w1)) = "高"
  /\ todos (hooks (step w1 op_addTodo)) = [milk_item "1700000000000"].
Proof.
  cbv zeta.
  assert (Ht : TodoForm.title (todoForm (hooks (run milk (first_window (ticking [])))))
               <> "") by (vm_compute; discriminate).
  assert (Hm : TodoForm.time (todoForm (hooks (run milk (first_window (ticking [])))))
               <> "") by (vm_compute; discriminate).
  destruct (addTodo_resets_form _ Ht Hm) as (Hf & _ & _ & _ & Hs).
  rewrite Hs, Hf. repeat split; vm_compute; reflexivity.
Defined.

(** ** The desktop peek *)

Lemma Array_slice_last_two {A} (l : list A) :
  Array_slice l (-2) None = skipn (length l - 2) l.
Proof.
  unfold Array_slice, Js.clamp_index. simpl.
  assert (E : Z.to_nat (Z.max (Z.of_nat (length l) + -2) 0) = (length l - 2)%nat) by lia.
  rewrite E. apply firstn_all2. rewrite length_skipn. lia.
Qed.

Lemma peek_rev {A} (l : list A) : peek l = firstn 2 (List.rev l).
Proof.
  unfold peek. destruct l as [|x l]; [reflexivity|].
  rewrite Array_slice_last_two, firstn_rev. reflexivity.
Qed.

(** X6: the rows of a peek are the last two entries of the list, the
    newest first; a list of one entry gives that entry and an empty
    list gives no row. *)
Theorem peek_newest_first {A} (l : list A) :
  peek l = firstn 2 (List.rev l)
  /\ (forall older a b, l = (older ++ [a; b])%list -> peek l = [b; a])
  /\ (length (peek (A := A) l) <= 2)%nat.
Proof.
  pose proof (peek_rev l) as E.
  split; [exact E|]. split.
  - intros older a b ->. rewrite E, rev_app_distr. reflexivity.
  - rewrite E, length_firstn. lia.
Qed.

(** X7: after an [addTodo] that adds, the first row of the peek is the
    new todo and the second is the row that was first before. *)
Theorem peek_after_addTodo (w : Window) :
  TodoForm.title (todoForm (hooks w)) <> "" ->
  TodoForm.time (todoForm (hooks w)) <> "" ->
  peek (todos (hooks (step w op_addTodo)))
  = (todo_of_form (todoForm (hooks w)) (fst (createId (world (commit w))))
     :: firstn 1 (peek (todos (hooks (commit w)))))%list.
Proof.
  intros Ht Hm.
  pose proof (step_state op_addTodo w _ (addTodo_calls w Ht Hm)) as E.
  rewrite run_queue_app in E. unfold closing_panel in E.
  assert (Et : todos (hooks (step w op_addTodo))
               = (todos (hooks (commit w))
                  ++ [todo_of_form (todoForm (hooks w)) (fst (createId (world (commit w))))])%list).
  { destruct (desktopMode w); simpl in E; injection E as -> _; reflexivity. }
  rewrite Et.
  rewrite !peek_rev.
  rewrite rev_app_distr. simpl.
  destruct (List.rev (todos (hooks (commit w)))) as [|y [|z r]]; reflexivity.
Qed.

Lemma peek_after_addTodo_witness :
  peek (todos (hooks (step (run milk (first_window (ticking []))) op_addTodo)))
  = [milk_item "1700000000000"].
Proof.
  assert (Ht : TodoForm.title (todoForm (hooks (run milk (first_window (ticking [])))))
               <> "") by (vm_compute; discriminate).
  assert (Hm : TodoForm.time (todoForm (hooks (run milk (first_window (ticking [])))))
               <> "") by (vm_compute; discriminate).
  rewrite (peek_after_addTodo _ Ht Hm).
  vm_compute. reflexivity.
Defined.

(** ** What an event leaves alone *)

Lemma run_queue_keeps_weather (q : list Action) (s : Hooks * World) :
  forallb keeps_weather q = true ->
  city (fst (run_queue q s)) = city (fst s)
  /\ cityMode (fst (run_queue q s)) = cityMode (fst s)
  /\ weather (fst (run_queue q s)) = weather (fst s)
  /\ weatherStatus (fst (run_queue q s)) = weatherStatus (fst s).
Proof.
  revert s. induction q as [|a q IH]; intros s H; simpl in *; [auto|].
  apply andb_true_iff in H as [Ha Hq].
  unfold run_queue in *. destruct (IH (reduce s a) Hq) as (-> & -> & -> & ->).
  destruct s as [h wd], a; simpl in *; try discriminate; auto;
    destruct (f _ wd); auto.
Qed.

Lemma run_queue_keeps_lists (q : list Action) (s : Hooks * World) :
  forallb keeps_lists q = true ->
  todos (fst (run_queue q s)) = todos (fst s)
  /\ agenda (fst (run_queue q s)) = agenda (fst s)
  /\ todoForm (fst (run_queue q s)) = todoForm (fst s)
  /\ agendaForm (fst (run_queue q s)) = agendaForm (fst s)
  /\ snd (run_queue q s) = snd s.
Proof.
  revert s. induction q as [|a q IH]; intros s H; simpl in *; [auto 6|].
  apply andb_true_iff in H as [Ha Hq].
  unfold run_queue in *. destruct (IH (reduce s a) Hq) as (-> & -> & -> & -> & ->).
  destruct s as [h wd], a; simpl in *; try discriminate; auto 6.
Qed.

Lemma handler_frame (op : Op) (w : Window) :
  exists acts,
    handler op w = (Ok tt, with_queue (queue w ++ acts) w)
    /\ (if is_city_op op then forallb keeps_lists acts
        else forallb keeps_weather acts) = true.
Proof.
  assert (Hnil : (Ok tt, w) = (Ok tt, with_queue (queue w ++ []) w)).
  { rewrite app_nil_r. destruct w; reflexivity. }
  destruct op; simpl;
    try (eexists; split;
         [unfold changeTodoForm, changeAgendaForm, toggleTodo, deleteTodo,
            deleteAgenda, call; reflexivity
         | reflexivity]).
  - destruct (String.eqb_spec (TodoForm.title (todoForm (hooks w))) "") as [E|E];
      [|destruct (String.eqb_spec (TodoForm.time (todoForm (hooks w))) "") as [E'|E']].
    + exists []. rewrite addTodo_noop by auto. split; [exact Hnil | reflexivity].
    + exists []. rewrite addTodo_noop by auto. split; [exact Hnil | reflexivity].
    + eexists. split; [apply addTodo_calls; assumption|].
      unfold closing_panel. destruct (desktopMode w); reflexivity.
  - destruct (String.eqb_spec (AgendaForm.title (agendaForm (hooks w))) "") as [E|E];
      [|destruct (String.eqb_spec (AgendaForm.time (agendaForm (hooks w))) "") as [E'|E']].
    + exists []. rewrite addAgenda_noop by auto. split; [exact Hnil | reflexivity].
    + exists []. rewrite addAgenda_noop by auto. split; [exact Hnil | reflexivity].
    + eexists. split; [apply addAgenda_calls; assumption|].
      unfold closing_panel. destruct (desktopMode w); reflexivity.
  - eexists. split; [apply cityInput_calls | reflexivity].
  - unfold cityInput_onKeyDown. destruct (String.eqb key "Enter").
    + eexists. split; [apply cityInput_calls | reflexivity].
    + exists []. split; [exact Hnil | reflexivity].
Qed.

Lemma step_frame (op : Op) (w : Window) :
  let before := commit w in
  let after := step w op in
  if is_city_op op then
    todos (hooks after) = todos (hooks before)
    /\ agenda (hooks after) = agenda (hooks before)
    /\ todoForm (hooks after) = todoForm (hooks before)
    /\ agendaForm (hooks after) = agendaForm (hooks before)
    /\ created (world after) = created (world before)
  else
    city (hooks after) = city (hooks before)
    /\ cityMode (hooks after) = cityMode (hooks before)
    /\ weather (hooks after) = weather (hooks before)
    /\ weatherStatus (hooks after) = weatherStatus (hooks before).
Proof.
  cbv zeta. destruct (handler_frame op w) as (acts & E & Hk).
  pose proof (step_state op w acts E) as S.
  assert (Sh : hooks (step w op) = fst (run_queue acts (hooks (commit w), world (commit w))))
    by now rewrite <- S.
  assert (Sw : world (step w op) = snd (run_queue acts (hooks (commit w), world (commit w))))
    by now rewrite <- S.
  rewrite Sh, Sw. destruct (is_city_op op).
  - destruct (run_queue_keeps_lists acts (hooks (commit w), world (commit w)) Hk)
      as (-> & -> & -> & -> & ->). auto.
  - apply (run_queue_keeps_weather acts (hooks (commit w), world (commit w)) Hk).
Qed.

(** X8: an event on the lists or the forms leaves the city, its mode,
    the weather and its status as the render would have shown them
    without it; a commit of the city editor leaves the two lists, the
    two forms and the identifiers made as they would have been. *)
Theorem events_keep_apart (op : Op) (w : Window) :
  let before := commit w in
  let after := step w op in
  if is_city_op op then
    todos (hooks after) = todos (hooks before)
    /\ agenda (hooks after) = agenda (hooks before)
    /\ todoForm (hooks after) = todoForm (hooks before)
    /\ agendaForm (hooks after) = agendaForm (hooks before)
    /\ created (world after) = created (world before)
  else
    city (hooks after) = city (hooks before)
    /\ cityMode (hooks after) = cityMode (hooks before)
    /\ weather (hooks after) = weather (hooks before)
    /\ weatherStatus (hooks after) = weatherStatus (hooks before).
Proof. exact (step_frame op w). Qed.

(** X9: from a rendered window whose city is not empty, no sequence of
    events makes the city empty: the editor stores the trimmed input
    only when it is not empty. *)
Theorem city_never_empty (ops : list Op) (w : Window) :
  queue w = [] -> city (hooks w) <> "" -> city (hooks (run ops w)) <> "".
Proof.
  revert w. induction ops as [|op ops IH]; intros w Hq Hc; simpl; [exact Hc|].
  apply IH; [apply step_settled|].
  destruct (commit_settled w Hq) as [Eh _].
  destruct (is_city_op op) eqn:Eop.
  - assert (Ecity : city (hooks (step w op)) = city (hooks w)
                    \/ exists input,
                         city (hooks (step w op))
                         = Js.or_else (Js.trim input) (city (hooks w))).
    { destruct op; try discriminate.
      - right. exists input.
        pose proof (step_state (op_cityBlur input) w _ (cityInput_calls input w)) as S.
        simpl in S. injection S as -> _. reflexivity.
      - destruct (String.eqb key "Enter") eqn:Ek.
        + right. exists input.
          assert (E : handler (op_cityKeyDown key input) w
                      = (Ok tt,
                         with_queue
                           (queue w
                            ++ [setCity (Js.or_else (Js.trim input) (city (hooks w)));
                                setCityMode manual; setIsEditingCity false]) w)).
          { simpl. unfold cityInput_onKeyDown. rewrite Ek. apply cityInput_calls. }
          pose proof (step_state _ w _ E) as S.
          simpl in S. injection S as -> _. reflexivity.
        + left. unfold step, handled. simpl. unfold cityInput_onKeyDown. rewrite Ek.
          simpl. now rewrite Eh. }
    destruct Ecity as [-> | [input ->]]; [exact Hc|].
    unfold Js.or_else. destruct (Js.truthy (Js.trim input)) eqn:T; [|exact Hc].
    intros E. rewrite E in T. discriminate.
  - pose proof (step_frame op w) as F. cbv zeta in F. rewrite Eop in F.
    destruct F as (-> & _). now rewrite Eh.
Qed.

Lemma city_never_empty_witness :
  city (hooks (run (busy_day ++ [op_cityBlur "   "; op_cityKeyDown "Enter" ""])
                   (first_window (ticking []))))
  = "Ningbo"
  /\ city (hooks (run (busy_day ++ [op_cityBlur "   "; op_cityKeyDown "Enter" ""])
                      (first_window (ticking [])))) <> "".
Proof.
  split; [vm_compute; reflexivity|].
  apply city_never_empty; [reflexivity | vm_compute; discriminate].
Defined.

(** ** Locating and fetching *)

(** X10: [locateWeather] throws nothing, and whatever the endpoints and
    the weather providers answer, the window is not left locating: the
    next render has [isLocating] false, so the button is enabled again. *)
Theorem locateWeather_stops_locating (w : Window) :
  fst (locateWeather w) = Ok tt
  /\ isLocating (hooks (commit (snd (locateWeather w)))) = false.
Proof.
  unfold locateWeather, bind, call, try_finally. cbv beta iota.
  destruct (locateLoop_outcome ipEndpoints
              (with_queue (queue w ++ [setIsLocating true]) w))
    as (w1 & acts & tried & -> & _).
  simpl. split; [reflexivity|].
  rewrite commit_hooks. simpl. rewrite run_queue_app. simpl.
  destruct (run_queue (queue w1) (hooks w1, world w1)). reflexivity.
Qed.

Ltac split_ok H :=
  repeat match type of H with
         | context [fetchJson ?u ?t ?w] =>
             let F := fresh "F" in
             destruct (fetchJson u t w) as [[?|?] ?] eqn:F;
             apply fetchJson_after_request in F
         | context [match ?x with _ => _ end] => destruct x eqn:?
         end.

(** The weather that a path sets names the normalized city. *)
Lemma primaryPath_sets (normalized : string) (w : Window) b w' :
  primaryPath normalized w = (Ok b, w') ->
  exists info,
    queue w' = (queue w ++ [setWeather (Some info); setWeatherStatus ready])%list
    /\ WeatherInfo.city info = normalized
    /\ WeatherInfo.air info = "实时".
Proof.
  unfold primaryPath, bind, lift, throw, ret, call. intros H.
  split_ok H; simpl in H; try discriminate; injection H as <- <-;
    unfold after_request in *; simpl;
    repeat match goal with
           | F : _ /\ _ |- _ => destruct F
           end.
  eexists. split; [rewrite <- app_assoc; simpl; f_equal; congruence|].
  split; reflexivity.
Qed.

Lemma secondaryPath_sets (normalized : string) (w : Window) b w' :
  secondaryPath normalized w = (Ok b, w') ->
  exists info,
    queue w' = (queue w ++ [setWeather (Some info); setWeatherStatus ready])%list
    /\ WeatherInfo.city info = normalized
    /\ WeatherInfo.air info = "实时".
Proof.
  unfold secondaryPath, bind, lift, throw, ret, call. intros H.
  split_ok H; simpl in H; try discriminate; injection H as <- <-;
    unfold after_request in *; simpl;
    repeat match goal with
           | F : _ /\ _ |- _ => destruct F
           end.
  eexists. split; [rewrite <- app_assoc; simpl; f_equal; congruence|].
  split; reflexivity.
Qed.

(** The setter calls of [fetchWeather], by what it answers. *)
Lemma fetchWeather_calls (targetCity : string) (w : Window) :
  exists b w',
    fetchWeather targetCity w = (Ok b, w')
    /\ hooks w' = hooks w
    /\ if b then
         normalizeCityName targetCity <> ""
         /\ exists info,
              queue w'
              = (queue w ++ [setWeatherStatus loading; setWeather (Some info);
                             setWeatherStatus ready])%list
              /\ WeatherInfo.city info = normalizeCityName targetCity
              /\ WeatherInfo.air info = "实时"
       else
         queue w' = (queue w ++ [setWeatherStatus error])%list
         \/ queue w' = (queue w ++ [setWeatherStatus loading; setWeatherStatus error])%list.
Proof.
  destruct (String.eqb_spec (normalizeCityName targetCity) "") as [E|E].
  - rewrite (fetchWeather_empty_city _ _ E). eexists false, _.
    split; [reflexivity|]. split; [reflexivity|]. left. reflexivity.
  - rewrite fetchWeather_unfold by exact E. cbv zeta.
    destruct (primaryPath _ _) as [[b|e] wp] eqn:Hp.
    + pose proof (primaryPath_outcome _ _ _ _ Hp) as (Hh & _ & -> & _).
      destruct (primaryPath_sets _ _ _ _ Hp) as (info & Hq & Hc & Ha).
      simpl in Hh, Hq. eexists true, wp. split; [reflexivity|]. split; [exact Hh|].
      split; [exact E|]. exists info. rewrite Hq, <- app_assoc. auto.
    + pose proof (primaryPath_outcome _ _ _ _ Hp) as (Hh & _ & Hq). simpl in Hh, Hq.
      destruct (secondaryPath _ _) as [[b|e'] ws] eqn:Hs.
      * pose proof (secondaryPath_outcome _ _ _ _ Hs) as (Hh' & _ & -> & _).
        destruct (secondaryPath_sets _ _ _ _ Hs) as (info & Hq' & Hc & Ha).
        eexists true, ws. split; [reflexivity|]. split; [congruence|].
        split; [exact E|]. exists info. rewrite Hq', Hq, <- app_assoc. auto.
      * pose proof (secondaryPath_outcome _ _ _ _ Hs) as (Hh' & _ & Hq').
        eexists false, _. split; [reflexivity|]. simpl. split; [congruence|].
        right. rewrite Hq', Hq, <- app_assoc. reflexivity.
Qed.

(** X11: [fetchWeather] throws nothing. When it answers true, the city
    is not empty after normalization, and the next render shows the
    status [ready] and a weather whose city is the normalized city;
    when it answers false, the next render shows the status [error] and
    the weather it would have shown without the call. *)
Theorem fetchWeather_result (targetCity : string) (w : Window) :
  exists b w',
    fetchWeather targetCity w = (Ok b, w')
    /\ if b then
         normalizeCityName targetCity <> ""
         /\ weatherStatus (hooks (commit w')) = ready
         /\ exists info,
              weather (hooks (commit w')) = Some info
              /\ WeatherInfo.city info = normalizeCityName targetCity
       else
         weatherStatus (hooks (commit w')) = error
         /\ weather (hooks (commit w')) = weather (hooks (commit w)).
Proof.
  destruct (fetchWeather_calls targetCity w) as (b & w' & E & Hh & Hb).
  exists b, w'. split; [exact E|].
  assert (Hw : weather (fst (run_queue (queue w) (hooks w, world w')))
               = weather (hooks (commit w))).
  { rewrite commit_hooks. now apply run_queue_weather. }
  rewrite commit_hooks, Hh.
  destruct b.
  - destruct Hb as (Hn & info & -> & Hc & _). split; [exact Hn|].
    rewrite run_queue_app. destruct (run_queue (queue w) (hooks w, world w')).
    simpl. split; [reflexivity|]. exists info. auto.
  - destruct Hb as [-> | ->]; rewrite run_queue_app;
      destruct (run_queue (queue w) (hooks w, world w')); simpl in *; auto.
Qed.

(** ** The effect that starts the weather *)

Lemma weatherEffects_ref_set (previous : string * CityMode)
    (renders : list (string * CityMode)) :
  List.filter is_locate (weatherEffects previous true renders) = [].
Proof.
  revert previous. induction renders as [|[c m] rest IH]; intros previous; simpl;
    [reflexivity|].
  destruct (String.eqb (fst previous) c && CityMode_eqb (snd previous) m); [apply IH|].
  destruct m; simpl; apply IH.
Qed.

Lemma weatherEffects_manual (previous : string * CityMode)
    (renders : list (string * CityMode)) :
  snd previous = manual ->
  length (List.filter is_locate (weatherEffects previous false renders))
  = if existsb is_auto renders then 1%nat else 0%nat.
Proof.
  revert previous. induction renders as [|[c m] rest IH]; intros previous Hp; simpl;
    [reflexivity|].
  destruct (String.eqb (fst previous) c && CityMode_eqb (snd previous) m) eqn:E.
  - apply andb_true_iff in E as [_ E]. apply CityMode_eqb_eq in E.
    rewrite Hp in E. subst m. unfold is_auto at 1. simpl. now apply IH.
  - destruct m; unfold is_auto at 1; simpl.
    + now rewrite weatherEffects_ref_set.
    + now apply IH.
Qed.

(** X12: over the life of a window, whatever the sequence of cities and
    modes it renders, the effect starts [locateWeather] once when some
    render has the mode [auto] and never otherwise; in particular it
    never starts it a second time. *)
Theorem locate_started_at_most_once (first : string * CityMode)
    (renders : list (string * CityMode)) :
  length (List.filter is_locate (window_tasks first renders))
  = if existsb is_auto (first :: renders) then 1%nat else 0%nat.
Proof.
  unfold window_tasks. destruct first as [c m]. simpl. unfold is_auto at 1. simpl.
  destruct m; simpl.
  - now rewrite weatherEffects_ref_set.
  - now apply weatherEffects_manual.
Qed.

(** ** The classification of the text report *)

(** X13: the keywords are tried in order, so a description that
    mentions sun or a clear sky is always the clear classification, and
    one that mentions rain, drizzle or a shower is never classified as
    snow, thunderstorm or fog, whatever else it mentions. *)
Theorem classify_precedence (desc : string) :
  (Js.includes desc "sunny" || Js.includes desc "clear" = true ->
   classify desc = clear_sky)
  /\ (mentions_rain desc = true ->
      classify desc <> snow /\ classify desc <> thunderstorm /\ classify desc <> fog).
Proof.
  unfold classify, mentions_rain. split.
  - intros ->. reflexivity.
  - intros H.
    destruct (Js.includes desc "sunny" || Js.includes desc "clear");
      [repeat split; discriminate|].
    destruct (Js.includes desc "partly cloudy"); [repeat split; discriminate|].
    destruct (Js.includes desc "cloudy" || Js.includes desc "overcast");
      [repeat split; discriminate|].
    rewrite H. repeat split; discriminate.
Qed.

(** ** Reading back what was saved *)

Lemma append_assoc (a b c : string) : ((a ++ b) ++ c = a ++ (b ++ c))%string.
Proof. induction a as [|x a IH]; [reflexivity | exact (f_equal (String x) IH)]. Qed.

Lemma length_append (a b : string) :
  String.length (a ++ b) = (String.length a + String.length b)%nat.
Proof. induction a as [|x a IH]; [reflexivity | exact (f_equal S IH)]. Qed.

Ltac each_ascii c :=
  destruct c as [[] [] [] [] [] [] [] []].

Lemma scan_escape_char (c : ascii) (t : string) :
  Json.scan_string (Stringify.escape_char c ++ t)
  = match Json.scan_string t with
    | Some (us, rest) => Some (unit_of c :: us, rest)
    | None => None
    end.
Proof.
  each_ascii c; cbv -[Json.scan_string]; simpl;
    destruct (Json.scan_string t) as [[us rest]|]; reflexivity.
Qed.

Lemma scan_escape (s rest : string) :
  Json.scan_string (Stringify.escape s ++ String Js.quote rest)
  = Some (map unit_of (list_ascii_of_string s), rest).
Proof.
  induction s as [|c s IH].
  - reflexivity.
  - change (Stringify.escape (String c s))
      with (Stringify.escape_char c ++ Stringify.escape s)%string.
    rewrite append_assoc, scan_escape_char, IH. reflexivity.
Qed.

Lemma decode_unit_of (c : ascii) (us : list Json.unit_) :
  Json.decode_units (unit_of c :: us) = c :: Json.decode_units us.
Proof.
  each_ascii c; try reflexivity; destruct us as [|[|v] us]; reflexivity.
Qed.

Lemma decode_units_of (l : list ascii) :
  Json.decode_units (map unit_of l) = l.
Proof.
  induction l as [|c l IH]; [reflexivity|].
  change (map unit_of (c :: l)) with (unit_of c :: map unit_of l).
  now rewrite decode_unit_of, IH.
Qed.

Lemma parse_string_escape (s rest : string) :
  Json.parse_string (Stringify.escape s ++ String Js.quote rest) = Some (s, rest).
Proof.
  unfold Json.parse_string. rewrite scan_escape. cbn.
  now rewrite decode_units_of, string_of_list_ascii_of_string.
Qed.

Lemma str_append (s rest : string) :
  (Stringify.str s ++ rest)%string
  = String Js.quote (Stringify.escape s ++ String Js.quote rest).
Proof.
  unfold Stringify.str.
  change (Js.dq ++ Stringify.escape s ++ Js.dq)%string
    with (String Js.quote (Stringify.escape s ++ Js.dq)).
  change (String Js.quote (Stringify.escape s ++ Js.dq) ++ rest)%string
    with (String Js.quote ((Stringify.escape s ++ Js.dq) ++ rest)).
  now rewrite append_assoc.
Qed.

Lemma parse_value_str (fuel : nat) (s rest : string) :
  Json.parse_value (S fuel) (Stringify.str s ++ rest) = Some (JString s, rest).
Proof.
  rewrite str_append.
  change (Json.parse_value (S fuel)
            (String Js.quote (Stringify.escape s ++ String Js.quote rest)))
    with (match Json.parse_string (Stringify.escape s ++ String Js.quote rest) with
          | Some (str, r') => Some (JString str, r')
          | None => None
          end).
  now rewrite parse_string_escape.
Qed.

Lemma parse_value_bool (fuel : nat) (b : bool) (rest : string) :
  Json.parse_value (S fuel) (Stringify.bool b ++ rest) = Some (JBool b, rest).
Proof. destruct b; reflexivity. Qed.

Lemma parse_value_field (fuel : nat) (f : Field) (rest : string) :
  Json.parse_value (S fuel) (field_text f ++ rest) = Some (field_json f, rest).
Proof.
  destruct f; [apply parse_value_str | apply parse_value_bool].
Qed.

Lemma parse_members_S (fuel : nat) (s : string) :
  Json.parse_members (S fuel) s
  = match Json.skip_ws s with
    | String (Ascii false true false false false true false false) r =>
        match Json.parse_string r with
        | Some (k, r1) =>
            match Json.skip_ws r1 with
            | String ":"%char r2 =>
                match Json.parse_value fuel r2 with
                | Some (v, r3) =>
                    match Json.skip_ws r3 with
                    | String ","%char r' =>
                        match Json.parse_members fuel r' with
                        | Some (ms, r'') => Some ((k, v) :: ms, r'')
                        | None => None
                        end
                    | String "}"%char r' => Some ([(k, v)], r')
                    | _ => None
                    end
                | None => None
                end
            | _ => None
            end
        | None => None
        end
    | _ => None
    end.
Proof. reflexivity. Qed.

Lemma parse_elements_S (fuel : nat) (s : string) :
  Json.parse_elements (S fuel) s
  = match Json.parse_value fuel s with
    | Some (v, r) =>
        match Json.skip_ws r with
        | String ","%char r' =>
            match Json.parse_elements fuel r' with
            | Some (vs, r'') => Some (v :: vs, r'')
            | None => None
            end
        | String "]"%char r' => Some ([v], r')
        | _ => None
        end
    | None => None
    end.
Proof. reflexivity. Qed.

Lemma parse_value_object_members (fuel : nat) (x : string) :
  Json.parse_value (S fuel) (String "{" (String Js.quote x))
  = match Json.parse_members fuel (String Js.quote x) with
    | Some (ms, r') => Some (JObject ms, r')
    | None => None
    end.
Proof. reflexivity. Qed.

Lemma parse_value_array_objects (fuel : nat) (x : string) :
  Json.parse_value (S fuel) (String "[" (String "{" x))
  = match Json.parse_elements fuel (String "{" x) with
    | Some (vs, r') => Some (JArray vs, r')
    | None => None
    end.
Proof. reflexivity. Qed.

Lemma member_append (k v rest : string) :
  (Stringify.member k v ++ rest)%string
  = String Js.quote (Stringify.escape k ++ String Js.quote (String ":" (v ++ rest))).
Proof.
  unfold Stringify.member. rewrite append_assoc, str_append.
  change (":" ++ v)%string with (String ":" v).
  reflexivity.
Qed.

Lemma parse_members_member (fuel : nat) (k : string) (f : Field) (rest : string) :
  Json.parse_members (S (S fuel)) (Stringify.member k (field_text f) ++ rest)
  = match Json.skip_ws rest with
    | String ","%char r' =>
        match Json.parse_members (S fuel) r' with
        | Some (ms, r'') => Some ((k, field_json f) :: ms, r'')
        | None => None
        end
    | String "}"%char r' => Some ([(k, field_json f)], r')
    | _ => None
    end.
Proof.
  rewrite member_append, parse_members_S.
  change (Json.skip_ws
            (String Js.quote
               (Stringify.escape k ++ String Js.quote (String ":" (field_text f ++ rest)))))
    with (String (Ascii false true false false false true false false)
            (Stringify.escape k ++ String Js.quote (String ":" (field_text f ++ rest)))).
  cbv beta iota. rewrite parse_string_escape.
  change (Json.skip_ws (String ":" (field_text f ++ rest)))
    with (String ":" (field_text f ++ rest)).
  cbv beta iota. rewrite parse_value_field. reflexivity.
Qed.

Lemma parse_members_flat (fields : list (string * Field)) :
  forall (fuel : nat) (rest : string),
    fields <> [] ->
    (length fields < fuel)%nat ->
    Json.parse_members fuel (members_text fields ++ String "}" rest)
    = Some (members_json fields, rest).
Proof.
  induction fields as [|[k f] fields IH]; intros fuel rest Hne Hfuel; [congruence|].
  destruct fuel as [|[|fuel]]; [simpl in Hfuel; lia | simpl in Hfuel; lia |].
  destruct fields as [|kf fields].
  - change (members_text [(k, f)]) with (Stringify.member k (field_text f)).
    rewrite parse_members_member. reflexivity.
  - change (members_text ((k, f) :: kf :: fields))
      with (Stringify.member k (field_text f) ++ "," ++ members_text (kf :: fields))%string.
    rewrite append_assoc, parse_members_member.
    change (("," ++ members_text (kf :: fields)) ++ String "}" rest)%string
      with (String "," (members_text (kf :: fields) ++ String "}" rest)).
    change (Json.skip_ws (String "," (members_text (kf :: fields) ++ String "}" rest)))
      with (String "," (members_text (kf :: fields) ++ String "}" rest)).
    cbv beta iota. rewrite IH; [reflexivity | discriminate | simpl in *; lia].
Qed.

Lemma append_empty (s : string) : (s ++ "")%string = s.
Proof. induction s as [|c s IH]; [reflexivity | exact (f_equal (String c) IH)]. Qed.

Lemma members_text_head (fields : list (string * Field)) (rest : string) :
  fields <> [] ->
  exists x, (members_text fields ++ rest)%string = String Js.quote x.
Proof.
  destruct fields as [|[k f] [|kf fields]]; intros Hne; [congruence | |].
  - change (members_text [(k, f)]) with (Stringify.member k (field_text f)).
    rewrite member_append. eauto.
  - change (members_text ((k, f) :: kf :: fields))
      with (Stringify.member k (field_text f) ++ "," ++ members_text (kf :: fields))%string.
    rewrite append_assoc, member_append. eauto.
Qed.

Lemma flat_object_append (fields : list (string * Field)) (rest : string) :
  (flat_object fields ++ rest)%string
  = String "{" (members_text fields ++ String "}" rest).
Proof.
  unfold flat_object, Stringify.object. fold (members_text fields).
  change ("{" ++ members_text fields ++ "}")%string
    with (String "{" (members_text fields ++ "}")).
  change (String "{" (members_text fields ++ "}") ++ rest)%string
    with (String "{" ((members_text fields ++ "}") ++ rest)).
  now rewrite append_assoc.
Qed.

Lemma parse_value_flat_object (fields : list (string * Field)) (fuel : nat) (rest : string) :
  fields <> [] ->
  (length fields + 2 <= fuel)%nat ->
  Json.parse_value fuel (flat_object fields ++ rest)
  = Some (JObject (members_json fields), rest).
Proof.
  intros Hne Hfuel. destruct fuel as [|fuel]; [lia|].
  rewrite flat_object_append.
  destruct (members_text_head fields (String "}" rest) Hne) as [x Hx].
  rewrite Hx, parse_value_object_members, <- Hx.
  rewrite parse_members_flat; [reflexivity | assumption | lia].
Qed.

Lemma length_flat_object (fields : list (string * Field)) :
  (2 <= String.length (flat_object fields))%nat.
Proof.
  unfold flat_object, Stringify.object. rewrite !length_append. simpl. lia.
Qed.

Lemma parse_value_todoItem (item : TodoItem.t) (fuel : nat) (rest : string) :
  (7 <= fuel)%nat ->
  Json.parse_value fuel (Stringify.todoItem item ++ rest) = Some (todo_json item, rest).
Proof.
  intros Hfuel. apply (parse_value_flat_object (todo_fields item)); [discriminate | simpl; lia].
Qed.

Lemma parse_value_agendaItem (item : AgendaItem.t) (fuel : nat) (rest : string) :
  (7 <= fuel)%nat ->
  Json.parse_value fuel (Stringify.agendaItem item ++ rest) = Some (agenda_json item, rest).
Proof.
  intros Hfuel. apply (parse_value_flat_object (agenda_fields item)); [discriminate | simpl; lia].
Qed.

Section items.

Context {A : Type} (p : A -> string) (j : A -> json).
Hypothesis parse_item : forall (a : A) (fuel : nat) (rest : string),
  (7 <= fuel)%nat -> Json.parse_value fuel (p a ++ rest) = Some (j a, rest).
Hypothesis item_head : forall (a : A) (rest : string),
  exists x, (p a ++ rest)%string = String "{" x.
Hypothesis item_length : forall a : A, (2 <= String.length (p a))%nat.

Lemma parse_elements_items (l : list A) :
  forall (fuel : nat) (rest : string),
    l <> [] ->
    (length l + 7 <= fuel)%nat ->
    Json.parse_elements fuel (String.concat "," (map p l) ++ String "]" rest)
    = Some (map j l, rest).
Proof.
  induction l as [|a l IH]; intros fuel rest Hne Hfuel; [congruence|].
  destruct fuel as [|fuel]; [simpl in Hfuel; lia|].
  rewrite parse_elements_S.
  destruct l as [|b l].
  - change (String.concat "," (map p [a])) with (p a).
    rewrite parse_item by (simpl in Hfuel; lia). reflexivity.
  - change (String.concat "," (map p (a :: b :: l)))
      with (p a ++ "," ++ String.concat "," (map p (b :: l)))%string.
    rewrite append_assoc, parse_item by (simpl in Hfuel; lia).
    change (("," ++ String.concat "," (map p (b :: l))) ++ String "]" rest)%string
      with (String "," (String.concat "," (map p (b :: l)) ++ String "]" rest)).
    change (Json.skip_ws (String "," (String.concat "," (map p (b :: l)) ++ String "]" rest)))
      with (String "," (String.concat "," (map p (b :: l)) ++ String "]" rest)).
    cbv beta iota. rewrite IH; [reflexivity | discriminate | simpl in *; lia].
Qed.

Lemma length_concat_items (l : list A) :
  (2 * length l <= String.length (String.concat "," (map p l)))%nat.
Proof.
  induction l as [|a [|b l] IH].
  - simpl. lia.
  - change (String.concat "," (map p [a])) with (p a).
    pose proof (item_length a). simpl. lia.
  - change (String.concat "," (map p (a :: b :: l)))
      with (p a ++ "," ++ String.concat "," (map p (b :: l)))%string.
    rewrite !length_append. pose proof (item_length a).
    change (length (a :: b :: l)) with (S (length (b :: l))). lia.
Qed.

Lemma parse_array_items (l : list A) :
  Json.parse (Stringify.array (map p l)) = Some (JArray (map j l)).
Proof.
  destruct l as [|a l]; [reflexivity|].
  unfold Json.parse.
  assert (Hlen : (length (a :: l) + 8
                  <= 2 * String.length (Stringify.array (map p (a :: l))) + 2)%nat).
  { unfold Stringify.array. rewrite !length_append.
    pose proof (length_concat_items (a :: l)) as H.
    change (String.length "[") with 1%nat. change (String.length "]") with 1%nat.
    change (length (a :: l)) with (S (length l)) in *. lia. }
  destruct (2 * String.length (Stringify.array (map p (a :: l))) + 2)%nat as [|fuel];
    [lia|].
  change (Stringify.array (map p (a :: l)))
    with (String "[" (String.concat "," (map p (a :: l)) ++ String "]" "")).
  assert (Hhead : exists x,
    (String.concat "," (map p (a :: l)) ++ String "]" "")%string = String "{" x).
  { destruct l as [|b l].
    - change (String.concat "," (map p [a])) with (p a). apply item_head.
    - change (String.concat "," (map p (a :: b :: l)))
        with (p a ++ "," ++ String.concat "," (map p (b :: l)))%string.
      rewrite append_assoc. apply item_head. }
  destruct Hhead as [x Hx].
  rewrite Hx, parse_value_array_objects, <- Hx.
  rewrite parse_elements_items; [reflexivity | discriminate | lia].
Qed.

End items.

Lemma parse_todos (l : list TodoItem.t) :
  Json.parse (Stringify.todos l) = Some (JArray (map todo_json l)).
Proof.
  apply parse_array_items.
  - intros; now apply parse_value_todoItem.
  - intros a rest. change (Stringify.todoItem a) with (flat_object (todo_fields a)).
    rewrite flat_object_append. eauto.
  - intros a. apply (length_flat_object (todo_fields a)).
Qed.

Lemma parse_agenda (l : list AgendaItem.t) :
  Json.parse (Stringify.agenda l) = Some (JArray (map agenda_json l)).
Proof.
  apply parse_array_items.
  - intros; now apply parse_value_agendaItem.
  - intros a rest. change (Stringify.agendaItem a) with (flat_object (agenda_fields a)).
    rewrite flat_object_append. eauto.
  - intros a. apply (length_flat_object (agenda_fields a)).
Qed.

Lemma parse_str (s : string) :
  Json.parse (Stringify.str s) = Some (JString s).
Proof.
  unfold Json.parse.
  replace (2 * String.length (Stringify.str s) + 2)%nat
    with (S (2 * String.length (Stringify.str s) + 1)) by lia.
  rewrite <- (append_empty (Stringify.str s)) at 2.
  rewrite parse_value_str. reflexivity.
Qed.

Lemma parse_cityMode (m : CityMode) :
  Json.parse (Stringify.cityMode m) = Some (cityMode_json m).
Proof. apply parse_str. Qed.

Lemma loadStorage_parsed (st : gmap string string) (key text : string) (v fallback : json) :
  st !! key = Some text ->
  text <> "" ->
  Json.parse text = Some v ->
  loadStorage st key fallback = v.
Proof.
  intros Hst Hne Hp. unfold loadStorage, JSON_parse. rewrite Hst, Hp.
  destruct text; [congruence | reflexivity].
Qed.

Lemma str_filled (s : string) : Stringify.str s <> "".
Proof. rewrite <- (append_empty (Stringify.str s)), str_append. discriminate. Qed.

Lemma array_filled (items : list string) : Stringify.array items <> "".
Proof. discriminate. Qed.

Lemma loadStorage_persisted (h : Hooks) (st : gmap string string) (fallback : json) :
  persisted_as h st ->
  loadStorage st storageKeys.todos fallback = JArray (map todo_json (todos h))
  /\ loadStorage st storageKeys.agenda fallback = JArray (map agenda_json (agenda h))
  /\ loadStorage st storageKeys.city fallback = JString (city h)
  /\ loadStorage st storageKeys.cityMode fallback = cityMode_json (cityMode h).
Proof.
  intros (Ht & Ha & Hc & Hm).
  split; [|split; [|split]].
  - exact (loadStorage_parsed _ _ _ _ _ Ht (array_filled _) (parse_todos _)).
  - exact (loadStorage_parsed _ _ _ _ _ Ha (array_filled _) (parse_agenda _)).
  - exact (loadStorage_parsed _ _ _ _ _ Hc (str_filled _) (parse_str _)).
  - exact (loadStorage_parsed _ _ _ _ _ Hm (str_filled _) (parse_cityMode _)).
Qed.

Lemma todo_json_inj (a b : TodoItem.t) : todo_json a = todo_json b -> a = b.
Proof. destruct a, b. unfold todo_json. simpl. intros H. now inversion H. Qed.

Lemma agenda_json_inj (a b : AgendaItem.t) : agenda_json a = agenda_json b -> a = b.
Proof. destruct a, b. unfold agenda_json. simpl. intros H. now inversion H. Qed.

Lemma map_inj {A B} (f : A -> B) (l l' : list A) :
  (forall a b, f a = f b -> a = b) -> map f l = map f l' -> l = l'.
Proof.
  intros Hf. revert l'. induction l as [|a l IH]; intros [|b l'] H;
    try discriminate; [reflexivity|].
  simpl in H. inversion H as [[Ha Hl]]. f_equal; [now apply Hf | now apply IH].
Qed.

(** X14. What [saveStorage] writes, [loadStorage] reads back: after a
    list of to-dos, a list of agenda items, a city or a city mode was
    saved under a key, loading that key gives the value that was saved,
    as the array of objects (or the string) it is in JavaScript, and
    never the fallback; a key that was not written loads as before. Two
    lists that are saved as the same text are the same list. *)
Theorem loadStorage_saveStorage (st : gmap string string) (key : string) (fallback : json) :
  (forall l, loadStorage (saveStorage Stringify.todos key l st) key fallback
             = JArray (map todo_json l))
  /\ (forall l, loadStorage (saveStorage Stringify.agenda key l st) key fallback
                = JArray (map agenda_json l))
  /\ (forall s, loadStorage (saveStorage Stringify.str key s st) key fallback = JString s)
  /\ (forall m, loadStorage (saveStorage Stringify.cityMode key m st) key fallback
                = cityMode_json m)
  /\ (forall T (f : T -> string) (v : T) other,
        other <> key ->
        loadStorage (saveStorage f key v st) other fallback = loadStorage st other fallback)
  /\ (forall l l', Stringify.todos l = Stringify.todos l' -> l = l')
  /\ (forall l l', Stringify.agenda l = Stringify.agenda l' -> l = l').
Proof.
  unfold saveStorage.
  split; [|split; [|split; [|split; [|split; [|split]]]]].
  - intros l. eapply loadStorage_parsed;
      [apply lookup_insert_eq | apply array_filled | apply parse_todos].
  - intros l. eapply loadStorage_parsed;
      [apply lookup_insert_eq | apply array_filled | apply parse_agenda].
  - intros s. eapply loadStorage_parsed;
      [apply lookup_insert_eq | apply str_filled | apply parse_str].
  - intros m. eapply loadStorage_parsed;
      [apply lookup_insert_eq | apply str_filled | apply parse_cityMode].
  - intros T f v other Hne. unfold loadStorage.
    rewrite lookup_insert_ne by congruence. reflexivity.
  - intros l l' H. pose proof (parse_todos l) as P. rewrite H, parse_todos in P.
    inversion P as [E]. symmetry. exact (map_inj _ _ _ todo_json_inj E).
  - intros l l' H. pose proof (parse_agenda l) as P. rewrite H, parse_agenda in P.
    inversion P as [E]. symmetry. exact (map_inj _ _ _ agenda_json_inj E).
Qed.

(** X15. Reloading never loses anything: from a window whose store
    holds its state, after every sequence of events, [loadStorage] of
    each of the four keys gives the to-dos, the agenda, the city and the
    city mode that the window shows, whatever the fallback. *)
Theorem reload_gives_state (ops : list Op) (w : Window) (fallback : json)
    (H : persisted w) :
  let w' := run ops w in
  loadStorage (localStorage w') storageKeys.todos fallback
  = JArray (map todo_json (todos (hooks w')))
  /\ loadStorage (localStorage w') storageKeys.agenda fallback
     = JArray (map agenda_json (agenda (hooks w')))
  /\ loadStorage (localStorage w') storageKeys.city fallback = JString (city (hooks w'))
  /\ loadStorage (localStorage w') storageKeys.cityMode fallback
     = cityMode_json (cityMode (hooks w')).
Proof.
  intros w'. apply loadStorage_persisted. now apply run_persisted.
Qed.

(** A to-do added on the first window is what a reload finds. *)
Lemma reload_gives_state_witness :
  let w := run (milk ++ [op_addTodo]) (first_window (ticking [])) in
  loadStorage (localStorage w) storageKeys.todos no_items
  = JArray (map todo_json (todos (hooks w))).
Proof.
  assert (H : persisted (first_window (ticking [])))
    by (repeat split; vm_compute; reflexivity).
  exact (proj1 (reload_gives_state (milk ++ [op_addTodo]) (first_window (ticking []))
                  no_items H)).
Defined.

(** ** The window that [openModuleWindow] opens *)

Lemma decode_encode_char (c : ascii) (t : string) :
  URLSearchParams.decode (URL.encode_char c ++ t) = String c (URLSearchParams.decode t).
Proof. each_ascii c; reflexivity. Qed.

Lemma decode_encode (s : string) : URLSearchParams.decode (URL.encode s) = s.
Proof.
  induction s as [|c s IH]; [reflexivity|].
  change (URL.encode (String c s)) with (URL.encode_char c ++ URL.encode s)%string.
  now rewrite decode_encode_char, IH.
Qed.

Lemma name_value_encode_char (c : ascii) (t : string) :
  URLSearchParams.name_value (URL.encode_char c ++ t)
  = (URL.encode_char c ++ fst (URLSearchParams.name_value t),
     snd (URLSearchParams.name_value t))%string.
Proof.
  each_ascii c; cbv -[URLSearchParams.name_value]; simpl;
    destruct (URLSearchParams.name_value t); reflexivity.
Qed.

Lemma name_value_encode (n rest : string) :
  URLSearchParams.name_value (URL.encode n ++ String "=" rest) = (URL.encode n, rest).
Proof.
  induction n as [|c n IH]; [reflexivity|].
  change (URL.encode (String c n)) with (URL.encode_char c ++ URL.encode n)%string.
  rewrite append_assoc, name_value_encode_char, IH. reflexivity.
Qed.

Lemma split_cons (sep : ascii) (s : string) :
  exists p ps, URLSearchParams.split sep s = p :: ps.
Proof.
  induction s as [|c s (p & ps & IH)]; simpl; [eauto|].
  destruct (Ascii.eqb c sep); [eauto|]. rewrite IH. eauto.
Qed.

Lemma split_encode_char (c : ascii) (t p : string) (ps : list string) :
  URLSearchParams.split "&" t = p :: ps ->
  URLSearchParams.split "&" (URL.encode_char c ++ t)
  = (URL.encode_char c ++ p)%string :: ps.
Proof.
  intros H.
  each_ascii c; cbv -[URLSearchParams.split]; simpl; rewrite H; reflexivity.
Qed.

Lemma split_encode (s t p : string) (ps : list string) :
  URLSearchParams.split "&" t = p :: ps ->
  URLSearchParams.split "&" (URL.encode s ++ t) = (URL.encode s ++ p)%string :: ps.
Proof.
  intros H. induction s as [|c s IH]; [exact H|].
  change (URL.encode (String c s)) with (URL.encode_char c ++ URL.encode s)%string.
  rewrite !append_assoc. now apply split_encode_char.
Qed.

Lemma split_pair_text (q : string * string) (t p : string) (ps : list string) :
  URLSearchParams.split "&" t = p :: ps ->
  URLSearchParams.split "&" (URL.pair_text q ++ t) = (URL.pair_text q ++ p)%string :: ps.
Proof.
  intros H. unfold URL.pair_text. rewrite !append_assoc.
  apply split_encode.
  change ("=" ++ URL.encode (snd q) ++ t)%string with (String "=" (URL.encode (snd q) ++ t)).
  change ("=" ++ URL.encode (snd q) ++ p)%string with (String "=" (URL.encode (snd q) ++ p)).
  simpl. now rewrite (split_encode _ _ _ _ H).
Qed.

Lemma split_toString (q : string * string) (params : list (string * string)) :
  URLSearchParams.split "&" (URL.toString (q :: params)) = map URL.pair_text (q :: params).
Proof.
  revert q. induction params as [|q' params IH]; intros q.
  - change (URL.toString [q]) with (URL.pair_text q).
    rewrite <- (append_empty (URL.pair_text q)) at 1.
    rewrite (split_pair_text q "" "" []) by reflexivity.
    now rewrite append_empty.
  - change (URL.toString (q :: q' :: params))
      with (URL.pair_text q ++ "&" ++ URL.toString (q' :: params))%string.
    rewrite (split_pair_text q _ "" (map URL.pair_text (q' :: params))).
    + now rewrite append_empty.
    + change ("&" ++ URL.toString (q' :: params))%string
        with (String "&" (URL.toString (q' :: params))).
      simpl URLSearchParams.split. now rewrite IH.
Qed.

Lemma pair_text_filled (q : string * string) : Js.truthy (URL.pair_text q) = true.
Proof.
  unfold URL.pair_text. destruct (URL.encode (fst q)); reflexivity.
Qed.

Lemma read_pair_text (q : string * string) :
  (let '(n, v) := URLSearchParams.name_value (URL.pair_text q) in
   (URLSearchParams.decode n, URLSearchParams.decode v)) = q.
Proof.
  unfold URL.pair_text.
  change ("=" ++ URL.encode (snd q))%string with (String "=" (URL.encode (snd q))).
  rewrite name_value_encode, !decode_encode. now destruct q.
Qed.

Lemma toString_filled (q : string * string) (params : list (string * string)) :
  exists c r, URL.toString (q :: params) = String c r.
Proof.
  assert (H : forall t, exists c r, (URL.pair_text q ++ t)%string = String c r).
  { intros t. unfold URL.pair_text. destruct (URL.encode (fst q)); simpl; eauto. }
  destruct params as [|q' params].
  - change (URL.toString [q]) with (URL.pair_text q).
    rewrite <- (append_empty (URL.pair_text q)). apply H.
  - apply H.
Qed.

Lemma parse_query (params : list (string * string)) :
  URLSearchParams.parse (String "?" (URL.toString params)) = params.
Proof.
  unfold URLSearchParams.parse.
  destruct params as [|q params]; [reflexivity|].
  rewrite split_toString.
  induction (q :: params) as [|a l IH]; [reflexivity|].
  simpl. rewrite pair_text_filled. simpl. rewrite read_pair_text. f_equal. exact IH.
Qed.

Lemma parse_search (params : list (string * string)) :
  URLSearchParams.parse (URL.search params) = params.
Proof.
  unfold URL.search. destruct params as [|q params]; [reflexivity|].
  destruct (toString_filled q params) as (c & r & E).
  rewrite E, <- E. apply parse_query.
Qed.

Lemma get_filter_other (params : list (string * string)) (name other : string) :
  other <> name ->
  URLSearchParams.get
    (List.filter (fun p => negb (String.eqb (fst p) name)) params) other
  = URLSearchParams.get params other.
Proof.
  intros Hne. induction params as [|[n v] params IH]; [reflexivity|].
  simpl. destruct (String.eqb_spec n name) as [->|Hn]; simpl.
  - destruct (String.eqb_spec name other); [congruence | exact IH].
  - now rewrite IH.
Qed.

Lemma get_set (params : list (string * string)) (name value : string) :
  URLSearchParams.get (URL.set params name value) name = Some value.
Proof.
  induction params as [|[n v] params IH]; simpl.
  - now rewrite String.eqb_refl.
  - destruct (String.eqb_spec n name) as [->|Hn]; simpl.
    + now rewrite String.eqb_refl.
    + destruct (String.eqb_spec n name); [congruence | exact IH].
Qed.

Lemma get_set_other (params : list (string * string)) (name value other : string) :
  other <> name ->
  URLSearchParams.get (URL.set params name value) other = URLSearchParams.get params other.
Proof.
  intros Hne. induction params as [|[n v] params IH]; simpl.
  - destruct (String.eqb_spec name other); [congruence | reflexivity].
  - destruct (String.eqb_spec n name) as [->|Hn]; simpl.
    + destruct (String.eqb_spec name other); [congruence|].
      now apply get_filter_other.
    + now rewrite IH.
Qed.

Lemma openModuleWindow_params (search module : string) :
  URLSearchParams.parse (openModuleWindow search module)
  = URL.set (URL.set (URLSearchParams.parse search) "desktop" "1") "module" module.
Proof. apply parse_search. Qed.

Lemma openModuleWindow_reads (search module : string) :
  read_desktopMode (openModuleWindow search module) = true
  /\ read_moduleView (openModuleWindow search module) = Some module.
Proof.
  unfold read_desktopMode, read_moduleView. rewrite openModuleWindow_params.
  rewrite get_set, get_set_other, get_set by discriminate. split; reflexivity.
Qed.

(** X16. The window that [openModuleWindow] opens is the window of that
    module: whatever the address of the present window and whatever the
    module's name, the new window reads [desktop] as set and [module] as
    that name, and every other parameter as the present window reads it.
    So the four buttons open a window with the one card of the module
    and the button that closes the window, and nothing under it. *)
Theorem openModuleWindow_opens_module (search : string) :
  (forall module,
      read_desktopMode (openModuleWindow search module) = true
      /\ read_moduleView (openModuleWindow search module) = Some module)
  /\ (forall module name,
        name <> "desktop" -> name <> "module" ->
        URLSearchParams.get (URLSearchParams.parse (openModuleWindow search module)) name
        = URLSearchParams.get (URLSearchParams.parse search) name)
  /\ launch_view (openModuleWindow search "time") = single_card timeCard
  /\ launch_view (openModuleWindow search "weather") = single_card weatherCard
  /\ launch_view (openModuleWindow search "todo") = single_list todoCard
  /\ launch_view (openModuleWindow search "agenda") = single_list agendaCard.
Proof.
  split; [exact (openModuleWindow_reads search)|].
  split.
  { intros module name Hd Hm. rewrite openModuleWindow_params.
    now rewrite !get_set_other. }
  unfold launch_view.
  split; [|split; [|split]].
  - destruct (openModuleWindow_reads search "time") as [-> ->]. reflexivity.
  - destruct (openModuleWindow_reads search "weather") as [-> ->]. reflexivity.
  - destruct (openModuleWindow_reads search "todo") as [-> ->]. reflexivity.
  - destruct (openModuleWindow_reads search "agenda") as [-> ->]. reflexivity.
Qed.

(** ** [normalizeCityName] applied twice *)

Lemma trimStart_length (n : nat) :
  forall s, (String.length s <= n)%nat ->
            (String.length (Js.trimStart s) <= String.length s)%nat.
Proof.
  induction n as [|n IH]; intros s Hn.
  - destruct s; [simpl; lia | simpl in Hn; lia].
  - destruct s as [|a [|b [|c r]]]; simpl in *.
    + lia.
    + destruct (Js.ws1 a); simpl; lia.
    + destruct (Js.ws1 a).
      * pose proof (IH (String b "") ltac:(simpl; lia)). simpl in *. lia.
      * destruct (Js.ws2 a b); simpl; lia.
    + destruct (Js.ws1 a).
      * pose proof (IH (String b (String c r)) ltac:(simpl; lia)). simpl in *. lia.
      * destruct (Js.ws2 a b).
        -- pose proof (IH (String c r) ltac:(simpl; lia)). simpl in *. lia.
        -- destruct (Js.ws3 a b c); [|simpl; lia].
           pose proof (IH r ltac:(lia)). lia.
Qed.

Lemma trimStart_twice (n : nat) :
  forall s, (String.length s <= n)%nat ->
            Js.trimStart (Js.trimStart s) = Js.trimStart s.
Proof.
  induction n as [|n IH]; intros s Hn.
  - destruct s; [reflexivity | simpl in Hn; lia].
  - destruct s as [|a [|b [|c r]]]; simpl in Hn.
    + reflexivity.
    + simpl. destruct (Js.ws1 a) eqn:E1; [reflexivity | simpl; now rewrite E1].
    + simpl. destruct (Js.ws1 a) eqn:E1.
      * apply (IH (String b "")). simpl. lia.
      * destruct (Js.ws2 a b) eqn:E2; [reflexivity | simpl; now rewrite E1, E2].
    + simpl. destruct (Js.ws1 a) eqn:E1.
      * apply (IH (String b (String c r))). simpl. lia.
      * destruct (Js.ws2 a b) eqn:E2.
        -- apply (IH (String c r)). simpl. lia.
        -- destruct (Js.ws3 a b c) eqn:E3.
           ++ apply IH. lia.
           ++ simpl. now rewrite E1, E2, E3.
Qed.

Lemma trimStart_rev_twice (n : nat) :
  forall s, (String.length s <= n)%nat ->
            Js.trimStart_rev (Js.trimStart_rev s) = Js.trimStart_rev s.
Proof.
  induction n as [|n IH]; intros s Hn.
  - destruct s; [reflexivity | simpl in Hn; lia].
  - destruct s as [|a [|b [|c r]]]; simpl in Hn.
    + reflexivity.
    + simpl. destruct (Js.ws1 a) eqn:E1; [reflexivity | simpl; now rewrite E1].
    + simpl. destruct (Js.ws1 a) eqn:E1.
      * apply (IH (String b "")). simpl. lia.
      * destruct (Js.ws2 b a) eqn:E2; [reflexivity | simpl; now rewrite E1, E2].
    + simpl. destruct (Js.ws1 a) eqn:E1.
      * apply (IH (String b (String c r))). simpl. lia.
      * destruct (Js.ws2 b a) eqn:E2.
        -- apply (IH (String c r)). simpl. lia.
        -- destruct (Js.ws3 c b a) eqn:E3.
           ++ apply IH. lia.
           ++ simpl. now rewrite E1, E2, E3.
Qed.

Lemma bracket_code (c : ascii) :
  bracket c = true ->
  (Js.code c = 91 \/ Js.code c = 93 \/ Js.code c = 123 \/ Js.code c = 125)%N.
Proof. each_ascii c; vm_compute; intros H; try discriminate H; auto. Qed.

Ltac no_bracket c :=
  let B := fresh "B" in
  destruct (bracket c) eqn:B; [apply bracket_code in B; exfalso | reflexivity].

Lemma ws1_plain (a : ascii) : Js.ws1 a = true -> bracket a = false.
Proof.
  intros H. no_bracket a.
  cbv beta zeta delta [Js.ws1] in H.
  destruct B as [E | [E | [E | E]]]; rewrite E in H; discriminate H.
Qed.

Lemma ws2_plain (a b : ascii) :
  Js.ws2 a b = true -> bracket a = false /\ bracket b = false.
Proof.
  intros H. cbv beta zeta delta [Js.ws2] in H.
  apply andb_true_iff in H as [Ha Hb]. apply N.eqb_eq in Ha, Hb.
  split; [no_bracket a | no_bracket b]; lia.
Qed.

Lemma ws3_plain (a b c : ascii) :
  Js.ws3 a b c = true -> bracket a = false /\ bracket b = false /\ bracket c = false.
Proof.
  intros H. cbv beta zeta delta [Js.ws3] in H.
  assert (Ha : (200 <= Js.code a)%N /\ (128 <= Js.code b)%N /\ (128 <= Js.code c)%N).
  { repeat match type of H with
           | (_ || _) = true => apply orb_true_iff in H as [H | H]
           end;
      repeat match goal with
             | H : (_ && _) = true |- _ => apply andb_true_iff in H as [? ?]
             | H : (_ || _) = true |- _ => apply orb_true_iff in H as [? | ?]
             | H : (_ =? _)%N = true |- _ => apply N.eqb_eq in H
             | H : (_ <=? _)%N = true |- _ => apply N.leb_le in H
             end; lia. }
  destruct Ha as (Ha & Hb & Hc).
  split; [no_bracket a | split; [no_bracket b | no_bracket c]]; lia.
Qed.

Lemma plain_nil : plain "".
Proof. constructor. Qed.

Lemma plain_cons (a : ascii) (p : string) :
  bracket a = false -> plain p -> plain (String a p).
Proof. intros Ha Hp. constructor; assumption. Qed.

#[local] Hint Resolve plain_nil plain_cons : core.

Lemma trimStart_removed (n : nat) :
  forall s, (String.length s <= n)%nat ->
            exists p, s = (p ++ Js.trimStart s)%string /\ plain p.
Proof.
  induction n as [|n IH]; intros s Hn.
  - destruct s; [exists ""; auto | simpl in Hn; lia].
  - destruct s as [|a [|b [|c r]]]; simpl in Hn.
    + exists "". auto.
    + simpl. destruct (Js.ws1 a) eqn:E1; [|exists ""; auto].
      exists (String a ""). split; [reflexivity|]. apply ws1_plain in E1. auto.
    + simpl. destruct (Js.ws1 a) eqn:E1.
      * destruct (IH (String b "") ltac:(simpl; lia)) as (p & Hp & Pp).
        exists (String a p). split; [exact (f_equal (String a) Hp)|].
        apply ws1_plain in E1. auto.
      * destruct (Js.ws2 a b) eqn:E2; [|exists ""; auto].
        exists (String a (String b "")). split; [reflexivity|].
        apply ws2_plain in E2 as [? ?]. auto.
    + simpl. destruct (Js.ws1 a) eqn:E1.
      * destruct (IH (String b (String c r)) ltac:(simpl; lia)) as (p & Hp & Pp).
        exists (String a p). split; [exact (f_equal (String a) Hp)|].
        apply ws1_plain in E1. auto.
      * destruct (Js.ws2 a b) eqn:E2.
        -- destruct (IH (String c r) ltac:(simpl; lia)) as (p & Hp & Pp).
           exists (String a (String b p)).
           split; [exact (f_equal (fun x => String a (String b x)) Hp)|].
           apply ws2_plain in E2 as [? ?]. auto.
        -- destruct (Js.ws3 a b c) eqn:E3; [|exists ""; auto].
           destruct (IH r ltac:(lia)) as (p & Hp & Pp).
           exists (String a (String b (String c p))).
           split; [exact (f_equal (fun x => String a (String b (String c x))) Hp)|].
           apply ws3_plain in E3 as (? & ? & ?). auto.
Qed.

Lemma trimStart_rev_removed (n : nat) :
  forall s, (String.length s <= n)%nat ->
            exists p, s = (p ++ Js.trimStart_rev s)%string /\ plain p.
Proof.
  induction n as [|n IH]; intros s Hn.
  - destruct s; [exists ""; auto | simpl in Hn; lia].
  - destruct s as [|a [|b [|c r]]]; simpl in Hn.
    + exists "". auto.
    + simpl. destruct (Js.ws1 a) eqn:E1; [|exists ""; auto].
      exists (String a ""). split; [reflexivity|]. apply ws1_plain in E1. auto.
    + simpl. destruct (Js.ws1 a) eqn:E1.
      * destruct (IH (String b "") ltac:(simpl; lia)) as (p & Hp & Pp).
        exists (String a p). split; [exact (f_equal (String a) Hp)|].
        apply ws1_plain in E1. auto.
      * destruct (Js.ws2 b a) eqn:E2; [|exists ""; auto].
        exists (String a (String b "")). split; [reflexivity|].
        apply ws2_plain in E2 as [? ?]. auto.
    + simpl. destruct (Js.ws1 a) eqn:E1.
      * destruct (IH (String b (String c r)) ltac:(simpl; lia)) as (p & Hp & Pp).
        exists (String a p). split; [exact (f_equal (String a) Hp)|].
        apply ws1_plain in E1. auto.
      * destruct (Js.ws2 b a) eqn:E2.
        -- destruct (IH (String c r) ltac:(simpl; lia)) as (p & Hp & Pp).
           exists (String a (String b p)).
           split; [exact (f_equal (fun x => String a (String b x)) Hp)|].
           apply ws2_plain in E2 as [? ?]. auto.
        -- destruct (Js.ws3 c b a) eqn:E3; [|exists ""; auto].
           destruct (IH r ltac:(lia)) as (p & Hp & Pp).
           exists (String a (String b (String c p))).
           split; [exact (f_equal (fun x => String a (String b (String c x))) Hp)|].
           apply ws3_plain in E3 as (? & ? & ?). auto.
Qed.

Lemma trimStart_cons (a : ascii) (r : string) :
  Js.trimStart (String a r)
  = if Js.ws1 a then Js.trimStart r else
    match r with
    | String b r2 =>
        if Js.ws2 a b then Js.trimStart r2 else
        match r2 with
        | String c r3 => if Js.ws3 a b c then Js.trimStart r3 else String a r
        | EmptyString => String a r
        end
    | EmptyString => String a r
    end.
Proof. reflexivity. Qed.

(** A string that [trimStart] leaves alone starts with no white space,
    and so does each of its prefixes. *)
Lemma trimStart_prefix (p u : string) :
  Js.trimStart (p ++ u) = (p ++ u)%string -> Js.trimStart p = p.
Proof.
  assert (L : forall s, (String.length (Js.trimStart s) <= String.length s)%nat)
    by (intros s; now apply (trimStart_length (String.length s))).
  assert (Hlen : forall a r s, Js.trimStart s = String a r ->
                               (S (String.length r) <= String.length s)%nat).
  { intros a r s E. pose proof (L s) as H. rewrite E in H. exact H. }
  destruct p as [|a [|b [|c p]]]; intros H.
  - reflexivity.
  - change (String a "" ++ u)%string with (String a u) in H.
    rewrite trimStart_cons in *.
    destruct (Js.ws1 a) eqn:E1; [|reflexivity].
    exfalso. apply Hlen in H. lia.
  - change (String a (String b "") ++ u)%string with (String a (String b u)) in H.
    rewrite trimStart_cons in *.
    destruct (Js.ws1 a) eqn:E1.
    { exfalso. apply Hlen in H. simpl in H. lia. }
    destruct (Js.ws2 a b) eqn:E2; [|reflexivity].
    exfalso. apply Hlen in H. simpl in H. lia.
  - change (String a (String b (String c p)) ++ u)%string
      with (String a (String b (String c (p ++ u)))) in H.
    rewrite trimStart_cons in *.
    destruct (Js.ws1 a) eqn:E1.
    { exfalso. apply Hlen in H. simpl in H. lia. }
    destruct (Js.ws2 a b) eqn:E2.
    { exfalso. apply Hlen in H. simpl in H. lia. }
    destruct (Js.ws3 a b c) eqn:E3; [|reflexivity].
    exfalso. apply Hlen in H. simpl in H. rewrite length_append in H. lia.
Qed.

Lemma list_of_append (a b : string) :
  list_ascii_of_string (a ++ b) = (list_ascii_of_string a ++ list_ascii_of_string b)%list.
Proof.
  induction a as [|c a IH]; [reflexivity|].
  change (c :: list_ascii_of_string (a ++ b)
          = c :: (list_ascii_of_string a ++ list_ascii_of_string b)%list).
  now rewrite IH.
Qed.

Lemma string_of_app (l l' : list ascii) :
  string_of_list_ascii (l ++ l')%list = (string_of_list_ascii l ++ string_of_list_ascii l')%string.
Proof.
  induction l as [|c l IH]; [reflexivity|].
  change (String c (string_of_list_ascii (l ++ l')%list)
          = String c (string_of_list_ascii l ++ string_of_list_ascii l')%string).
  now rewrite IH.
Qed.

Lemma rev_rev (s : string) : Js.rev (Js.rev s) = s.
Proof.
  unfold Js.rev.
  now rewrite list_ascii_of_string_of_list_ascii, List.rev_involutive,
    string_of_list_ascii_of_string.
Qed.

Lemma rev_append (a b : string) : Js.rev (a ++ b) = (Js.rev b ++ Js.rev a)%string.
Proof.
  unfold Js.rev. now rewrite list_of_append, List.rev_app_distr, string_of_app.
Qed.

Lemma plain_rev (p : string) : plain p -> plain (Js.rev p).
Proof.
  unfold plain, Js.rev. rewrite list_ascii_of_string_of_list_ascii.
  apply List.Forall_rev.
Qed.

Lemma trimEnd_removed (s : string) :
  exists x, s = (Js.trimEnd s ++ x)%string /\ plain x.
Proof.
  destruct (trimStart_rev_removed (String.length (Js.rev s)) (Js.rev s) (le_n _))
    as (p & Hp & Pp).
  exists (Js.rev p). split; [|now apply plain_rev].
  unfold Js.trimEnd. rewrite <- rev_append, <- Hp. now rewrite rev_rev.
Qed.

Lemma trimEnd_prefix (s : string) : exists x, s = (Js.trimEnd s ++ x)%string.
Proof. destruct (trimEnd_removed s) as (x & Hx & _). eauto. Qed.

Lemma trimEnd_twice (s : string) : Js.trimEnd (Js.trimEnd s) = Js.trimEnd s.
Proof.
  unfold Js.trimEnd. rewrite rev_rev.
  now rewrite (trimStart_rev_twice _ _ (le_n _)).
Qed.

Lemma trimStart_trim (s : string) : Js.trimStart (Js.trim s) = Js.trim s.
Proof.
  unfold Js.trim.
  destruct (trimEnd_prefix (Js.trimStart s)) as [x Hx].
  apply (trimStart_prefix _ x). rewrite <- Hx.
  apply (trimStart_twice _ _ (le_n _)).
Qed.

Lemma trim_twice (s : string) : Js.trim (Js.trim s) = Js.trim s.
Proof.
  unfold Js.trim at 1. rewrite trimStart_trim.
  unfold Js.trim. apply trimEnd_twice.
Qed.

Lemma normalizeCityName_twice (raw : string) :
  normalizeCityName (normalizeCityName raw) = normalizeCityName raw.
Proof.
  pose proof (trim_twice raw) as T.
  remember (normalizeCityName raw) as r eqn:Er.
  unfold normalizeCityName in Er.
  destruct (Js.truthy (Js.trim raw)) eqn:Et; cbv beta iota zeta delta [negb] in Er;
    [|subst r; reflexivity].
  destruct (String.eqb (Js.toLowerCase (Js.trim raw)) "ningbo") eqn:E1;
    [subst r; reflexivity|].
  destruct (String.eqb (Js.toLowerCase (Js.trim raw)) "beijing") eqn:E2;
    [subst r; reflexivity|].
  destruct (String.eqb (Js.toLowerCase (Js.trim raw)) "shanghai") eqn:E3;
    [subst r; reflexivity|].
  destruct (String.eqb (Js.toLowerCase (Js.trim raw)) "hangzhou") eqn:E4;
    [subst r; reflexivity|].
  destruct (String.eqb (Js.toLowerCase (Js.trim raw)) "shenzhen") eqn:E5;
    [subst r; reflexivity|].
  destruct (String.eqb (Js.toLowerCase (Js.trim raw)) "guangzhou") eqn:E6;
    [subst r; reflexivity|].
  subst r. unfold normalizeCityName. rewrite T, Et.
  cbv beta iota zeta delta [negb]. now rewrite E1, E2, E3, E4, E5, E6.
Qed.

Lemma normalizeCityName_trimmed (raw : string) :
  Js.trim (normalizeCityName raw) = normalizeCityName raw.
Proof.
  unfold normalizeCityName.
  destruct (Js.truthy (Js.trim raw)); cbv beta iota zeta delta [negb]; [|reflexivity].
  repeat match goal with
         | |- context [String.eqb ?a ?b] => destruct (String.eqb a b); [reflexivity|]
         end.
  apply trim_twice.
Qed.

(** ** The city that [locateWeather] commits *)

Lemma run_queue_status (q : list Action) (s : Hooks * World) :
  forallb is_status q = true ->
  city (fst (run_queue q s)) = city (fst s)
  /\ cityMode (fst (run_queue q s)) = cityMode (fst s)
  /\ weather (fst (run_queue q s)) = weather (fst s).
Proof.
  revert s. induction q as [|a q IH]; intros s H; simpl in *; [auto|].
  apply andb_true_iff in H as [Ha Hq].
  unfold run_queue in *. destruct (IH (reduce s a) Hq) as (-> & -> & ->).
  destruct s as [h wd], a; simpl in *; try discriminate; auto.
Qed.

Lemma tryEndpoint_calls (endpoint : string) (w : Window) :
  exists b w' acts,
    tryEndpoint endpoint w = (Ok b, w')
    /\ hooks w' = hooks w
    /\ queue w' = (queue w ++ acts)%list
    /\ if b then
         exists info cityName,
           acts = located info cityName
           /\ WeatherInfo.city info = cityName
           /\ cityName <> ""
           /\ normalizeCityName cityName = cityName
       else forallb is_status acts = true.
Proof.
  unfold tryEndpoint, try_catch, bind, lift, ret.
  destruct (fetchJson (Endpoint endpoint) 3000 w) as [[data|e] wj] eqn:F;
    pose proof (fetchJson_after_request _ _ _ _ _ F) as (Hh & Hq & Hr).
  2: { exists false, wj, []. rewrite app_nil_r. auto. }
  destruct (get (Some data) "city") as [c|e] eqn:G.
  2: { exists false, wj, []. rewrite app_nil_r. auto. }
  destruct (truthy c) eqn:T.
  2: { exists false, wj, []. rewrite app_nil_r. auto. }
  destruct (on_string normalizeCityName c) as [cityName|e] eqn:N.
  2: { exists false, wj, []. rewrite app_nil_r. auto. }
  assert (Hc : exists s, cityName = normalizeCityName s).
  { destruct c as [[]|]; try discriminate. injection N as <-. eauto. }
  destruct Hc as (s & ->).
  destruct (fetchWeather_calls (normalizeCityName s) wj) as (b & w2 & -> & Hh2 & Hb).
  rewrite normalizeCityName_twice in Hb.
  destruct b.
  - unfold call. cbv beta iota.
    destruct Hb as (Hn & info & Hq2 & Hc & _).
    eexists true, _, (located info (normalizeCityName s)).
    split; [reflexivity|]. cbn [hooks queue world with_queue].
    split; [congruence|].
    split; [rewrite Hq2, Hq, <- !app_assoc; reflexivity|].
    exists info, (normalizeCityName s).
    split; [reflexivity|]. split; [exact Hc|]. split; [exact Hn|].
    apply normalizeCityName_twice.
  - destruct Hb as [Hq2 | Hq2].
    + exists false, w2, [setWeatherStatus error].
      split; [reflexivity|]. split; [congruence|]. split; [congruence|]. reflexivity.
    + exists false, w2, [setWeatherStatus loading; setWeatherStatus error].
      split; [reflexivity|]. split; [congruence|]. split; [congruence|]. reflexivity.
Qed.

Lemma locateLoop_calls (endpoints : list string) (w : Window) :
  exists w' acts,
    locateLoop endpoints w = (Ok tt, w')
    /\ hooks w' = hooks w
    /\ queue w' = (queue w ++ acts)%list
    /\ (forallb is_status acts = true
        \/ exists acts0 info cityName,
             acts = (acts0 ++ located info cityName)%list
             /\ WeatherInfo.city info = cityName
             /\ cityName <> ""
             /\ normalizeCityName cityName = cityName).
Proof.
  revert w. induction endpoints as [|endpoint rest IH]; intros w.
  - exists w, []. simpl. rewrite app_nil_r. unfold ret. auto.
  - simpl. unfold bind.
    destruct (tryEndpoint_calls endpoint w) as (b & w1 & acts1 & -> & Hh & Hq & Hb).
    destruct b.
    + exists w1, acts1. unfold ret.
      split; [reflexivity|]. split; [exact Hh|]. split; [exact Hq|].
      right. destruct Hb as (info & cityName & -> & Hb). exists [], info, cityName.
      split; [reflexivity | exact Hb].
    + destruct (IH w1) as (w2 & acts2 & -> & Hh2 & Hq2 & H2).
      exists w2, (acts1 ++ acts2)%list.
      split; [reflexivity|]. split; [congruence|].
      split; [rewrite Hq2, Hq, <- app_assoc; reflexivity|].
      destruct H2 as [H2 | (acts0 & info & cityName & -> & H2)].
      * left. rewrite forallb_app, Hb, H2. reflexivity.
      * right. exists (acts1 ++ acts0)%list, info, cityName.
        split; [now rewrite app_assoc | exact H2].
Qed.

(** X17. After [locateWeather] the city and the weather agree. Either
    no endpoint led to a weather, and then the next render shows the
    city, the mode and the weather it would have shown without the
    call; or one did, and then the next render shows the weather of the
    city it shows: the weather names that city, the city is not empty
    and is its own normalization, the mode is [auto] and the status is
    [ready]. *)
Theorem locateWeather_city_is_weather_city (w : Window) :
  let w' := commit (snd (locateWeather w)) in
  (city (hooks w') = city (hooks (commit w))
   /\ cityMode (hooks w') = cityMode (hooks (commit w))
   /\ weather (hooks w') = weather (hooks (commit w)))
  \/ (exists info,
        weather (hooks w') = Some info
        /\ WeatherInfo.city info = city (hooks w')
        /\ city (hooks w') <> ""
        /\ normalizeCityName (city (hooks w')) = city (hooks w')
        /\ cityMode (hooks w') = auto
        /\ weatherStatus (hooks w') = ready).
Proof.
  unfold locateWeather, bind, call, try_finally. cbv beta iota zeta.
  destruct (locateLoop_calls ipEndpoints
              (with_queue (queue w ++ [setIsLocating true]) w))
    as (w1 & acts & E & Hh & Hq & H).
  rewrite E. cbn [snd].
  rewrite !commit_hooks. cbn [hooks queue world with_queue].
  rewrite Hq, Hh. cbn [hooks queue world with_queue].
  rewrite !run_queue_app.
  destruct H as [H | (acts0 & info & cityName & -> & Hc & Hn & Hi)].
  - left.
    set (s0 := run_queue (queue w) (hooks w, world w1)).
    assert (E0 : city (fst s0) = city (fst (run_queue (queue w) (hooks w, world w)))
                 /\ cityMode (fst s0)
                    = cityMode (fst (run_queue (queue w) (hooks w, world w)))
                 /\ weather (fst s0)
                    = weather (fst (run_queue (queue w) (hooks w, world w)))).
    { split; [|split].
      - now apply run_queue_city.
      - now apply run_queue_city.
      - now apply run_queue_weather. }
    destruct E0 as (<- & <- & <-).
    destruct (run_queue_status acts (run_queue [setIsLocating true] s0) H)
      as (Ec & Em & Ew).
    destruct (run_queue acts (run_queue [setIsLocating true] s0)) as [h2 wd2].
    destruct s0 as [h0 wd0]. simpl in *. auto.
  - right. exists info. rewrite run_queue_app.
    destruct (run_queue acts0 _) as [h2 wd2]. simpl.
    split; [reflexivity|]. split; [exact Hc|]. split; [exact Hn|].
    split; [exact Hi|]. split; reflexivity.
Qed.

(** X18. [normalizeCityName] is a normalization: applied to its own
    result it changes nothing, its result has no white space around it,
    white space around the input does not matter, and the result is
    empty exactly when the input holds nothing but white space. So
    [fetchWeather] of the city that the editor committed is
    [fetchWeather] of what was typed. *)
Theorem normalizeCityName_idempotent (raw : string) :
  normalizeCityName (normalizeCityName raw) = normalizeCityName raw
  /\ Js.trim (normalizeCityName raw) = normalizeCityName raw
  /\ normalizeCityName (Js.trim raw) = normalizeCityName raw
  /\ (normalizeCityName raw = "" <-> Js.trim raw = "")
  /\ fetchWeather (normalizeCityName raw) = fetchWeather raw.
Proof.
  split; [apply normalizeCityName_twice|].
  split; [apply normalizeCityName_trimmed|].
  split; [unfold normalizeCityName; now rewrite trim_twice|].
  split.
  - unfold normalizeCityName, Js.truthy.
    destruct (String.eqb_spec (Js.trim raw) "") as [E|E]; cbv beta iota zeta delta [negb].
    + tauto.
    + split; [|tauto].
      repeat match goal with
             | |- context [String.eqb ?a ?b] => destruct (String.eqb a b); [discriminate|]
             end.
      tauto.
  - unfold fetchWeather. now rewrite normalizeCityName_twice.
Qed.

(** ** The payload inside a wrapper *)

Lemma plain_uncons (a : ascii) (p : string) :
  plain (String a p) -> is_open a = false /\ is_close a = false /\ plain p.
Proof.
  intros H. inversion H as [|x l Hb Hp]; subst.
  unfold bracket in Hb. apply orb_false_iff in Hb as [? ?]. auto.
Qed.

Lemma plain_first_open (p : string) : plain p -> from_first_open p = None.
Proof.
  induction p as [|a p IH]; intros H; [reflexivity|].
  apply plain_uncons in H as (Ho & _ & Hp). simpl. rewrite Ho. auto.
Qed.

Lemma plain_last_close (p : string) : plain p -> through_last_close p = None.
Proof.
  induction p as [|a p IH]; intros H; [reflexivity|].
  apply plain_uncons in H as (_ & Hc & Hp). simpl. rewrite (IH Hp), Hc. reflexivity.
Qed.

Lemma first_open_append (s t : string) :
  from_first_open (s ++ t)
  = match from_first_open s with
    | Some u => Some (u ++ t)%string
    | None => from_first_open t
    end.
Proof.
  induction s as [|a s IH]; [reflexivity|].
  change (String a s ++ t)%string with (String a (s ++ t)).
  simpl. destruct (is_open a); [reflexivity | exact IH].
Qed.

Lemma last_close_append (s t : string) :
  through_last_close t = None ->
  through_last_close (s ++ t) = through_last_close s.
Proof.
  intros H. induction s as [|a s IH]; [exact H|].
  change (String a s ++ t)%string with (String a (s ++ t)).
  simpl. now rewrite IH.
Qed.

Lemma bracket_span_append (s t : string) :
  through_last_close t = None -> from_first_open t = None ->
  bracket_span (s ++ t) = bracket_span s.
Proof.
  intros Hc Ho. unfold bracket_span. rewrite first_open_append, Ho.
  destruct (from_first_open s); [now apply last_close_append | reflexivity].
Qed.

Lemma bracket_span_prepend (p s : string) :
  from_first_open p = None -> bracket_span (p ++ s) = bracket_span s.
Proof.
  intros Ho. unfold bracket_span. now rewrite first_open_append, Ho.
Qed.

Lemma bracket_span_trim (s : string) : bracket_span (Js.trim s) = bracket_span s.
Proof.
  unfold Js.trim.
  destruct (trimStart_removed _ s (le_n _)) as (p & Hp & Pp).
  destruct (trimEnd_removed (Js.trimStart s)) as (x & Hx & Px).
  rewrite Hp at 2. rewrite (bracket_span_prepend _ _ (plain_first_open _ Pp)).
  rewrite Hx at 2.
  now rewrite (bracket_span_append _ _ (plain_last_close _ Px) (plain_first_open _ Px)).
Qed.

Lemma bracket_span_wrapped (pre body post : string) :
  from_first_open pre = None ->
  from_first_open body = Some body ->
  through_last_close body = Some body ->
  through_last_close post = None ->
  bracket_span (pre ++ body ++ post) = Some body.
Proof.
  intros Hpre Ho Hc Hpost.
  rewrite (bracket_span_prepend _ _ Hpre).
  unfold bracket_span. rewrite first_open_append, Ho.
  now rewrite (last_close_append _ _ Hpost).
Qed.

Lemma parseJsonLenient_second_attempt (rawText : string) :
  parseJsonLenient rawText
  = match JSON_parse (Js.trim rawText) with
    | Ok v => Ok v
    | Throw _ => second_attempt (Js.trim rawText)
    end.
Proof.
  rewrite parseJsonLenient_unfold. cbv zeta.
  destruct (JSON_parse (Js.trim rawText)) as [v|e]; [reflexivity|].
  unfold second_attempt, bracket_span.
  pose proof (lenient_start (Js.trim rawText)) as Hs. cbv zeta in Hs.
  destruct (from_first_open (Js.trim rawText)) as [suffix|].
  - destruct Hs as [Hge ->].
    destruct (Z.ltb_spec (least_index (Js.indexOf (Js.trim rawText) "{")
                                      (Js.indexOf (Js.trim rawText) "[")) 0); [lia|].
    pose proof (lenient_end suffix) as He. cbv zeta in He.
    destruct (through_last_close suffix) as [span|].
    + destruct He as [Hge' ->].
      destruct (Z.ltb_spec (greatest_index (Js.lastIndexOf suffix "}")
                                           (Js.lastIndexOf suffix "]")) 0); [lia|].
      reflexivity.
    + rewrite He. reflexivity.
  - rewrite Hs. reflexivity.
Qed.

(** X19. [parseJsonLenient] takes a payload out of its wrapper. For a
    text made of a part with no opening bracket, a payload that starts
    with an opening bracket and ends with a closing one, and a part with
    no closing bracket: unless the whole text, trimmed, is a JSON text
    itself, the answer is the strict parse of the payload, whatever
    white space surrounds the text. *)
Theorem parseJsonLenient_unwraps (pre body post : string)
    (Hpre : from_first_open pre = None)
    (Hopen : from_first_open body = Some body)
    (Hclose : through_last_close body = Some body)
    (Hpost : through_last_close post = None) :
  parseJsonLenient (pre ++ body ++ post)
  = match JSON_parse (Js.trim (pre ++ body ++ post)) with
    | Ok v => Ok v
    | Throw _ => JSON_parse body
    end.
Proof.
  rewrite parseJsonLenient_second_attempt.
  destruct (JSON_parse (Js.trim (pre ++ body ++ post))); [reflexivity|].
  unfold second_attempt.
  now rewrite bracket_span_trim, (bracket_span_wrapped pre body post).
Qed.

(** The payload of a script that calls back. *)
Lemma parseJsonLenient_unwraps_witness :
  parseJsonLenient (" callback(" ++ wrapped_payload ++ ");  ")
  = Ok (JObject [("city", JString "Ningbo")]).
Proof.
  rewrite (parseJsonLenient_unwraps " callback(" wrapped_payload ");  "
             eq_refl eq_refl eq_refl eq_refl).
  reflexivity.
Defined.

(** X20. White space around a text never changes what
    [parseJsonLenient] answers, and when the strict parse of the trimmed
    text fails the span that is parsed is the one of the text as it
    came: the white space that [trim] removes holds no bracket. *)
Theorem parseJsonLenient_ignores_white_space (rawText : string) :
  parseJsonLenient (Js.trim rawText) = parseJsonLenient rawText
  /\ parseJsonLenient rawText
     = match JSON_parse (Js.trim rawText) with
       | Ok v => Ok v
       | Throw _ => second_attempt rawText
       end
  /\ bracket_span (Js.trim rawText) = bracket_span rawText.
Proof.
  split; [|split].
  - now rewrite !parseJsonLenient_second_attempt, trim_twice.
  - rewrite parseJsonLenient_second_attempt. unfold second_attempt.
    now rewrite bracket_span_trim.
  - apply bracket_span_trim.
Qed.

(** ** The count of the summary *)

Lemma toggle_other (id : string) (l : list TodoItem.t) :
  ~ In id (map TodoItem.id l) -> map (toggle id) l = l.
Proof.
  induction l as [|a l IH]; intros H; [reflexivity|].
  simpl in *. rewrite IH by tauto. f_equal. unfold toggle.
  destruct (String.eqb_spec (TodoItem.id a) id); [tauto | reflexivity].
Qed.

Lemma filter_other (id : string) (l : list TodoItem.t) :
  ~ In id (map TodoItem.id l) ->
  List.filter (fun item => negb (String.eqb (TodoItem.id item) id)) l = l.
Proof.
  induction l as [|a l IH]; intros H; [reflexivity|].
  simpl in *. rewrite IH by tauto.
  destruct (String.eqb_spec (TodoItem.id a) id); [tauto | reflexivity].
Qed.

Lemma todoDone_cons (a : TodoItem.t) (l : list TodoItem.t) :
  todoDone (a :: l) = (done_count a + todoDone l)%nat.
Proof. unfold todoDone, done_count. simpl. destruct (TodoItem.done a); reflexivity. Qed.

Lemma toggle_count (id : string) (item : TodoItem.t) (l : list TodoItem.t) :
  List.NoDup (map TodoItem.id l) -> In item l -> TodoItem.id item = id ->
  (todoDone (map (toggle id) l) + done_count item
   = todoDone l + (1 - done_count item))%nat.
Proof.
  induction l as [|a l IH]; intros Hn Hin Hid; [contradiction|].
  simpl in Hn. apply List.NoDup_cons_iff in Hn as [Ha Hn].
  change (map (toggle id) (a :: l)) with (toggle id a :: map (toggle id) l).
  rewrite !todoDone_cons.
  destruct Hin as [-> | Hin].
  - rewrite toggle_other by (rewrite <- Hid; exact Ha).
    unfold toggle, done_count. rewrite Hid, String.eqb_refl. simpl.
    destruct (TodoItem.done item); simpl; lia.
  - assert (Hne : TodoItem.id a <> id).
    { intros E. apply Ha. rewrite E, <- Hid. now apply in_map. }
    unfold toggle at 1. destruct (String.eqb_spec (TodoItem.id a) id); [contradiction|].
    specialize (IH Hn Hin Hid). lia.
Qed.

Lemma delete_count (id : string) (item : TodoItem.t) (l : list TodoItem.t) :
  List.NoDup (map TodoItem.id l) -> In item l -> TodoItem.id item = id ->
  let after := List.filter (fun item => negb (String.eqb (TodoItem.id item) id)) l in
  S (length after) = length l
  /\ (todoDone after + done_count item = todoDone l)%nat.
Proof.
  cbv zeta.
  induction l as [|a l IH]; intros Hn Hin Hid; [contradiction|].
  simpl in Hn. apply List.NoDup_cons_iff in Hn as [Ha Hn].
  rewrite todoDone_cons.
  destruct Hin as [-> | Hin].
  - simpl. rewrite Hid, String.eqb_refl. simpl.
    rewrite filter_other by (rewrite <- Hid; exact Ha). split; [reflexivity | lia].
  - assert (Hne : TodoItem.id a <> id).
    { intros E. apply Ha. rewrite E, <- Hid. now apply in_map. }
    simpl. destruct (String.eqb_spec (TodoItem.id a) id); [contradiction|].
    simpl. rewrite todoDone_cons.
    destruct (IH Hn Hin Hid) as [E1 E2]. split; lia.
Qed.

(** X21. With identifiers that are unique, the count of the summary
    moves by one: toggling the identifier of an item of the list adds
    one to the number of done to-dos when the item was not done and
    takes one away when it was, and deleting it takes the item, and
    only it, out of the list and out of the count. *)
Theorem summary_moves_by_one (id : string) (item : TodoItem.t) (w : Window)
    (Hunique : List.NoDup (map TodoItem.id (todos (hooks (commit w)))))
    (Hin : In item (todos (hooks (commit w))))
    (Hid : TodoItem.id item = id) :
  let before := todos (hooks (commit w)) in
  let toggled := todos (hooks (step w (op_toggleTodo id))) in
  let deleted := todos (hooks (step w (op_deleteTodo id))) in
  (todoDone toggled + done_count item = todoDone before + (1 - done_count item))%nat
  /\ length toggled = length before
  /\ S (length deleted) = length before
  /\ (todoDone deleted + done_count item = todoDone before)%nat.
Proof.
  cbv zeta. rewrite toggleTodo_state, deleteTodo_state.
  split; [now apply toggle_count|].
  split; [apply length_map|].
  now apply delete_count.
Qed.

(** "Buy milk" is done after one toggle. *)
Lemma summary_moves_by_one_witness :
  todoDone (todos (hooks (step milk_window (op_toggleTodo "1700000000000")))) = 1%nat.
Proof.
  assert (E : todos (hooks (commit milk_window)) = [milk_item "1700000000000"])
    by (vm_compute; reflexivity).
  assert (Hu : List.NoDup (map TodoItem.id (todos (hooks (commit milk_window)))))
    by (rewrite E; repeat constructor; simpl; tauto).
  assert (Hin : In (milk_item "1700000000000") (todos (hooks (commit milk_window))))
    by (rewrite E; left; reflexivity).
  pose proof (proj1 (summary_moves_by_one "1700000000000" (milk_item "1700000000000")
                       milk_window Hu Hin eq_refl)) as H.
  rewrite E in H. change (todoDone [milk_item "1700000000000"]) with 0%nat in H.
  change (done_count (milk_item "1700000000000")) with 0%nat in H. lia.
Defined.

(** ** The agenda form after [addAgenda] *)

(** X22. After an [addAgenda] that added an entry, the form is empty in
    all three fields, the location included; in desktop mode the panel
    is closed and otherwise it is as it was; the to-dos are untouched;
    the two newest entries shown are the new one and the newest of
    before; and a second [addAgenda] right after it does nothing. *)
Theorem addAgenda_resets_form (w : Window) :
  AgendaForm.title (agendaForm (hooks w)) <> "" ->
  AgendaForm.time (agendaForm (hooks w)) <> "" ->
  let w1 := step w op_addAgenda in
  agendaForm (hooks w1)
  = {| AgendaForm.title := ""; AgendaForm.time := ""; AgendaForm.location := "" |}
  /\ activePanel (hooks w1)
     = (if desktopMode w then None else activePanel (hooks (commit w)))
  /\ todos (hooks w1) = todos (hooks (commit w))
  /\ peek (agenda (hooks w1))
     = (agenda_of_form (agendaForm (hooks w)) (fst (createId (world (commit w))))
        :: firstn 1 (peek (agenda (hooks (commit w)))))%list
  /\ addAgenda w1 = (Ok tt, w1)
  /\ step w1 op_addAgenda = w1.
Proof.
  intros Ht Hm w1.
  pose proof (step_state op_addAgenda w _ (addAgenda_calls w Ht Hm)) as E.
  rewrite run_queue_app in E. unfold closing_panel in E.
  assert (Hform : agendaForm (hooks w1)
                  = {| AgendaForm.title := ""; AgendaForm.time := "";
                       AgendaForm.location := "" |}
                  /\ activePanel (hooks w1)
                     = (if desktopMode w then None else activePanel (hooks (commit w)))
                  /\ todos (hooks w1) = todos (hooks (commit w))
                  /\ agenda (hooks w1)
                     = (agenda (hooks (commit w))
                        ++ [agenda_of_form (agendaForm (hooks w))
                              (fst (createId (world (commit w))))])%list).
  { unfold w1. destruct (desktopMode w); simpl in E; injection E as -> _; simpl; auto. }
  destruct Hform as (Hf & Hp & Hd & Ha).
  assert (Hno : addAgenda w1 = (Ok tt, w1)).
  { apply addAgenda_noop. left. rewrite Hf. reflexivity. }
  split; [exact Hf|]. split; [exact Hp|]. split; [exact Hd|].
  split.
  { rewrite Ha, !peek_rev, rev_app_distr. simpl.
    destruct (List.rev (agenda (hooks (commit w)))); reflexivity. }
  split; [exact Hno|].
  unfold step at 1, handled, handler. rewrite Hno. simpl.
  apply commit_idle, step_settled.
Qed.

(** "Standup" leaves an empty form. *)
Lemma addAgenda_resets_form_witness :
  let w1 := step (run standup (first_window (ticking []))) op_addAgenda in
  AgendaForm.title (agendaForm (hooks w1)) = ""
  /\ length (agenda (hooks (step w1 op_addAgenda))) = 1%nat.
Proof.
  cbv zeta.
  assert (Ht : AgendaForm.title (agendaForm (hooks (run standup (first_window (ticking [])))))
               <> "") by (vm_compute; discriminate).
  assert (Hm : AgendaForm.time (agendaForm (hooks (run standup (first_window (ticking [])))))
               <> "") by (vm_compute; discriminate).
  destruct (addAgenda_resets_form _ Ht Hm) as (Hf & _ & _ & _ & _ & Hs).
  rewrite Hs, Hf. split; vm_compute; reflexivity.
Defined.

(** ** The keys that are written *)

Lemma own_key_false (key : string) :
  own_key key = false ->
  storageKeys.todos <> key /\ storageKeys.agenda <> key
  /\ storageKeys.city <> key /\ storageKeys.cityMode <> key.
Proof.
  unfold own_key. rewrite !orb_false_iff, !String.eqb_neq.
  intros [[[? ?] ?] ?]. repeat split; congruence.
Qed.

Lemma persist_other (key : string) (before after : Hooks) (q : list Action)
    (st : gmap string string) :
  own_key key = false -> persist before after q st !! key = st !! key.
Proof.
  intros H. apply own_key_false in H as (Ht & Ha & Hc & Hm).
  unfold persist, saveStorage.
  repeat match goal with
         | |- context [if ?b then _ else _] => destruct b
         end;
    rewrite ?lookup_insert_ne by assumption; reflexivity.
Qed.

Lemma step_other (key : string) (op : Op) (w : Window) :
  own_key key = false -> localStorage (step w op) !! key = localStorage w !! key.
Proof.
  intros H. unfold step.
  rewrite commit_localStorage, (persist_other _ _ _ _ _ H).
  now rewrite handled_localStorage.
Qed.

(** X23. The component writes its four keys and no other: whatever the
    events, a key of the store that is not one of the four holds after
    them what it held before, and so it does after the first render of
    a window. *)
Theorem other_keys_untouched (key : string) (ops : list Op) (w : Window)
    (Hkey : own_key key = false) :
  localStorage (run ops w) !! key = localStorage w !! key
  /\ forall desktop module h st wd,
       localStorage (mount desktop module h st wd) !! key = st !! key.
Proof.
  split.
  - revert w. induction ops as [|op ops IH]; intros w; [reflexivity|].
    simpl. rewrite IH. now apply step_other.
  - intros desktop module h st wd. apply own_key_false in Hkey as (Ht & Ha & Hc & Hm).
    unfold mount, persist_all, saveStorage. simpl.
    now rewrite !lookup_insert_ne by assumption.
Qed.

(** A day of events writes nothing under the key of another program. *)
Lemma other_keys_untouched_witness :
  localStorage (run busy_day (first_window (ticking []))) !! "theme" = None.
Proof.
  rewrite (proj1 (other_keys_untouched "theme" busy_day (first_window (ticking []))
                    eq_refl)).
  reflexivity.
Defined.
